(* ===== verification/_CoqProject ===== *)
-Q . S2P
Prelude.v
Naming.v
Frame.v
LoadCSV.v
ReadCSV.v
Categories.v
Interval.v
Plots.v
WordPair.v
Datasets.v
Axes.v
Packaging.v
Main.v
