(* ===== verification/Prelude.v ===== *)
(** * A verification development of USAT (src/src/attrakdiff.py)

    USAT reads the CSV export of an AttrakDiff questionnaire and draws
    three charts from one or more such exports.  The program is
    [src/src/attrakdiff.py] (199 lines); [src/setup.py] packages it and
    declares the packages installed with it.
    Its parts and how they interact:
    - [loadCSV(file)] (lines 62-88) reads one export into a pandas
      DataFrame, keeps the columns before "URL", checks their number
      against the two schema sizes, renames them after [order_short] or
      [order_long], maps every rating from 1..7 to -3..3 (reversing the
      pairs marked "*"), strips the marker and sorts the columns in the
      order of [pairs];
    - the caller gathers the normalised tables in a dict
      [datas : name -> DataFrame], in insertion order;
    - [cat2dict(data)] (lines 91-95) groups the columns of a table by
      category name (substring test);
    - [plotAverageValues], [plotWordPair] and [plotAttrakdiff]
      (lines 98-185) each take [datas], read the columns of its FIRST
      table, compute a summary table from pandas' [mean()] or
      [stack()], draw it and return it, looking up its labels by the
      language [lang]; [plotAttrakdiff] calls [interval(data, alpha)]
      (lines 49-56), the mean and scipy's Student-t confidence interval
      of a sample;
    - the tables [categories], [order_short], [order_long], [pairs] and
      the label tables indexed by language come from a module [naming]
      that is not among the sources.

    ** Files
    - Prelude.v (this file): Python exceptions as the type [py_error];
      the error monad [result] ([Ok]/[Err], notation [x <- c ;; k] in
      [usat_scope]) through which every raising function is written;
      [map_res], a [for] loop or comprehension that stops at the first
      exception; Python's [in] on strings ([str_contains]); exact means
      in Q ([qsum], [qmean], [zmean]); shared lemmas on lists, sorting,
      sums and the loop, and the hint database [usat].
    - Naming.v: the class [Schema] (the [naming] tables and their languages) and the
      AttrakDiff instance [attrakdiff_schema]; modelled from the spec.
    - Frame.v: the pandas DataFrame as a record [frame] (row count,
      labelled columns); the operations the source calls ([get_loc],
      [drop], assignment of [columns], [items()] with assignment,
      [reindex], [dF[labels]], [mean()], [mean().mean()], [stack()]),
      their well-formedness invariant [wf_frame] and its preservation.
    - LoadCSV.v: [loadCSV] as the composition of its four stages
      [drop_after_url], [check_and_rename], [normalize] and
      [reorder_columns], with [sort_columns] (Python's stable [sorted]
      as an insertion sort); the abstract specification [load_spec];
      the class [SchemaWF] of the schema properties the proofs need,
      discharged for AttrakDiff by the instance [attrakdiff_wf].
    - ReadCSV.v: what [read_csv(file, index_col=0)] of line 67 does
      with the tokenised export ([EmptyDataError] without a header line,
      Unnamed header fields, the C parser's mangling of duplicate
      header names as a fuelled [while] loop over the header updated in
      place, the parser's error on a too long row, NaN padding, the
      index column), and [loadCSV_file], the whole of lines 62-88.
    - Categories.v: [cat2dict].
    - Interval.v: [interval] over scipy's [t.interval] and [t.ppf]
      branch by branch; the t quantile is the class [StudentT] with its
      laws; numpy floats are [xreal] (finite, +-inf, NaN).
    - Plots.v: [plotAverageValues] (the table, its reindex by the
      categories and the chart [av_figure]) and [plotAttrakdiff]
      (table, confidence rectangles) in Section [Aggregators], their
      shape, alignment, success, constant-sample and neutral-sample
      theorems.
    - WordPair.v: [plotWordPair] with its figure as data ([wp_figure]:
      axis line, one line of points per dataset, the category boxes of
      the loop of lines 123-130 as a [fold_left], tick labels, limits).
    - Datasets.v: the three aggregators together (when an unknown
      language raises, order of a short and a long export).
    - Axes.v: the axis limits the charts set (lines 104 and 153-154),
      bounds of means of bounded samples, and the values and
      rectangles the charts draw against those limits.
    - Main.v: the [__main__] block (lines 194-200) with Python's
      binding of positional arguments to parameters ([bind_args]).
    - Packaging.v: the arguments of [setup(...)] in setup.py and the
      imports of attrakdiff.py, as data checked against each other.

    ** Theorems (ids as in their doc comments)
    - loadCSV (C1-C11): refinement of [loadCSV] by [load_spec] on valid
      exports; the three errors (no "URL", wrong size, text answer);
      the key sort equals a filter of [pairs]; the -3..3 bound; the
      round trip (every useful raw column is recovered from the loaded
      one by [decode_cell]); safety (on distinct labels, success or one
      of the three errors, and, with [read_csv], on every tokenised
      file, success or one of five errors); short and long exports give
      differently keyed tables; a reversed pair is the plain pair of
      [8 - x].
    - read_csv (C12): a well-formed table whose labels, the mangled
      header, are distinct; short rows padded with NaN; EmptyDataError
      without a header, the parser's error on a long row.  The lemma
      [mangle_header_ok] proves that the mangling loop ends within its
      fuel and returns distinct names.
    - cat2dict (C13): the groups partition the columns when every
      label holds one category name.
    - interval (C14-C18): centred finite interval of half-width
      [sem * t_ppf((1+alpha)/2)] for a varied sample; monotone in
      [alpha]; NaN endpoints for a constant or too small sample;
      ValueError outside [0, 1].
    - pandas means (C19): [mean().mean()] equals the mean of all cells
      on complete tables.
    - aggregators (C20-C29): the keys of the average table; each point
      of the average chart sits above the category it averages; the
      box loop draws the stacked layout, and for AttrakDiff the boxes
      cover the pairs; each point of a dataset with the first one's
      columns is drawn at the height of the tick naming its pair, while
      a dataset with more columns than the first is drawn above the
      axis and against the first one's pairs; on answers all equal to
      [k] every average is [k]; on neutral answers every portfolio point
      is (0, 0) with NaN rectangles; with a short and a long export the
      result depends on their order (KeyError when the long one comes
      first); an unknown language raises KeyError, in [plotAttrakdiff]
      before anything else, in the two others only after their table.
    - axes (C30-C31): on anything [loadCSV] returns from answers on the
      1..7 scale, every point of the average chart and every portfolio
      point lies within the axis limits; each confidence rectangle
      with finite corners contains its point.
    - entry point (C32-C33): the [__main__] block never draws (it
      raises loadCSV's error or the TypeError of the missing [lang]);
      with [lang] passed, the call draws for every valid export.
    - setup.py: the lemma [usat_missing_scipy] of Packaging.v shows
      scipy imported but not required.

    ** Modelling choices
    Ratings are integers ([Z]); after the subtraction pandas holds them
    as exact floats, so [Z] loses nothing.  Means and squared standard
    errors are exact rationals: float rounding is not modelled.  The
    interval endpoints are reals ([sqrt]).  Every function is
    structurally recursive over finite lists (columns, rows, datasets):
    no fuel is needed and every definition computes, which the witnesses
    use.  The one [while] loop of the modelled code, the mangling of
    duplicate header names in [read_csv]'s parser, runs on fuel: one
    more than the number of header fields, which [mangle_header_ok]
    shows is enough (every candidate name the loop skips is in the
    header, and the candidates are distinct, so a pigeonhole bound
    applies).  [raise] in the source and the exceptions pandas or scipy raise
    on the modelled paths are [Err] values; NaN cells are [None].

    ** Not modelled
    The decoding and tokenising of [read_csv] (UTF-16 with its
    UnicodeError, tab separator, quoting) and its inference of the
    cells' types: the input is the
    header and the typed cells of every row; nor its implicit index of
    rows one field longer than the header.  The matplotlib calls beyond
    the geometry of the three charts (the lines, points, boxes, tick
    labels, limits and confidence rectangles are modelled; markers,
    legends, grids, colours, the offset of the tick labels, the
    portfolio's ticks and the text of its QPQH grid, whose positions
    are keys of the [naming] module that is not in the repository, are
    not).  The label strings themselves (only which languages exist is
    modelled, and the word-pair ticks keep the key
    [pairs[col][lang][side]] they read).  The file reading of the
    [__main__] block ([plt.show()] follows a call that always raises).
    In setup.py, [readme()] (it reads README.md) and the description
    strings and classifiers, which have no behaviour.  The exact t
    quantile is abstract ([StudentT]).  No liveness theorem is stated:
    the program has no loop that waits for input, and every function
    but the fuelled mangling loop is structural recursion over finite
    lists. *)

From Stdlib Require Import String Ascii Bool ZArith QArith List Lia Sorted Permutation.
Import ListNotations.

(** ** Python exceptions raised by the modelled code *)

(** One constructor per exception the source raises or lets escape
    from pandas/scipy on the modelled paths. *)
Inductive py_error : Type :=
| ValueError_NoURL                         (** [loadCSV]: no "URL" column *)
| ValueError_Size (short long : nat)       (** [loadCSV]: wrong useful-column count *)
| ValueError_Length (expected got : nat)   (** [Tab.columns = names], length mismatch *)
| TypeError_Operand (col : string)         (** [4 - Tab[col]] on a text column *)
| TypeError_SortKey                        (** [sorted(..., key=d.get)] meets [None] *)
| ValueError_DuplicateAxis                 (** [reindex] on duplicate labels *)
| KeyError_Columns (missing : list string) (** [dF[cols]] with absent labels *)
| KeyError_Key (key : string)              (** [d[key]] on a dict without [key] *)
| StopIteration_Empty                      (** [next(iter(datas))] on an empty dict *)
| ValueError_Confidence                    (** [stats.t.interval] with alpha outside [0,1] *)
| TypeError_MissingArgs (fn : string) (params : list string)
                                           (** a call without some required positional arguments *)
| TypeError_TooManyArgs (fn : string) (expected given : nat)
                                           (** a call with more positional arguments than parameters *)
| TypeError_Argument (param : string)      (** an argument of a type the body cannot use *)
| ParserError_Fields (expected line saw : nat)
                                           (** [read_csv]: a row with more fields than the header *)
| EmptyDataError_NoColumns.                (** [read_csv] on a file without a header line *)

(** The result of a computation that may raise. *)
Inductive result (A : Type) : Type :=
| Ok (a : A)
| Err (e : py_error).
Arguments Ok {A} a.
Arguments Err {A} e.

Definition bind {A B : Type} (r : result A) (k : A -> result B) : result B :=
  match r with
  | Ok a => k a
  | Err e => Err e
  end.

Definition of_option {A : Type} (o : option A) (e : py_error) : result A :=
  match o with
  | Some a => Ok a
  | None => Err e
  end.

Declare Scope usat_scope.
Delimit Scope usat_scope with usat.
Notation "x <- c ;; k" := (bind c (fun x => k))
  (at level 61, c at next level, right associativity) : usat_scope.
Notation "'raise' e" := (Err e) (at level 10) : usat_scope.
Open Scope usat_scope.

(** A loop over a list that stops at the first exception. *)
Fixpoint map_res {A B : Type} (f : A -> result B) (l : list A) : result (list B) :=
  match l with
  | [] => Ok []
  | x :: l' => y <- f x ;; ys <- map_res f l' ;; Ok (y :: ys)
  end.

(** [d[k]] for a dict [d] with string keys, kept as an association
    list in insertion order. *)
Fixpoint assoc {A : Type} (k : string) (l : list (string * A)) : option A :=
  match l with
  | [] => None
  | (k', v) :: l' => if String.eqb k k' then Some v else assoc k l'
  end.

(** [needle in hay] for two Python strings: [needle] occurs at some
    position of [hay] (the empty string occurs everywhere). *)
Fixpoint str_contains (needle hay : string) : bool :=
  String.prefix needle hay ||
  match hay with
  | EmptyString => false
  | String _ rest => str_contains needle rest
  end.

(** [st[:-1]]: every character but the last one. *)
Fixpoint drop_last (s : string) : string :=
  match s with
  | EmptyString => EmptyString
  | String _ EmptyString => EmptyString
  | String c rest => String c (drop_last rest)
  end.

(** [l.index(x)] / [Index.get_loc(x)] for a list without duplicates:
    the position of the first occurrence. *)
Fixpoint index_of (x : string) (l : list string) : option nat :=
  match l with
  | [] => None
  | y :: l' => if String.eqb x y then Some 0%nat
               else option_map S (index_of x l')
  end.

(** No label occurs twice ([Index.is_unique]). *)
Fixpoint dup_free_b (l : list string) : bool :=
  match l with
  | [] => true
  | x :: l' => negb (existsb (String.eqb x) l') && dup_free_b l'
  end.

(** Boolean inclusion of string lists. *)
Definition incl_b (l1 l2 : list string) : bool :=
  forallb (fun x => existsb (String.eqb x) l2) l1.

Open Scope Q_scope.

Definition qsum (l : list Q) : Q := fold_right Qplus 0 l.

(** The arithmetic mean of a sample of rationals, [None] (pandas'
    [NaN]) for an empty sample. *)
Definition qmean (l : list Q) : option Q :=
  match l with
  | [] => None
  | _ => Some (qsum l / inject_Z (Z.of_nat (List.length l)))
  end.

(** [Series.mean()] of a sample of integers, in exact arithmetic. *)
Definition zmean (l : list Z) : option Q := qmean (map inject_Z l).

Close Scope Q_scope.



(** ** Lemmas *)

Lemma bind_Ok {A B} (r : result A) (k : A -> result B) (b : B) :
  bind r k = Ok b <-> exists a, r = Ok a /\ k a = Ok b.
Proof.
  destruct r as [a|e]; simpl; split.
  - intros H. exists a. auto.
  - intros (a' & H1 & H2). congruence.
  - discriminate.
  - intros (a' & H1 & _). discriminate.
Qed.

Lemma bind_Err {A B} (r : result A) (k : A -> result B) e :
  r = Err e -> bind r k = Err e.
Proof. intros ->. reflexivity. Qed.

Lemma bind_ok_l {A B} (a : A) (k : A -> result B) : bind (Ok a) k = k a.
Proof. reflexivity. Qed.

Lemma prefix_refl s : String.prefix s s = true.
Proof. induction s as [|c s IH]; simpl; [reflexivity|]. destruct (ascii_dec c c); congruence. Qed.

Lemma prefix_app s t : String.prefix s (s ++ t) = true.
Proof.
  induction s as [|c s IH]; simpl; [destruct t; reflexivity|].
  destruct (ascii_dec c c); congruence.
Qed.

Lemma str_contains_app_r needle s t :
  str_contains needle t = true -> str_contains needle (s ++ t) = true.
Proof.
  intros H. induction s as [|c s IH]; simpl; [exact H|].
  rewrite IH. apply orb_true_r.
Qed.

Lemma string_length_app s t : String.length (s ++ t) = String.length s + String.length t.
Proof. induction s as [|c s IH]; cbn; [reflexivity|rewrite IH; reflexivity]. Qed.

Lemma str_contains_refl s : str_contains s s = true.
Proof. destruct s as [|c s]; [reflexivity|]. cbn [str_contains]. rewrite prefix_refl. reflexivity. Qed.

Lemma drop_last_snoc s c : drop_last (s ++ String c EmptyString) = s.
Proof.
  induction s as [|c' s IH]; [reflexivity|].
  simpl. rewrite IH. destruct s; reflexivity.
Qed.

Lemma index_of_Some x l i :
  index_of x l = Some i -> nth_error l i = Some x /\ ~ In x (firstn i l).
Proof.
  revert i. induction l as [|y l IH]; intros i H; simpl in H; [discriminate|].
  destruct (String.eqb_spec x y) as [->|Hne].
  - injection H as <-. simpl. tauto.
  - destruct (index_of x l) as [j|] eqn:E; simpl in H; [|discriminate].
    injection H as <-. destruct (IH j eq_refl) as [H1 H2].
    simpl. split; [exact H1|]. intros [H|H]; [congruence|tauto].
Qed.

Lemma index_of_None x l : index_of x l = None <-> ~ In x l.
Proof.
  split.
  - induction l as [|y l IH]; simpl; [tauto|].
    destruct (String.eqb_spec x y) as [->|Hne]; [discriminate|].
    destruct (index_of x l); simpl; [discriminate|].
    intros _ [H|H]; [congruence|]. exact (IH eq_refl H).
  - intros Hx. destruct (index_of x l) as [i|] eqn:E; [|reflexivity].
    exfalso. apply Hx. eapply nth_error_In. apply (index_of_Some x l i E).
Qed.

(** Membership of a string in a list, as Python's [x in l]. *)
Lemma existsb_eqb_In x l : existsb (String.eqb x) l = true <-> In x l.
Proof.
  rewrite existsb_exists. split.
  - intros (y & Hy & E). apply String.eqb_eq in E. subst. exact Hy.
  - intros H. exists x. split; [exact H|]. apply String.eqb_refl.
Qed.

Lemma existsb_eqb_notIn x l : existsb (String.eqb x) l = false <-> ~ In x l.
Proof.
  rewrite <- existsb_eqb_In. destruct (existsb (String.eqb x) l); split; congruence.
Qed.

Lemma dup_free_b_spec l : dup_free_b l = true <-> NoDup l.
Proof.
  induction l as [|x l IH]; simpl.
  - split; [constructor|reflexivity].
  - rewrite andb_true_iff, negb_true_iff, existsb_eqb_notIn, IH, NoDup_cons_iff.
    reflexivity.
Qed.

Lemma filter_all_false {A} (f : A -> bool) l :
  (forall x, In x l -> f x = false) -> filter f l = [].
Proof.
  induction l as [|x l IH]; intros H; simpl; [reflexivity|].
  rewrite H by (left; reflexivity). apply IH. intros y Hy. apply H. right. exact Hy.
Qed.

Lemma NoDup_app_disjoint {A} (l1 l2 : list A) x :
  NoDup (l1 ++ l2) -> In x l1 -> ~ In x l2.
Proof.
  induction l1 as [|y l1 IH]; simpl; [tauto|].
  intros Hnd [<-|Hx] Hx2; inversion Hnd as [|? ? Hy Hnd']; subst.
  - apply Hy, in_or_app. right. exact Hx2.
  - exact (IH Hnd' Hx Hx2).
Qed.

(** Two lists strongly sorted by an asymmetric relation, with the same
    elements, are equal. *)
Lemma StronglySorted_unique {A} (R : A -> A -> Prop) (l1 l2 : list A) :
  (forall x y, R x y -> ~ R y x) ->
  StronglySorted R l1 -> StronglySorted R l2 ->
  (forall x, In x l1 <-> In x l2) -> l1 = l2.
Proof.
  intros Hasym. revert l2.
  induction l1 as [|a l1 IH]; intros [|b l2] H1 H2 Hin.
  - reflexivity.
  - exfalso. apply (proj2 (Hin b)). left. reflexivity.
  - exfalso. apply (proj1 (Hin a)). left. reflexivity.
  - apply StronglySorted_inv in H1 as [H1 F1].
    apply StronglySorted_inv in H2 as [H2 F2].
    rewrite Forall_forall in F1, F2.
    assert (a = b) as <-.
    { destruct (proj1 (Hin a) (or_introl eq_refl)) as [|Ha]; [congruence|].
      destruct (proj2 (Hin b) (or_introl eq_refl)) as [|Hb]; [congruence|].
      exfalso. exact (Hasym _ _ (F1 b Hb) (F2 a Ha)). }
    f_equal. apply IH; [exact H1|exact H2|]. intros x.
    specialize (Hin x). simpl in Hin.
    split; intros Hx.
    + destruct (proj1 Hin (or_intror Hx)) as [<-|]; [|assumption].
      exfalso. exact (Hasym _ _ (F1 a Hx) (F1 a Hx)).
    + destruct (proj2 Hin (or_intror Hx)) as [<-|]; [|assumption].
      exfalso. exact (Hasym _ _ (F2 a Hx) (F2 a Hx)).
Qed.

Lemma StronglySorted_filter {A} (R : A -> A -> Prop) (f : A -> bool) l :
  StronglySorted R l -> StronglySorted R (filter f l).
Proof.
  induction 1 as [|a l Hs IH Hf]; simpl; [constructor|].
  destruct (f a); [|exact IH]. constructor; [exact IH|].
  rewrite Forall_forall in *. intros x Hx. apply filter_In in Hx. apply Hf, Hx.
Qed.

Lemma StronglySorted_weaken {A} (R R' : A -> A -> Prop) l :
  NoDup l ->
  (forall a b, In a l -> In b l -> a <> b -> R a b -> R' a b) ->
  StronglySorted R l -> StronglySorted R' l.
Proof.
  intros Hnd HR Hs. induction Hs as [|a l Hs IH Hf]; constructor;
    inversion Hnd as [|? ? Ha Hnd']; subst.
  - apply IH; [exact Hnd'|]. intros x y Hx Hy. apply HR; right; assumption.
  - rewrite Forall_forall in *. intros x Hx. apply HR; [left; reflexivity|right; exact Hx| |].
    + intros ->. contradiction.
    + apply Hf, Hx.
Qed.

Lemma StronglySorted_map {A B} (R : B -> B -> Prop) (f : A -> B) l :
  StronglySorted (fun x y => R (f x) (f y)) l <-> StronglySorted R (map f l).
Proof.
  split.
  - induction 1 as [|a l Hs IH Hf]; simpl; constructor; [exact IH|].
    rewrite Forall_forall in *. intros y Hy. apply in_map_iff in Hy as (x & <- & Hx).
    apply Hf, Hx.
  - induction l as [|a l IH]; simpl; intros H; constructor;
      apply StronglySorted_inv in H as [H1 H2]; [exact (IH H1)|].
    rewrite Forall_forall in *. intros x Hx. apply H2, in_map, Hx.
Qed.

Lemma map_fst_combine {A B} (l : list A) (l' : list B) :
  List.length l = List.length l' -> map fst (combine l l') = l.
Proof.
  revert l'. induction l as [|x l IH]; intros [|y l'] H; simpl in *; try discriminate; [reflexivity|].
  f_equal. apply IH. congruence.
Qed.

Lemma map_snd_combine {A B} (l : list A) (l' : list B) :
  List.length l = List.length l' -> map snd (combine l l') = l'.
Proof.
  revert l'. induction l as [|x l IH]; intros [|y l'] H; simpl in *; try discriminate; [reflexivity|].
  f_equal. apply IH. congruence.
Qed.

Lemma incl_b_spec l1 l2 : incl_b l1 l2 = true <-> incl l1 l2.
Proof.
  unfold incl_b, incl. rewrite forallb_forall.
  setoid_rewrite existsb_eqb_In. reflexivity.
Qed.

Lemma combine_app {A B} (l1 l2 : list A) (m1 m2 : list B) :
  List.length l1 = List.length m1 -> combine (l1 ++ l2) (m1 ++ m2) = combine l1 m1 ++ combine l2 m2.
Proof.
  revert m1. induction l1 as [|x l1 IH]; intros [|y m1] H; simpl in *; try discriminate; [reflexivity|].
  f_equal. apply IH. congruence.
Qed.

Lemma split_at_nth {A} (l : list A) n d :
  n < List.length l -> l = firstn n l ++ nth n l d :: skipn (S n) l.
Proof.
  revert n. induction l as [|x l IH]; intros [|n] H; simpl in *; try lia; [reflexivity|].
  f_equal. apply IH. lia.
Qed.

Lemma zmean_eq (l : list Z) :
  l <> [] -> zmean l = Some (qsum (map inject_Z l) / inject_Z (Z.of_nat (List.length l)))%Q.
Proof.
  destruct l as [|x l]; [congruence|]. intros _. unfold zmean, qmean. cbn [map].
  rewrite <- (length_map inject_Z (x :: l)). reflexivity.
Qed.

Lemma map_res_ok {A B} (f : A -> result B) (g : A -> B) l :
  (forall x, In x l -> f x = Ok (g x)) -> map_res f l = Ok (map g l).
Proof.
  induction l as [|x l IH]; intros H; simpl; [reflexivity|].
  rewrite (H x (or_introl eq_refl)). simpl. rewrite IH; [reflexivity|].
  intros y Hy. apply H. right. exact Hy.
Qed.

Lemma map_res_Ok_inv {A B} (f : A -> result B) l ys :
  map_res f l = Ok ys -> Forall2 (fun x y => f x = Ok y) l ys.
Proof.
  revert ys. induction l as [|x l IH]; intros ys H; simpl in H.
  - injection H as <-. constructor.
  - destruct (f x) as [y|] eqn:E; [|discriminate]. simpl in H.
    destruct (map_res f l) as [ys'|]; [|discriminate]. injection H as <-.
    constructor; [exact E|apply IH; reflexivity].
Qed.

Lemma map_res_err {A B} (f : A -> result B) pre x post e :
  (forall y, In y pre -> exists r, f y = Ok r) -> f x = Err e ->
  map_res f (pre ++ x :: post) = Err e.
Proof.
  induction pre as [|y pre IH]; intros Hpre Hx; simpl.
  - rewrite Hx. reflexivity.
  - destruct (Hpre y (or_introl eq_refl)) as [r ->]. simpl.
    rewrite IH; [reflexivity| |exact Hx]. intros z Hz. apply Hpre. right. exact Hz.
Qed.

Lemma map_res_map {A B C} (f : A -> result B) (g : B -> C) (h : A -> C) l ys :
  (forall x y, In x l -> f x = Ok y -> g y = h x) -> map_res f l = Ok ys -> map g ys = map h l.
Proof.
  intros H E. apply map_res_Ok_inv in E. induction E as [|x y l ys Hxy Hrest IH]; [reflexivity|].
  simpl. rewrite (H x y (or_introl eq_refl) Hxy). f_equal.
  apply IH. intros x' y' Hx'. apply H. right. exact Hx'.
Qed.

(** A loop whose body succeeds on every element of the list succeeds,
    each result related to its element. *)
Lemma map_res_Forall2 {A B} (f : A -> result B) (P : A -> Prop) (R : A -> B -> Prop) l :
  Forall P l -> (forall x, P x -> exists y, f x = Ok y /\ R x y) ->
  exists ys, map_res f l = Ok ys /\ Forall2 R l ys.
Proof.
  intros Hl Hf. induction Hl as [|x l Hx _ IH]; [exists []; split; constructor|].
  destruct (Hf x Hx) as (y & Ey & Ry). destruct IH as (ys & Eys & Rys).
  exists (y :: ys). cbn. rewrite Ey, Eys. split; [reflexivity|constructor; assumption].
Qed.

Lemma Forall_Forall2_l {A B} (P : A -> Prop) (R : A -> B -> Prop) l ys :
  Forall P l -> Forall2 R l ys -> Forall2 (fun x y => P x /\ R x y) l ys.
Proof. intros Hl H. induction H; inversion Hl; subst; constructor; auto. Qed.

Lemma Forall_Forall2_map {A B C} (f : A -> B) (g : A -> C) (R : B -> C -> Prop) l :
  Forall (fun x => R (f x) (g x)) l -> Forall2 R (map f l) (map g l).
Proof. induction 1; constructor; assumption. Qed.

Lemma combine_Forall_snd {A B} (P : B -> Prop) (l : list A) (l' : list B) :
  Forall P l' -> Forall (fun p => P (snd p)) (combine l l').
Proof.
  revert l'. induction l as [|a l IH]; intros [|b l'] H; cbn; try constructor.
  - inversion H; assumption.
  - apply IH. inversion H; assumption.
Qed.

Lemma Forall2_map_eq {A B C} (g : B -> C) (h : A -> C) l ys :
  Forall2 (fun x y => g y = h x) l ys -> map g ys = map h l.
Proof. induction 1 as [|x y l ys Hxy _ IH]; [reflexivity|]. cbn. rewrite Hxy, IH. reflexivity. Qed.

Lemma Forall2_Forall_r {A B} (R : B -> Prop) (l : list A) ys :
  Forall2 (fun _ y => R y) l ys -> Forall R ys.
Proof. induction 1; constructor; assumption. Qed.

Lemma filter_nonempty {A} (f : A -> bool) l : Exists (fun x => f x = true) l -> filter f l <> [].
Proof.
  intros (x & Hx & Hf)%Exists_exists E.
  assert (In x (filter f l)) as Hin by (apply filter_In; split; assumption).
  rewrite E in Hin. contradiction.
Qed.

Lemma Forall_eq_repeat_r {A} (a : A) l : Forall (fun x => x = a) l -> l = repeat a (List.length l).
Proof. induction 1 as [|x l Hx _ IH]; [reflexivity|]. simpl. rewrite Hx, <- IH. reflexivity. Qed.

Lemma qsum_app (l1 l2 : list Q) : (qsum (l1 ++ l2) == qsum l1 + qsum l2)%Q.
Proof. unfold qsum. induction l1 as [|x l1 IH]; cbn [app fold_right]; [ring|]. rewrite IH. ring. Qed.

Lemma qsum_perm (l1 l2 : list Q) : Permutation l1 l2 -> (qsum l1 == qsum l2)%Q.
Proof.
  induction 1 as [|x l1 l2 _ IH|x y l|l1 l2 l3 _ IH1 _ IH2]; unfold qsum in *; cbn [fold_right].
  - reflexivity.
  - rewrite IH. reflexivity.
  - ring.
  - rewrite IH1. exact IH2.
Qed.

Lemma qsum_concat (ls : list (list Q)) : (qsum (concat ls) == qsum (map qsum ls))%Q.
Proof.
  induction ls as [|l ls IH]; [reflexivity|]. cbn [concat map]. rewrite qsum_app, IH.
  unfold qsum at 3. cbn [fold_right]. reflexivity.
Qed.

Lemma qsum_div {A} (g : A -> Q) (c : Q) l : (qsum (map (fun x => g x / c) l) == qsum (map g l) / c)%Q.
Proof.
  induction l as [|x l IH]; unfold qsum in *; cbn [map fold_right]; [unfold Qdiv; ring|].
  rewrite IH. unfold Qdiv. ring.
Qed.

Lemma flat_map_app_perm {A B} (f g : A -> list B) l :
  Permutation (flat_map (fun x => f x ++ g x) l) (flat_map f l ++ flat_map g l).
Proof.
  induction l as [|x l IH]; [reflexivity|]. cbn [flat_map].
  rewrite IH, <- !app_assoc. apply Permutation_app_head.
  rewrite !app_assoc. apply Permutation_app_tail, Permutation_app_comm.
Qed.

Lemma map_nth_seq {A} (l : list A) d : map (fun r => nth r l d) (seq 0 (List.length l)) = l.
Proof.
  induction l as [|x l IH]; [reflexivity|]. cbn [List.length seq map nth].
  rewrite <- seq_shift, map_map. cbn [nth]. rewrite IH. reflexivity.
Qed.

Lemma qmean_eq (l : list Q) :
  l <> [] -> qmean l = Some (qsum l / inject_Z (Z.of_nat (List.length l)))%Q.
Proof. destruct l; [congruence|reflexivity]. Qed.

Lemma length_concat_uniform {A} (ls : list (list A)) n :
  Forall (fun l => List.length l = n) ls -> List.length (concat ls) = (List.length ls * n)%nat.
Proof. induction 1 as [|l ls Hl _ IH]; [reflexivity|]. cbn [concat List.length]. rewrite length_app, Hl, IH. lia. Qed.

Lemma qsum_zero (l : list Q) : Forall (fun q => q == 0)%Q l -> (qsum l == 0)%Q.
Proof. induction 1 as [|q l Hq _ IH]; [reflexivity|]. unfold qsum in *. simpl. rewrite Hq, IH. reflexivity. Qed.

Lemma qsum_const (l : list Q) c :
  Forall (fun q => q == c)%Q l -> (qsum l == c * inject_Z (Z.of_nat (List.length l)))%Q.
Proof.
  induction 1 as [|q l Hq _ IH]; [cbn; ring|]. unfold qsum in *. cbn [fold_right List.length].
  rewrite Hq, IH, Nat2Z.inj_succ, <- Z.add_1_r, inject_Z_plus. ring.
Qed.

(** The mean of a sample whose values all equal [c] is [c]. *)
Lemma qmean_const (l : list Q) c :
  l <> [] -> Forall (fun q => q == c)%Q l -> exists q, qmean l = Some q /\ (q == c)%Q.
Proof.
  intros Hne Hc. rewrite qmean_eq by exact Hne. eexists. split; [reflexivity|].
  rewrite (qsum_const l c Hc). field. destruct l as [|x l]; [congruence|].
  unfold Qeq. cbn. lia.
Qed.

Lemma qmean_zero (l : list Q) :
  l <> [] -> Forall (fun q => q == 0)%Q l -> exists q, qmean l = Some q /\ (q == 0)%Q.
Proof. apply qmean_const. Qed.

Lemma nth_error_combine {A B} (l : list A) (l' : list B) i :
  nth_error (combine l l') i =
    match nth_error l i, nth_error l' i with Some a, Some b => Some (a, b) | _, _ => None end.
Proof.
  revert l' i. induction l as [|a l IH]; intros [|b l'] [|i]; cbn; auto.
  - destruct (nth_error l i); reflexivity.
Qed.

Lemma map_fst_combine_firstn {A B} (l : list A) (l' : list B) :
  map fst (combine l l') = firstn (List.length l') l.
Proof. revert l'. induction l as [|a l IH]; intros [|b l']; cbn; rewrite ?IH; auto. Qed.

Lemma assoc_None {A} k (l : list (string * A)) : assoc k l = None <-> ~ In k (map fst l).
Proof.
  induction l as [|[k' v] l IH]; cbn; [tauto|].
  destruct (String.eqb_spec k k') as [->|Hne]; [split; [discriminate|tauto]|].
  rewrite IH. intuition congruence.
Qed.

Lemma assoc_In {A} k (l : list (string * A)) : In k (map fst l) -> exists v, assoc k l = Some v.
Proof. intros H. destruct (assoc k l) as [v|] eqn:E; [eauto|apply assoc_None in E; contradiction]. Qed.

Lemma assoc_Some_In {A} k (l : list (string * A)) v : assoc k l = Some v -> In (k, v) l.
Proof.
  induction l as [|[k' v'] l IH]; cbn; [discriminate|].
  destruct (String.eqb_spec k k') as [->|_]; [intros [= ->]; left; reflexivity|intros H; right; exact (IH H)].
Qed.

Lemma nth_error_rev_seq m j : (j < m)%nat -> nth_error (rev (seq 1 m)) j = Some (m - j)%nat.
Proof.
  intros H. rewrite nth_error_rev, length_seq. apply Nat.ltb_lt in H. rewrite H.
  apply Nat.ltb_lt in H. rewrite nth_error_seq. replace (Nat.ltb (m - S j) m) with true
    by (symmetry; apply Nat.ltb_lt; lia). f_equal. lia.
Qed.

(** The first element of a list that fails a test. *)
Lemma forallb_split {A} (f : A -> bool) l :
  forallb f l = false -> exists pre x post, l = (pre ++ x :: post)%list /\ forallb f pre = true /\ f x = false.
Proof.
  induction l as [|a l IH]; cbn; [discriminate|]. destruct (f a) eqn:Ea; cbn.
  - intros H. destruct (IH H) as (pre & x & post & -> & Hp & Hx).
    exists (a :: pre), x, post. cbn. rewrite Ea. auto.
  - intros _. exists [], a, l. auto.
Qed.

Lemma incl_filter_l {A} (f : A -> bool) (l m : list A) : incl l m -> incl (filter f l) m.
Proof. intros H. eapply incl_tran; [apply incl_filter|exact H]. Qed.

(** ** Automation

    [usat] collects the inclusion facts the success proofs of the
    aggregators chain: a group of [cat2dict] is a filter of the columns
    of the first dataset, which every dataset contains. *)

Create HintDb usat.
#[export] Hint Resolve incl_filter_l incl_refl incl_app : usat.
