(* ===== verification/Naming.v ===== *)
(** * Schema tables (the [naming] module imported by attrakdiff.py)

    [attrakdiff.py] imports [categories], [order_short], [order_long],
    [pairs] and the label tables ([i18n_dim], [titles], [QPQH], ...)
    from a module [naming] that is not part of the sources:
    it is static configuration.  It is modelled here from the spec as an
    interface: the class [Schema] holds the tables every operation
    reads, and the operations and theorems of the other files are stated
    for an arbitrary [Schema] (under the well-formedness hypotheses of
    LoadCSV.v where they need them).  [attrakdiff_schema] is one concrete
    instance, the standard 28-pair AttrakDiff vocabulary with its
    10-pair abridged variant, used by the witnesses.  Only the keys of
    the dictionary [pairs] (in insertion order) and the languages
    [locales] the label tables are indexed by are modelled: the labels
    themselves feed the renderer only, but looking one up with an
    unknown language raises a KeyError. *)

From S2P Require Import Prelude.
From Stdlib Require Import String List.
Import ListNotations.
Local Open Scope string_scope.

Class Schema : Type := {
  (** raw column names of the short (abridged) export, in file order;
      a reversed word pair carries a trailing "*" *)
  order_short : list string;
  (** raw column names of the long export, in file order *)
  order_long : list string;
  (** keys of the ordered dictionary [pairs]: the canonical order *)
  pairs : list string;
  (** the category names, in plotting order *)
  categories : list string;
  (** the languages of the label tables ([pairs[col]], [i18n_dim],
      [titles], [plt_mean], ...), by which they are indexed *)
  locales : list string
}.

(** The AttrakDiff vocabulary: pragmatic quality (QP), hedonic quality
    identity (QHI) and stimulation (QHS), attractiveness (ATT). *)
Definition attrakdiff_pairs : list string :=
  ["QP1"; "QP2"; "QP3"; "QP4"; "QP5"; "QP6"; "QP7";
   "QHI1"; "QHI2"; "QHI3"; "QHI4"; "QHI5"; "QHI6"; "QHI7";
   "QHS1"; "QHS2"; "QHS3"; "QHS4"; "QHS5"; "QHS6"; "QHS7";
   "ATT1"; "ATT2"; "ATT3"; "ATT4"; "ATT5"; "ATT6"; "ATT7"].

Definition attrakdiff_long : list string :=
  ["QP1*"; "QHI1"; "ATT1*"; "QHS1"; "QP2"; "QHI2*"; "ATT2"; "QP3*";
   "ATT3"; "QHS2*"; "QP4"; "QHI3*"; "QHS3"; "ATT4*"; "QP5*"; "QHI4";
   "QHS4*"; "ATT5"; "QP6"; "QHS5"; "QHI5*"; "QP7*"; "QHI6"; "ATT6*";
   "QHS6"; "QHI7*"; "ATT7"; "QHS7*"].

Definition attrakdiff_short : list string :=
  ["QP2"; "ATT2"; "QP3*"; "QHI3*"; "QP5*"; "QHI4"; "QHS2*"; "ATT5";
   "QP6"; "QHS5"].

#[export] Instance attrakdiff_schema : Schema := {|
  order_short := attrakdiff_short;
  order_long := attrakdiff_long;
  pairs := attrakdiff_pairs;
  categories := ["QP"; "QHI"; "QHS"; "ATT"];
  locales := ["en"; "fr"; "de"]
|}.
