(* ===== verification/Frame.v ===== *)
(** * The pandas DataFrame operations used by attrakdiff.py

    A DataFrame is modelled column-major: its number of rows (the length
    of its index; [read_csv(..., index_col=0)] turns the first CSV column
    into the index, whose labels are never read again) and its list of
    labelled columns, in order.  The operations are the ones the source
    calls: [columns.get_loc], [drop(columns=...)], assignment of
    [columns], [items()] with column assignment, [reindex(columns=...)],
    selection [dF[labels]], [mean()] and [stack()].  Cells of the raw
    table are [raw_cell]s; after normalisation a cell is an [option Z],
    [None] being [NaN] (an empty answer).

    The lemmas: each operation preserves [wf_frame] (every column has
    one cell per row) and the row count; [select] on present labels;
    [stack] is a permutation of the column-major list of the cells; on
    a table without empty cells [mean().mean()] is the mean of all the
    cells; on a table whose answers all equal [k] every mean is [k]. *)

From S2P Require Import Prelude.
From Stdlib Require Import String ZArith QArith List Lia Permutation.
Import ListNotations.

Record frame (A : Type) : Type := mkFrame {
  nrows : nat;
  cols : list (string * list A)
}.
Arguments mkFrame {A} nrows cols.
Arguments nrows {A} f.
Arguments cols {A} f.

(** A cell as [read_csv] yields it: an integer rating, an empty field
    ([NaN]) or a non-numeric text. *)
Inductive raw_cell : Type :=
| RNum (z : Z)
| RNaN
| RText (s : string).

(** A cell of a numeric (float) column: [None] is [NaN]. *)
Definition cell : Type := option Z.

Section Ops.
Context {A : Type}.

(** [df.columns] *)
Definition columns (f : frame A) : list string := map fst (cols f).

(** Well-formedness: every column has one cell per row. *)
Definition wf_frame (f : frame A) : Prop :=
  Forall (fun c => List.length (snd c) = nrows f) (cols f).

(** [df.columns.get_loc(x)] (labels are unique in a [read_csv] table). *)
Definition get_loc (x : string) (f : frame A) : option nat :=
  index_of x (columns f).

(** [df.drop(columns=labels)]: every column whose label is listed goes. *)
Definition drop_labels (labels : list string) (f : frame A) : frame A :=
  mkFrame (nrows f)
    (filter (fun c => negb (existsb (String.eqb (fst c)) labels)) (cols f)).

(** [df.columns[i:]] *)
Definition columns_from (i : nat) (f : frame A) : list string :=
  skipn i (columns f).

(** [df.columns = names]: a positional renaming; pandas raises when the
    lengths differ. *)
Definition set_columns (names : list string) (f : frame A) : result (frame A) :=
  if Nat.eqb (List.length names) (List.length (cols f))
  then Ok (mkFrame (nrows f) (combine names (map snd (cols f))))
  else raise (ValueError_Length (List.length (cols f)) (List.length names)).

(** [for col, serie in df.items(): df[col] = g(col, serie)]: each column
    replaced in place, the first failure aborting the loop. *)
Fixpoint map_columns_res {B} (g : string -> list A -> result (list B))
    (cs : list (string * list A)) : result (list (string * list B)) :=
  match cs with
  | [] => Ok []
  | (k, s) :: cs' =>
      s' <- g k s ;;
      rest <- map_columns_res g cs' ;;
      Ok ((k, s') :: rest)
  end.

Definition items_update {B} (g : string -> list A -> result (list B))
    (f : frame A) : result (frame B) :=
  cs <- map_columns_res g (cols f) ;; Ok (mkFrame (nrows f) cs).

(** [df[labels]]: the columns carrying each label, in the order of
    [labels]; a [KeyError] lists the labels that are absent. *)
Definition select (labels : list string) (f : frame A) : result (frame A) :=
  match filter (fun k => negb (existsb (String.eqb k) (columns f))) labels with
  | [] => Ok (mkFrame (nrows f)
                (flat_map (fun k => filter (fun c => String.eqb (fst c) k) (cols f)) labels))
  | missing => raise (KeyError_Columns missing)
  end.

(** [df[label]] for a present, unique label. *)
Fixpoint lookup_col (k : string) (cs : list (string * list A)) : option (list A) :=
  match cs with
  | [] => None
  | (k', s) :: cs' => if String.eqb k k' then Some s else lookup_col k cs'
  end.

End Ops.

(** [df.reindex(columns=labels)] on a numeric frame: the columns in the
    order of [labels], a label that is absent giving an all-[NaN] column;
    pandas refuses to reindex an axis with duplicate labels. *)
Definition reindex (labels : list string) (f : frame cell) : result (frame cell) :=
  if dup_free_b (columns f)
  then Ok (mkFrame (nrows f)
             (map (fun k => (k, match lookup_col k (cols f) with
                                | Some s => s
                                | None => repeat None (nrows f)
                                end)) labels))
  else raise ValueError_DuplicateAxis.

(** Every cell of the frame satisfies [P]. *)
Definition all_cells {A} (P : A -> Prop) (f : frame A) : Prop :=
  Forall (fun c => Forall P (snd c)) (cols f).

(** A neutral answer: raw 4, normalised 0. *)
Definition neutral_cell (c : cell) : Prop := c = Some 0%Z.

(** ** Statistics *)

(** The non-[NaN] values of a column ([Series.dropna()]). *)
Definition dropna (s : list cell) : list Z :=
  flat_map (fun c => match c with Some z => [z] | None => [] end) s.

(** [Series.mean()]: pandas skips [NaN]; the mean of nothing is [NaN]. *)
Definition series_mean (s : list cell) : option Q := zmean (dropna s).

(** [DataFrame.mean()]: one mean per column, indexed by label. *)
Definition frame_mean (f : frame cell) : list (string * option Q) :=
  map (fun c => (fst c, series_mean (snd c))) (cols f).

(** [DataFrame.mean().mean()]: the mean of the column means, skipping
    the columns whose mean is [NaN]. *)
Definition mean_of_means (f : frame cell) : option Q :=
  qmean (flat_map (fun m => match snd m with Some q => [q] | None => [] end)
                  (frame_mean f)).

(** [DataFrame.stack()]: the cells row by row, each row left to right,
    [NaN] cells dropped. *)
Definition stack (f : frame cell) : list Z :=
  flat_map (fun r => dropna (map (fun c => nth r (snd c) None) (cols f)))
           (seq 0 (nrows f)).

(** ** Lemmas *)

Section Facts.
Context {A : Type}.
Implicit Types (f : frame A) (cs : list (string * list A)).

(** Dropping the labels from position [i] on keeps the first [i]
    columns, when labels are unique. *)
Lemma drop_labels_columns_from f i :
  NoDup (columns f) ->
  drop_labels (columns_from i f) f = mkFrame (nrows f) (firstn i (cols f)).
Proof.
  unfold drop_labels, columns_from, columns. intros Hnd. f_equal.
  rewrite skipn_map.
  rewrite <- (firstn_skipn i (cols f)) in Hnd |- * at 1.
  rewrite map_app in Hnd. rewrite filter_app.
  rewrite (filter_all_false _ (skipn i (cols f))), app_nil_r.
  - apply forallb_filter_id, forallb_forall. intros c Hc.
    apply negb_true_iff, existsb_eqb_notIn.
    apply (NoDup_app_disjoint _ _ _ Hnd), in_map, Hc.
  - intros c Hc. apply negb_false_iff, existsb_eqb_In, in_map, Hc.
Qed.

Lemma set_columns_ok (names : list string) f :
  List.length names = List.length (cols f) ->
  set_columns names f = Ok (mkFrame (nrows f) (combine names (map snd (cols f)))).
Proof. intros H. unfold set_columns. rewrite H, Nat.eqb_refl. reflexivity. Qed.

Lemma map_columns_res_ok {B} (g : string -> list A -> result (list B)) h cs :
  (forall k s, In (k, s) cs -> g k s = Ok (h k s)) ->
  map_columns_res g cs = Ok (map (fun c => (fst c, h (fst c) (snd c))) cs).
Proof.
  induction cs as [|[k s] cs IH]; intros H; simpl; [reflexivity|].
  rewrite (H k s (or_introl eq_refl)). simpl.
  rewrite IH; [reflexivity|]. intros k' s' Hin. apply H. right. exact Hin.
Qed.

Lemma map_columns_res_err {B} (g : string -> list A -> result (list B)) pre k s post e :
  (forall k' s', In (k', s') pre -> exists r, g k' s' = Ok r) -> g k s = Err e ->
  map_columns_res g (pre ++ (k, s) :: post) = Err e.
Proof.
  induction pre as [|[k' s'] pre IH]; intros Hpre Hg; simpl.
  - rewrite Hg. reflexivity.
  - destruct (Hpre k' s' (or_introl eq_refl)) as [r ->]. cbn [bind].
    rewrite IH; [reflexivity| |exact Hg]. intros k'' s'' Hin. apply Hpre. right. exact Hin.
Qed.

Lemma lookup_col_In k cs s : lookup_col k cs = Some s -> In (k, s) cs.
Proof.
  induction cs as [|[k' s'] cs IH]; simpl; [discriminate|].
  destruct (String.eqb_spec k k') as [->|_]; [intros [= ->]; left; reflexivity|].
  intros H. right. exact (IH H).
Qed.

Lemma lookup_col_None k cs : lookup_col k cs = None <-> ~ In k (map fst cs).
Proof.
  induction cs as [|[k' s'] cs IH]; simpl; [tauto|].
  destruct (String.eqb_spec k k') as [->|Hne]; [split; [discriminate|tauto]|].
  rewrite IH. intuition congruence.
Qed.

End Facts.

(** ** The frame invariant: every operation keeps one cell per row. *)

Section Invariant.
Context {A : Type}.

Lemma drop_labels_wf (labels : list string) (f : frame A) :
  wf_frame f -> wf_frame (drop_labels labels f).
Proof.
  unfold wf_frame, drop_labels. cbn. rewrite !Forall_forall. intros H c Hc.
  apply filter_In in Hc. apply H, Hc.
Qed.

Lemma set_columns_wf names (f g : frame A) :
  wf_frame f -> set_columns names f = Ok g -> wf_frame g /\ nrows g = nrows f.
Proof.
  unfold set_columns, wf_frame. destruct (Nat.eqb _ _); [|discriminate].
  intros Hf [= <-]. cbn. split; [|reflexivity]. apply Forall_forall. intros [k s] Hin.
  apply in_combine_r, in_map_iff in Hin as (c & <- & Hc).
  rewrite Forall_forall in Hf. exact (Hf c Hc).
Qed.

Lemma items_update_wf {B} (g : string -> list A -> result (list B)) (f : frame A) (f' : frame B) :
  (forall k s s', g k s = Ok s' -> List.length s' = List.length s) ->
  wf_frame f -> items_update g f = Ok f' -> wf_frame f' /\ nrows f' = nrows f.
Proof.
  unfold items_update, wf_frame. intros Hg Hf H.
  destruct (map_columns_res g (cols f)) as [cs|] eqn:E; [|discriminate].
  injection H as <-. cbn. split; [|reflexivity]. revert cs E. induction (cols f) as [|[k s] rest IH]; intros cs E.
  - injection E as <-. constructor.
  - inversion Hf as [|? ? Hks Hrest]; subst. cbn in E.
    destruct (g k s) as [s'|] eqn:Eg; [|discriminate]. cbn in E.
    destruct (map_columns_res g rest) as [cs'|]; [|discriminate].
    injection E as <-. cbn in Hks. constructor; [cbn; rewrite (Hg _ _ _ Eg); exact Hks|exact (IH Hrest cs' eq_refl)].
Qed.

End Invariant.

Lemma reindex_wf labels (f g : frame cell) :
  wf_frame f -> reindex labels f = Ok g -> wf_frame g /\ nrows g = nrows f.
Proof.
  unfold reindex, wf_frame. destruct (dup_free_b _); [|discriminate].
  intros Hf [= <-]. cbn. split; [|reflexivity]. apply Forall_forall. intros c Hc.
  apply in_map_iff in Hc as (k & <- & _). cbn.
  destruct (lookup_col k (cols f)) as [s|] eqn:E.
  - apply lookup_col_In in E. rewrite Forall_forall in Hf. exact (Hf _ E).
  - apply repeat_length.
Qed.

(** ** A cell-wise invariant is kept by every operation. *)

Section Cells.
Context {A : Type} (P : A -> Prop).

Lemma drop_labels_cells labels (f : frame A) :
  all_cells P f -> all_cells P (drop_labels labels f).
Proof.
  unfold all_cells, drop_labels. cbn. rewrite !Forall_forall. intros H c Hc.
  apply filter_In in Hc. apply H, Hc.
Qed.

Lemma set_columns_cells names (f g : frame A) :
  all_cells P f -> set_columns names f = Ok g -> all_cells P g.
Proof.
  unfold set_columns, all_cells. destruct (Nat.eqb _ _); [|discriminate].
  intros Hf [= <-]. cbn. apply Forall_forall. intros [k s] Hin.
  apply in_combine_r, in_map_iff in Hin as (c & <- & Hc).
  rewrite Forall_forall in Hf. exact (Hf c Hc).
Qed.

Lemma items_update_cells {B} (Q : B -> Prop) (g : string -> list A -> result (list B))
    (f : frame A) (f' : frame B) :
  (forall k s s', g k s = Ok s' -> Forall P s -> Forall Q s') ->
  all_cells P f -> items_update g f = Ok f' -> all_cells Q f'.
Proof.
  unfold items_update, all_cells. intros Hg Hf H.
  destruct (map_columns_res g (cols f)) as [cs|] eqn:E; [|discriminate].
  injection H as <-. cbn. revert cs E. induction (cols f) as [|[k s] rest IH]; intros cs E.
  - injection E as <-. constructor.
  - inversion Hf as [|? ? Hks Hrest]; subst. cbn in E, Hks.
    destruct (g k s) as [s'|] eqn:Eg; [|discriminate]. cbn in E.
    destruct (map_columns_res g rest) as [cs'|]; [|discriminate].
    injection E as <-. constructor; [exact (Hg _ _ _ Eg Hks)|exact (IH Hrest cs' eq_refl)].
Qed.

End Cells.

Lemma reindex_cells (P : cell -> Prop) labels (f g : frame cell) :
  P None -> all_cells P f -> reindex labels f = Ok g -> all_cells P g.
Proof.
  unfold reindex, all_cells. destruct (dup_free_b _); [|discriminate].
  intros HN Hf [= <-]. cbn. apply Forall_forall. intros c Hc.
  apply in_map_iff in Hc as (k & <- & _). cbn.
  destruct (lookup_col k (cols f)) as [s|] eqn:E.
  - apply lookup_col_In in E. rewrite Forall_forall in Hf. exact (Hf _ E).
  - apply Forall_forall. intros x Hx. apply repeat_spec in Hx. subst. exact HN.
Qed.

(** Reindexing by labels that are all present only reorders. *)
Lemma reindex_present (labels : list string) (f : frame cell) :
  NoDup (columns f) ->
  reindex labels f =
    Ok (mkFrame (nrows f)
          (map (fun k => (k, match lookup_col k (cols f) with
                             | Some s => s
                             | None => repeat None (nrows f)
                             end)) labels)).
Proof.
  intros Hnd. unfold reindex. apply dup_free_b_spec in Hnd. rewrite Hnd. reflexivity.
Qed.

(** ** Selection and statistics of an all-neutral table *)

Section Select.
Context {A : Type}.

Lemma select_present (labels : list string) (f : frame A) :
  incl labels (columns f) ->
  select labels f =
    Ok (mkFrame (nrows f) (flat_map (fun k => filter (fun c => String.eqb (fst c) k) (cols f)) labels)).
Proof.
  intros H. unfold select.
  rewrite (filter_all_false _ labels); [reflexivity|].
  intros k Hk. apply negb_false_iff, existsb_eqb_In, H, Hk.
Qed.

Lemma select_sub (labels : list string) (f g : frame A) c :
  select labels f = Ok g -> In c (cols g) -> In c (cols f).
Proof.
  unfold select. destruct (filter _ _); [|discriminate]. intros [= <-]. cbn.
  intros Hc. apply in_flat_map in Hc as (k & _ & Hc). apply filter_In in Hc. apply Hc.
Qed.

Lemma select_nrows (labels : list string) (f g : frame A) :
  select labels f = Ok g -> nrows g = nrows f.
Proof. unfold select. destruct (filter _ _); [|discriminate]. intros [= <-]. reflexivity. Qed.

Lemma select_nonempty (labels : list string) (f g : frame A) :
  labels <> [] -> incl labels (columns f) -> select labels f = Ok g -> cols g <> [].
Proof.
  intros Hne Hincl. rewrite select_present by exact Hincl. intros [= <-]. cbn.
  destruct labels as [|k ks]; [congruence|]. cbn.
  assert (Hk : In k (columns f)) by (apply Hincl; left; reflexivity).
  unfold columns in Hk. apply in_map_iff in Hk as (c & Ek & Hc).
  intros E. apply app_eq_nil in E as [E _].
  assert (In c (filter (fun c0 => String.eqb (fst c0) k) (cols f))) as Hin
    by (apply filter_In; split; [exact Hc|apply String.eqb_eq, Ek]).
  rewrite E in Hin. contradiction.
Qed.

Lemma select_missing (labels : list string) (f : frame A) m ms :
  filter (fun k => negb (existsb (String.eqb k) (columns f))) labels = m :: ms ->
  select labels f = Err (KeyError_Columns (m :: ms)).
Proof. intros H. unfold select. rewrite H. reflexivity. Qed.

Lemma select_wf (labels : list string) (f g : frame A) :
  wf_frame f -> select labels f = Ok g -> wf_frame g.
Proof.
  intros Hwf Hs. unfold wf_frame in *. rewrite (select_nrows _ _ _ Hs), Forall_forall.
  intros c Hc. rewrite Forall_forall in Hwf. exact (Hwf c (select_sub _ _ _ _ Hs Hc)).
Qed.

Lemma select_cells (P : A -> Prop) (labels : list string) (f g : frame A) :
  all_cells P f -> select labels f = Ok g -> all_cells P g.
Proof.
  intros Hz Hs. unfold all_cells in *. rewrite Forall_forall in Hz |- *.
  intros c Hc. exact (Hz c (select_sub _ _ _ _ Hs Hc)).
Qed.

End Select.

Lemma dropna_const s k : Forall (fun c => c = Some k) s -> dropna s = repeat k (List.length s).
Proof. induction 1 as [|c s Hc _ IH]; [reflexivity|]. rewrite Hc. simpl. rewrite IH. reflexivity. Qed.

Lemma dropna_neutral s : Forall neutral_cell s -> dropna s = repeat 0%Z (List.length s).
Proof. apply dropna_const. Qed.

Lemma zmean_const (l : list Z) k :
  l <> [] -> Forall (fun z => z = k) l -> exists q, zmean l = Some q /\ (q == inject_Z k)%Q.
Proof.
  intros Hne Hz. apply qmean_const.
  - destruct l; [congruence|discriminate].
  - apply Forall_map. eapply Forall_impl; [|exact Hz]. intros z ->. reflexivity.
Qed.

(** The mean of a column whose answers are all [k]. *)
Lemma series_mean_const s k :
  s <> [] -> Forall (fun c => c = Some k) s -> exists q, series_mean s = Some q /\ (q == inject_Z k)%Q.
Proof.
  intros Hne Hz. unfold series_mean. rewrite (dropna_const s k Hz).
  apply zmean_const.
  - destruct s; [congruence|discriminate].
  - apply Forall_forall. intros z Hin. apply repeat_spec in Hin. exact Hin.
Qed.

Lemma series_mean_neutral s :
  s <> [] -> Forall neutral_cell s -> exists q, series_mean s = Some q /\ (q == 0)%Q.
Proof. exact (fun Hne Hz => series_mean_const s 0 Hne Hz). Qed.

(** [mean().mean()] of a table whose answers are all [k]. *)
Lemma mean_of_means_const (f : frame cell) k :
  wf_frame f -> (0 < nrows f)%nat -> all_cells (fun c : cell => c = Some k) f -> cols f <> [] ->
  exists q, mean_of_means f = Some q /\ (q == inject_Z k)%Q.
Proof.
  unfold wf_frame, all_cells, mean_of_means, frame_mean. intros Hwf Hn Hz Hne.
  apply qmean_const.
  - destruct (cols f) as [|[c s] cs] eqn:E; [congruence|]. cbn.
    inversion Hwf as [|? ? Hl _]; subst. inversion Hz as [|? ? Hs _]; subst. cbn in Hl, Hs.
    destruct (series_mean_const s k) as (q & -> & _); [intros ->; cbn in Hl; lia|exact Hs|].
    discriminate.
  - clear Hne. induction (cols f) as [|[c s] cs IH]; cbn; [constructor|].
    inversion Hwf as [|? ? Hl Hwf']; subst. inversion Hz as [|? ? Hs Hz']; subst. cbn in Hl, Hs.
    destruct (series_mean_const s k) as (q & -> & Hq); [intros ->; cbn in Hl; lia|exact Hs|].
    constructor; [exact Hq|exact (IH Hwf' Hz')].
Qed.

Lemma stack_neutral (f : frame cell) :
  wf_frame f -> all_cells neutral_cell f ->
  stack f = repeat 0%Z (nrows f * List.length (cols f)).
Proof.
  unfold wf_frame, all_cells, stack. intros Hwf Hz.
  assert (Hrow : forall r, In r (seq 0 (nrows f)) ->
            dropna (map (fun c => nth r (snd c) None) (cols f)) = repeat 0%Z (List.length (cols f))).
  { intros r Hr. apply in_seq in Hr. rewrite dropna_neutral, length_map; [reflexivity|].
    apply Forall_map. rewrite Forall_forall in Hwf, Hz |- *. intros c Hc.
    specialize (Hwf c Hc). specialize (Hz c Hc). cbv beta in Hwf, Hz |- *. unfold neutral_cell in Hz |- *.
    rewrite Forall_forall in Hz. apply Hz, nth_In. unfold cell in *. lia. }
  replace (nrows f) with (List.length (seq 0 (nrows f))) at 2 by apply length_seq.
  revert Hrow. generalize (seq 0 (nrows f)) as rs. intros rs Hrow.
  induction rs as [|r rs IH]; [reflexivity|].
  cbn [flat_map List.length]. rewrite (Hrow r (or_introl eq_refl)).
  rewrite IH by (intros; apply Hrow; right; assumption).
  cbn [Nat.mul]. rewrite repeat_app. reflexivity.
Qed.

(** Selecting present labels from a well-formed table whose cells all
    satisfy [P] gives such a table with the same rows and at least one
    column. *)
Lemma select_group {P : cell -> Prop} (labels : list string) (d : frame cell) :
  wf_frame d -> all_cells P d -> labels <> [] -> incl labels (columns d) ->
  exists g, select labels d = Ok g /\ wf_frame g /\ all_cells P g /\
            nrows g = nrows d /\ cols g <> [].
Proof.
  intros Hwf Hz Hne Hincl. pose proof (select_present labels d Hincl) as E.
  eexists. split; [exact E|]. split; [exact (select_wf _ _ _ Hwf E)|].
  split; [exact (select_cells _ _ _ _ Hz E)|]. split; [reflexivity|].
  exact (select_nonempty _ _ _ Hne Hincl E).
Qed.

(** ** [stack] and [mean().mean()] on complete tables *)

Lemma dropna_cons x s : dropna (x :: s) = dropna [x] ++ dropna s.
Proof. unfold dropna. cbn [flat_map]. rewrite app_nil_r. reflexivity. Qed.

Lemma dropna_map_rows {B} (g : B -> cell) rs : flat_map (fun r => dropna [g r]) rs = dropna (map g rs).
Proof. induction rs as [|r rs IH]; [reflexivity|]. cbn [flat_map map]. rewrite IH, <- dropna_cons. reflexivity. Qed.

(** Reading the cells row by row or column by column gives the same
    multiset. *)
Lemma stack_cols_perm (rs : list nat) (cs : list (string * list cell)) :
  Permutation (flat_map (fun r => dropna (map (fun c => nth r (snd c) None) cs)) rs)
              (concat (map (fun c => dropna (map (fun r => nth r (snd c) None) rs)) cs)).
Proof.
  induction cs as [|c cs IH]; cbn [map concat].
  - induction rs as [|r rs IH]; [reflexivity|]. exact IH.
  - rewrite (flat_map_ext _ _ (fun r => dropna_cons _ _)), flat_map_app_perm, dropna_map_rows.
    apply Permutation_app_head, IH.
Qed.

Lemma stack_perm (f : frame cell) :
  wf_frame f -> Permutation (stack f) (concat (map (fun c => dropna (snd c)) (cols f))).
Proof.
  intros Hwf. unfold stack. rewrite stack_cols_perm. apply Permutation_refl'. f_equal.
  apply map_ext_in. intros c Hc. unfold wf_frame in Hwf. rewrite Forall_forall in Hwf.
  rewrite <- (Hwf c Hc), map_nth_seq. reflexivity.
Qed.

Lemma dropna_complete s : Forall (fun x => x <> None) s -> List.length (dropna s) = List.length s.
Proof. induction 1 as [|[z|] s Hx _ IH]; [reflexivity| |congruence]. cbn. rewrite <- IH. reflexivity. Qed.

Lemma series_mean_complete s n :
  List.length s = n -> (0 < n)%nat -> Forall (fun x => x <> None) s ->
  series_mean s = Some (qsum (map inject_Z (dropna s)) / inject_Z (Z.of_nat n))%Q.
Proof.
  intros Hl Hn Hc. unfold series_mean.
  rewrite zmean_eq, (dropna_complete _ Hc), Hl; [reflexivity|].
  intros E. apply (f_equal (@List.length Z)) in E. rewrite dropna_complete in E by exact Hc. cbn in E. lia.
Qed.

Lemma frame_mean_complete (f : frame cell) :
  wf_frame f -> (0 < nrows f)%nat -> all_cells (fun x : cell => x <> None) f ->
  flat_map (fun m => match snd m with Some q => [q] | None => [] end) (frame_mean f)
  = map (fun c => qsum (map inject_Z (dropna (snd c))) / inject_Z (Z.of_nat (nrows f)))%Q (cols f).
Proof.
  unfold frame_mean, wf_frame, all_cells. intros Hwf Hn Hc. revert Hwf Hc.
  induction (cols f) as [|c cs IH]; intros Hwf Hc; [reflexivity|].
  apply Forall_cons_iff in Hwf as [Hl Hwf']. apply Forall_cons_iff in Hc as [Hs Hc'].
  cbn [map flat_map snd]. rewrite (series_mean_complete (snd c) (nrows f) Hl Hn Hs).
  cbn [app]. f_equal. exact (IH Hwf' Hc').
Qed.

(** C19: On a well-formed table with rows and columns and no empty
    cell, [dF.mean().mean()] (the mean of the column means, line 102)
    equals the mean of all the cells ([stack], as the portfolio
    flattens a group, line 172). *)
Theorem mean_of_means_flat (f : frame cell) :
  wf_frame f -> (0 < nrows f)%nat -> cols f <> [] -> all_cells (fun x : cell => x <> None) f ->
  exists q q', mean_of_means f = Some q /\ zmean (stack f) = Some q' /\ (q == q')%Q.
Proof.
  intros Hwf Hn Hne Hc.
  set (colsum := fun c : string * list cell => qsum (map inject_Z (dropna (snd c)))).
  assert (Hk : (0 < List.length (cols f))%nat) by (destruct (cols f); [congruence|cbn; lia]).
  assert (Hlen : List.length (stack f) = (List.length (cols f) * nrows f)%nat).
  { rewrite (Permutation_length (stack_perm f Hwf)), length_concat_uniform with (n := nrows f);
      [rewrite length_map; reflexivity|].
    apply Forall_map. unfold wf_frame, all_cells in *. rewrite Forall_forall in Hwf, Hc |- *.
    intros c Hin. rewrite dropna_complete by exact (Hc c Hin). exact (Hwf c Hin). }
  assert (Hsum : (qsum (map inject_Z (stack f)) == qsum (map colsum (cols f)))%Q).
  { rewrite (qsum_perm _ _ (Permutation_map inject_Z (stack_perm f Hwf))), concat_map, qsum_concat, !map_map.
    reflexivity. }
  unfold mean_of_means. rewrite frame_mean_complete by assumption. unfold zmean.
  rewrite !qmean_eq, !length_map.
  - eexists. eexists. split; [reflexivity|]. split; [reflexivity|].
    pose proof (qsum_div colsum (inject_Z (Z.of_nat (nrows f))) (cols f)) as Hd.
    unfold colsum in Hd, Hsum. cbv beta in Hd. rewrite Hd, Hsum, Hlen, Nat2Z.inj_mul, inject_Z_mult.
    field. split; intros E; unfold Qeq in E; cbn in E; lia.
  - intros E. apply (f_equal (@List.length Q)) in E. rewrite length_map, Hlen in E. cbn in E. nia.
  - intros E. apply map_eq_nil in E. contradiction.
Qed.

Lemma mean_of_means_flat_witness :
  exists q q', mean_of_means (mkFrame 2 [("A"%string, [Some 0; Some 6]); ("B"%string, [Some 2; Some 4])]%Z) = Some q /\
    zmean (stack (mkFrame 2 [("A"%string, [Some 0; Some 6]); ("B"%string, [Some 2; Some 4])]%Z)) = Some q' /\
    (q == q')%Q.
Proof.
  apply mean_of_means_flat; [repeat constructor|cbn; lia|discriminate|repeat constructor; discriminate].
Defined.
