(* ===== verification/LoadCSV.v ===== *)
(** * Ingestion and normalisation: [loadCSV] (attrakdiff.py, lines 62-88)

    [loadCSV] takes the table [read_csv] produced, keeps the columns
    before the "URL" column, checks that their number is one of the two
    schema sizes, renames them positionally after [order_short] or
    [order_long], maps every rating to [-3, 3] (reversed pairs, marked by
    a "*" in their name, by [x -> 4 - x], the others by [x -> x - 4]),
    strips the marker and reorders the columns after the canonical order
    of [pairs].  The CSV decoding itself (UTF-16, tab separator) is
    pandas' and is not modelled: the input is the decoded table.

    The theorems: the error cases (no "URL" column, wrong size, a text
    cell), the refinement of [loadCSV] by the abstract [load_spec]
    (each canonical key, in canonical order, holding its normalised raw
    column), the equivalence of the key sort with a filter of [pairs],
    the bounds of the normalised values, the shape of the result for
    the two schemas, the round trip (the raw answers are recovered from
    the result by [decode_cell]), safety (no other exception than the
    three). *)

From S2P Require Import Prelude Naming Frame.
From Stdlib Require Import String ZArith List Lia Bool Sorted Permutation.
Import ListNotations.
Local Open Scope string_scope.

Section Load.
Context {S : Schema}.

(** [if '*' in col] *)
Definition is_reversed (col : string) : bool := str_contains "*" col.

(** Lines 80-83: [4 - x] for a reversed pair, [x - 4] otherwise. *)
Definition normalize_value (col : string) (x : Z) : Z :=
  if is_reversed col then (4 - x)%Z else (x - 4)%Z.

Definition is_text (c : raw_cell) : bool :=
  match c with RText _ => true | _ => false end.

(** One cell of column [col] after the subtraction ([NaN] stays [NaN]). *)
Definition normalize_cell (col : string) (c : raw_cell) : cell :=
  match c with
  | RNum z => Some (normalize_value col z)
  | _ => None
  end.

(** [Tab[col] = 4 - Tab[col]] (or [Tab[col] - 4]) on one column: a text
    cell makes the column non-numeric and the subtraction raises. *)
Definition normalize_column (col : string) (s : list raw_cell) : result (list cell) :=
  if existsb is_text s then raise (TypeError_Operand col)
  else Ok (map (normalize_cell col) s).

(** Line 85: [st[:-1] if '*' in st else st]. *)
Definition strip_marker (st : string) : string :=
  if is_reversed st then drop_last st else st.

(** Line 86: [d = {k: v for v, k in enumerate(pairs)}], read by [d.get]. *)
Definition pair_rank (k : string) : option nat := index_of k pairs.

(** The sort key [d.get(k)], with [None] read as 0 (it is only used
    when every key is present, see [sort_columns]). *)
Definition sort_key (k : string) : nat :=
  match pair_rank k with Some i => i | None => 0 end.

(** A stable insertion sort on a nat key (Python's [sorted] is stable). *)
Fixpoint insert_by_key (x : string * nat) (l : list (string * nat)) : list (string * nat) :=
  match l with
  | [] => [x]
  | y :: l' => if Nat.leb (snd x) (snd y) then x :: l else y :: insert_by_key x l'
  end.

Fixpoint sort_by_key (l : list (string * nat)) : list (string * nat) :=
  match l with
  | [] => []
  | x :: l' => insert_by_key x (sort_by_key l')
  end.

(** Line 87: [sorted(Tab.columns, key=d.get)].  A label missing from
    [pairs] has key [None], and comparing [None] with anything raises a
    [TypeError]; with two labels or more every key is compared. *)
Definition sort_columns (cs : list string) : result (list string) :=
  if Nat.leb 2 (List.length cs) && negb (forallb (fun k => match pair_rank k with Some _ => true | None => false end) cs)
  then raise TypeError_SortKey
  else Ok (map fst (sort_by_key (map (fun k => (k, sort_key k)) cs))).

(** Lines 67-73: locate "URL" and drop it and every column after it. *)
Definition drop_after_url (Tab : frame raw_cell) : result (frame raw_cell) :=
  url_index <- of_option (get_loc "URL" Tab) ValueError_NoURL ;;
  Ok (drop_labels (columns_from url_index Tab) Tab).

(** Lines 75-77: check the number of useful columns and rename them
    after the matching schema. *)
Definition check_and_rename (Tab : frame raw_cell) : result (frame raw_cell) :=
  let n := List.length (cols Tab) in
  if negb (existsb (Nat.eqb n) [List.length order_short; List.length order_long])
  then raise (ValueError_Size (List.length order_short) (List.length order_long))
  else set_columns (if Nat.eqb n (List.length order_short)
                    then order_short else order_long) Tab.

(** Lines 79-83: the rescaling loop. *)
Definition normalize (Tab : frame raw_cell) : result (frame cell) :=
  items_update normalize_column Tab.

(** Lines 85-87: strip the markers and sort the columns. *)
Definition reorder_columns (Tab : frame cell) : result (frame cell) :=
  Tab <- set_columns (map strip_marker (columns Tab)) Tab ;;
  keys <- sort_columns (columns Tab) ;;
  reindex keys Tab.

(** Lines 62-88. *)
Definition loadCSV (Tab : frame raw_cell) : result (frame cell) :=
  Tab <- drop_after_url Tab ;;
  Tab <- check_and_rename Tab ;;
  Tab <- normalize Tab ;;
  reorder_columns Tab.

End Load.

(** ** The abstract specification

    What [loadCSV] promises on a valid table: one column per canonical
    key the schema provides, in the order of [pairs]; the column of key
    [k] is the useful raw column whose schema name is [k] (or [k] with
    its marker), each rating normalised with that name's polarity.
    [order] is the schema matched, [useful] the raw columns before "URL". *)
Definition load_spec {S : Schema} (order : list string) (useful : list (list raw_cell))
    : list (string * list cell) :=
  flat_map (fun k =>
              match find (fun p => String.eqb (strip_marker (fst p)) k) (combine order useful) with
              | Some p => [(k, map (normalize_cell (fst p)) (snd p))]
              | None => []
              end) pairs.

(** ** Well-formed schemas

    What [loadCSV] relies on from [naming]: the keys of [pairs] are
    distinct (they are the keys of a dictionary), and each of the two
    column orders, once the markers are stripped, names distinct keys of
    [pairs]. *)
Definition valid_order {S : Schema} (order : list string) : Prop :=
  NoDup (map strip_marker order) /\ incl (map strip_marker order) pairs.

Class SchemaWF (S : Schema) : Prop := {
  pairs_nodup : NoDup pairs;
  short_valid : valid_order order_short;
  long_valid : valid_order order_long
}.

(** ** Auxiliary definitions of the statements *)

(** The schema that [loadCSV] picks for [u] useful columns. *)
Definition chosen_order {S : Schema} (u : nat) : list string :=
  if Nat.eqb u (List.length order_short) then order_short else order_long.

(** A raw rating on the 1..7 scale (empty and text cells are not ratings). *)
Definition raw_in_scale (c : raw_cell) : Prop :=
  match c with RNum z => (1 <= z <= 7)%Z | _ => True end.

Definition normalized_in_bounds (c : cell) : Prop :=
  match c with Some z => (-3 <= z <= 3)%Z | None => True end.

(** The canonical keys a schema order provides, in the order of [pairs]. *)
Definition canonical_keys {S : Schema} (order : list string) : list string :=
  filter (fun k => existsb (String.eqb k) (map strip_marker order)) pairs.

(** A test table: the columns of [order], then "URL" and a trailing
    column, [n] respondents all answering [v]. *)
Definition uniform_table (order : list string) (n : nat) (v : raw_cell) : frame raw_cell :=
  mkFrame n (map (fun k => (k, repeat v n)) (order ++ ["URL"; "Date"])).

(** A table [loadCSV] accepts: unique labels, "URL" after [u] useful
    columns, no text among the useful cells. *)
Definition valid_table (Tab : frame raw_cell) (u : nat) : Prop :=
  NoDup (columns Tab) /\ get_loc "URL" Tab = Some u /\
  forallb (fun c => negb (existsb is_text (snd c))) (firstn u (cols Tab)) = true.

(** A test table whose third useful column holds a text answer. *)
Definition text_table : frame raw_cell :=
  mkFrame 1 (map (fun k => (k, [RNum 4%Z])) ["a"; "b"] ++ [("c", [RText "n/a"])] ++
             map (fun k => (k, [RNum 4%Z])) ["d"; "e"; "f"; "g"; "h"; "i"; "j"; "URL"]).

(** The complementary raw answer on a scale whose answers [x] and
    [top - x] are opposite; text and empty cells are left as they are. *)
Definition complement_raw (top : Z) (c : raw_cell) : raw_cell :=
  match c with RNum z => RNum (top - z)%Z | _ => c end.

(** The inverse of the rescaling of lines 80-83: the raw answer a
    normalised value of column [col] comes from. *)
Definition denormalize_value (col : string) (v : Z) : Z :=
  if is_reversed col then (4 - v)%Z else (v + 4)%Z.

Definition decode_cell (col : string) (c : cell) : raw_cell :=
  match c with Some v => RNum (denormalize_value col v) | None => RNaN end.

(** ** The key sort *)

Lemma insert_by_key_perm x l : Permutation (insert_by_key x l) (x :: l).
Proof.
  induction l as [|y l IH]; simpl; [reflexivity|].
  destruct (Nat.leb _ _); [reflexivity|]. rewrite IH. apply perm_swap.
Qed.

Lemma sort_by_key_perm l : Permutation (sort_by_key l) l.
Proof.
  induction l as [|x l IH]; simpl; [reflexivity|].
  rewrite insert_by_key_perm, IH. reflexivity.
Qed.

Lemma insert_by_key_sorted x l :
  Sorted (fun a b => snd a <= snd b) l ->
  Sorted (fun a b => snd a <= snd b) (insert_by_key x l).
Proof.
  induction 1 as [|y l Hs IH Hhd]; simpl; [repeat constructor|].
  destruct (Nat.leb_spec (snd x) (snd y)).
  - constructor; constructor; assumption.
  - constructor; [exact IH|].
    destruct l as [|z l]; simpl; [constructor; lia|].
    inversion Hhd; subst. destruct (Nat.leb (snd x) (snd z)); constructor; lia.
Qed.

Lemma sort_by_key_sorted l : Sorted (fun a b => snd a <= snd b) (sort_by_key l).
Proof.
  induction l as [|x l IH]; simpl; [constructor|]. apply insert_by_key_sorted, IH.
Qed.

(** In a list without duplicates, positions increase along the list. *)
Lemma index_of_sorted (l : list string) :
  NoDup l ->
  StronglySorted (fun a b => match index_of a l, index_of b l with
                             | Some i, Some j => i < j
                             | _, _ => False
                             end) l.
Proof.
  induction 1 as [|x l Hx Hnd IH]; constructor.
  - eapply StronglySorted_weaken; [exact Hnd| |exact IH]. intros a b Ha Hb _. simpl.
    destruct (String.eqb_spec a x) as [->|]; [contradiction|].
    destruct (String.eqb_spec b x) as [->|]; [contradiction|].
    destruct (index_of a l), (index_of b l); simpl; [lia|tauto..].
  - apply Forall_forall. intros b Hb. simpl. rewrite String.eqb_refl.
    destruct (String.eqb_spec b x) as [->|]; [contradiction|].
    destruct (index_of b l) eqn:E; simpl; [lia|]. apply index_of_None in E. contradiction.
Qed.

Section SortFacts.
Context {S : Schema}.

Lemma pair_rank_In k : In k pairs -> exists i, pair_rank k = Some i /\ sort_key k = i.
Proof.
  intros Hk. unfold sort_key, pair_rank. destruct (index_of k pairs) as [i|] eqn:E.
  - exists i. auto.
  - apply index_of_None in E. contradiction.
Qed.

Lemma sort_key_inj a b : In a pairs -> In b pairs -> sort_key a = sort_key b -> a = b.
Proof.
  intros Ha Hb E. destruct (pair_rank_In a Ha) as (i & Ei & Ki).
  destruct (pair_rank_In b Hb) as (j & Ej & Kj). assert (i = j) as <- by congruence.
  apply index_of_Some in Ei as [Ei _]. apply index_of_Some in Ej as [Ej _]. congruence.
Qed.

Lemma pairs_sorted :
  NoDup pairs -> StronglySorted (fun a b => sort_key a < sort_key b) pairs.
Proof.
  intros Hp. eapply StronglySorted_weaken; [exact Hp| |exact (index_of_sorted _ Hp)].
  intros a b _ _ _. unfold sort_key, pair_rank.
  destruct (index_of a pairs), (index_of b pairs); tauto.
Qed.

Lemma sort_columns_keys_sorted cs :
  NoDup cs -> incl cs pairs ->
  let K := map fst (sort_by_key (map (fun k => (k, sort_key k)) cs)) in
  Permutation K cs /\ StronglySorted (fun a b => sort_key a < sort_key b) K.
Proof.
  intros Hnd Hincl K.
  set (M := sort_by_key (map (fun k => (k, sort_key k)) cs)).
  assert (HP : Permutation M (map (fun k => (k, sort_key k)) cs)) by apply sort_by_key_perm.
  assert (HK : Permutation K cs).
  { unfold K. fold M. rewrite HP, map_map. simpl. rewrite map_id. reflexivity. }
  split; [exact HK|].
  assert (HM : M = map (fun k => (k, sort_key k)) K).
  { unfold K. fold M. rewrite map_map. rewrite <- (map_id M) at 1. apply map_ext_in.
    intros [k n] Hin. apply (Permutation_in _ HP), in_map_iff in Hin as (k' & E & _).
    injection E as <- <-. reflexivity. }
  assert (Hs : StronglySorted (fun a b : string * nat => snd a <= snd b) M).
  { apply Sorted_StronglySorted; [intros ? ? ? ? ?; lia|apply sort_by_key_sorted]. }
  rewrite HM in Hs. apply StronglySorted_map in Hs. simpl in Hs.
  eapply StronglySorted_weaken; [exact (Permutation_NoDup (Permutation_sym HK) Hnd)| |exact Hs].
  intros a b Ha Hb Hne Hle. apply (Permutation_in _ HK), Hincl in Ha, Hb.
  assert (sort_key a <> sort_key b) by (intros E; exact (Hne (sort_key_inj a b Ha Hb E))).
  cbv beta in Hle. lia.
Qed.

End SortFacts.

(** ** Refinement *)

Section Refinement.
Context {S : Schema}.

Lemma lookup_col_strip k order raws :
  List.length order = List.length raws ->
  lookup_col k (combine (map strip_marker order)
                        (map (fun c => map (normalize_cell (fst c)) (snd c)) (combine order raws)))
  = option_map (fun p => map (normalize_cell (fst p)) (snd p))
               (find (fun p => String.eqb (strip_marker (fst p)) k) (combine order raws)).
Proof.
  revert raws. induction order as [|o order IH]; intros [|r raws] Hlen;
    simpl in *; try discriminate; [reflexivity|].
  rewrite String.eqb_sym. destruct (String.eqb (strip_marker o) k); [reflexivity|].
  apply IH. congruence.
Qed.

Lemma reindex_load_spec order raws (ps : list string) n :
  List.length order = List.length raws ->
  let C := combine (map strip_marker order)
                   (map (fun c => map (normalize_cell (fst c)) (snd c)) (combine order raws)) in
  map (fun k => (k, match lookup_col k C with Some s => s | None => repeat None n end))
      (filter (fun k => existsb (String.eqb k) (map strip_marker order)) ps)
  = flat_map (fun k =>
              match find (fun p => String.eqb (strip_marker (fst p)) k) (combine order raws) with
              | Some p => [(k, map (normalize_cell (fst p)) (snd p))]
              | None => []
              end) ps.
Proof.
  intros Hlen C.
  assert (HC : map fst C = map strip_marker order).
  { unfold C. apply map_fst_combine. rewrite !length_map, length_combine. lia. }
  induction ps as [|k ps IH]; simpl; [reflexivity|].
  pose proof (lookup_col_strip k order raws Hlen) as Hl. fold C in Hl.
  destruct (lookup_col k C) as [s|] eqn:E.
  - pose proof E as E'. apply lookup_col_In, (in_map fst) in E'. simpl in E'. rewrite HC in E'.
    apply existsb_eqb_In in E'. rewrite E'. simpl. rewrite E, IH.
    destruct (find _ _); simpl in Hl |- *; [|discriminate]. injection Hl as ->. reflexivity.
  - apply lookup_col_None in E. rewrite HC in E.
    apply existsb_eqb_notIn in E. rewrite E. rewrite IH.
    destruct (find _ _); simpl in Hl |- *; [discriminate|]. reflexivity.
Qed.

End Refinement.

(** ** Properties of [loadCSV] *)

Section Properties.
Context {S : Schema} {WF : SchemaWF S}.

Lemma sort_columns_filter cs :
  NoDup cs -> incl cs pairs ->
  sort_columns cs = Ok (filter (fun k => existsb (String.eqb k) cs) pairs).
Proof.
  intros Hnd Hincl. unfold sort_columns.
  replace (forallb _ cs) with true.
  2:{ symmetry. apply forallb_forall. intros k Hk.
      destruct (pair_rank_In k (Hincl k Hk)) as (i & -> & _). reflexivity. }
  rewrite andb_false_r. f_equal.
  destruct (sort_columns_keys_sorted cs Hnd Hincl) as [HK Hs].
  apply (StronglySorted_unique (fun a b => sort_key a < sort_key b)).
  - intros x y; lia.
  - exact Hs.
  - apply StronglySorted_filter, pairs_sorted, pairs_nodup.
  - intros x. rewrite filter_In, existsb_eqb_In. split.
    + intros Hx. apply (Permutation_in _ HK) in Hx. split; [apply Hincl, Hx|exact Hx].
    + intros [_ Hx]. apply (Permutation_in _ (Permutation_sym HK)), Hx.
Qed.

(** C3: The sort of line 87, [sorted(Tab.columns, key=d.get)], applied to
    distinct canonical keys, lists them in the order of [pairs]: it is
    the filter of [pairs] by membership. *)
Theorem sort_columns_spec cs :
  NoDup cs -> incl cs pairs ->
  sort_columns cs = Ok (filter (fun k => existsb (String.eqb k) cs) pairs).
Proof. intros. eapply sort_columns_filter; eassumption. Qed.

Lemma get_loc_lt {A} x (f : frame A) u : get_loc x f = Some u -> u < List.length (cols f).
Proof.
  unfold get_loc, columns. intros H. apply index_of_Some in H as [H _].
  assert (Hs : nth_error (map fst (cols f)) u <> None) by congruence.
  apply nth_error_Some in Hs. rewrite length_map in Hs. exact Hs.
Qed.

Lemma chosen_order_valid u :
  u = List.length order_short \/ u = List.length order_long ->
  valid_order (chosen_order u) /\ List.length (chosen_order u) = u.
Proof.
  unfold chosen_order. intros Hu.
  destruct (Nat.eqb_spec u (List.length order_short)).
  - split; [apply short_valid|congruence].
  - split; [apply long_valid|]. destruct Hu; congruence.
Qed.

Lemma drop_after_url_ok (Tab : frame raw_cell) u :
  NoDup (columns Tab) -> get_loc "URL" Tab = Some u ->
  drop_after_url Tab = Ok (mkFrame (nrows Tab) (firstn u (cols Tab))) /\
  List.length (firstn u (cols Tab)) = u.
Proof.
  intros Hnd Hloc. unfold drop_after_url. rewrite Hloc. cbn [of_option bind].
  rewrite drop_labels_columns_from by exact Hnd. split; [reflexivity|].
  rewrite length_firstn. apply get_loc_lt in Hloc. lia.
Qed.

Lemma check_and_rename_ok n (cs : list (string * list raw_cell)) :
  List.length cs = List.length order_short \/ List.length cs = List.length order_long ->
  check_and_rename (mkFrame n cs) =
    Ok (mkFrame n (combine (chosen_order (List.length cs)) (map snd cs))).
Proof.
  intros Hu. destruct (chosen_order_valid _ Hu) as [_ Hlen].
  unfold check_and_rename. cbn [cols].
  replace (existsb _ _) with true
    by (symmetry; apply existsb_exists; exists (List.length cs);
        split; [destruct Hu as [<-| <-]; simpl; auto|apply Nat.eqb_refl]).
  apply set_columns_ok. exact Hlen.
Qed.

Lemma check_and_rename_bad n (cs : list (string * list raw_cell)) :
  List.length cs <> List.length order_short -> List.length cs <> List.length order_long ->
  check_and_rename (mkFrame n cs) =
    Err (ValueError_Size (List.length order_short) (List.length order_long)).
Proof.
  intros Hs Hl. unfold check_and_rename. cbn [cols existsb].
  apply Nat.eqb_neq in Hs, Hl. rewrite Hs, Hl. reflexivity.
Qed.

Lemma normalize_ok n order (useful : list (string * list raw_cell)) :
  forallb (fun c => negb (existsb is_text (snd c))) useful = true ->
  normalize (mkFrame n (combine order (map snd useful)))
  = Ok (mkFrame n (map (fun c => (fst c, map (normalize_cell (fst c)) (snd c)))
                       (combine order (map snd useful)))).
Proof.
  intros Hok. unfold normalize, items_update. cbn [cols nrows].
  rewrite (map_columns_res_ok _ (fun k s => map (normalize_cell k) s)); [reflexivity|].
  intros k s Hin. apply in_combine_r, in_map_iff in Hin as (c & <- & Hc).
  rewrite forallb_forall in Hok. specialize (Hok c Hc).
  unfold normalize_column. apply negb_true_iff in Hok. rewrite Hok. reflexivity.
Qed.

Lemma reorder_columns_ok n order raws :
  valid_order order -> List.length order = List.length raws ->
  reorder_columns (mkFrame n (map (fun c => (fst c, map (normalize_cell (fst c)) (snd c)))
                                  (combine order raws)))
  = Ok (mkFrame n (load_spec order raws)).
Proof.
  intros [Hvnd Hvin] Hl2. unfold reorder_columns.
  assert (Hcols : columns (mkFrame n (map (fun c => (fst c, map (normalize_cell (fst c)) (snd c)))
                                          (combine order raws))) = order).
  { unfold columns. cbn [cols]. rewrite map_map. cbn [fst]. apply map_fst_combine, Hl2. }
  rewrite Hcols, set_columns_ok by (cbn [cols]; rewrite !length_map, length_combine; lia).
  cbn [bind cols nrows]. rewrite map_map. cbn [snd].
  assert (Hcols2 : forall (X : list (list cell)), List.length X = List.length order ->
            columns (mkFrame n (combine (map strip_marker order) X)) = map strip_marker order).
  { intros X HX. unfold columns. cbn [cols]. apply map_fst_combine. rewrite length_map. congruence. }
  rewrite Hcols2 by (rewrite length_map, length_combine; lia).
  rewrite sort_columns_filter by assumption. cbn [bind].
  rewrite reindex_present by (rewrite Hcols2 by (rewrite length_map, length_combine; lia); exact Hvnd).
  cbn [cols nrows]. do 2 f_equal. apply reindex_load_spec, Hl2.
Qed.

(** The pipeline on a valid table, stage by stage. *)
Lemma loadCSV_ok (Tab : frame raw_cell) (u : nat) :
  NoDup (columns Tab) ->
  get_loc "URL" Tab = Some u ->
  u = List.length order_short \/ u = List.length order_long ->
  forallb (fun c => negb (existsb is_text (snd c))) (firstn u (cols Tab)) = true ->
  loadCSV Tab = Ok (mkFrame (nrows Tab)
                      (load_spec (chosen_order u) (map snd (firstn u (cols Tab))))).
Proof.
  intros Hnd Hloc Hu Hok.
  destruct (drop_after_url_ok Tab u Hnd Hloc) as [Hd Hlen].
  destruct (chosen_order_valid u Hu) as [Hv Hlo].
  unfold loadCSV. rewrite Hd. cbn [bind].
  rewrite check_and_rename_ok by (rewrite Hlen; exact Hu). cbn [bind]. rewrite Hlen.
  rewrite normalize_ok by exact Hok. cbn [bind].
  apply reorder_columns_ok; [exact Hv|rewrite length_map; congruence].
Qed.

(** C1: On a table with unique labels whose "URL" column
    comes after exactly [u] useful columns, [u] being one of the two
    schema sizes, and whose useful cells are all numbers or empty,
    [loadCSV] returns the abstract [load_spec] frame: the canonical keys
    of the matched schema in the order of [pairs], each with its raw
    column normalised according to its marker, and the same rows. *)
Theorem loadCSV_refines (Tab : frame raw_cell) (u : nat) :
  NoDup (columns Tab) ->
  get_loc "URL" Tab = Some u ->
  u = List.length order_short \/ u = List.length order_long ->
  forallb (fun c => negb (existsb is_text (snd c))) (firstn u (cols Tab)) = true ->
  loadCSV Tab = Ok (mkFrame (nrows Tab)
                      (load_spec (chosen_order u) (map snd (firstn u (cols Tab))))).
Proof. exact (loadCSV_ok Tab u). Qed.

Lemma loadCSV_text_err (Tab : frame raw_cell) (u : nat)
    (pre post : list (string * list raw_cell)) (c : string) (s : list raw_cell) :
  NoDup (columns Tab) -> get_loc "URL" Tab = Some u ->
  u = List.length order_short \/ u = List.length order_long ->
  firstn u (cols Tab) = (pre ++ (c, s) :: post)%list ->
  forallb (fun c => negb (existsb is_text (snd c))) pre = true ->
  existsb is_text s = true ->
  loadCSV Tab = Err (TypeError_Operand (nth (List.length pre) (chosen_order u) "")).
Proof.
  intros Hnd Hloc Hu Hsplit Hpre Htext.
  destruct (drop_after_url_ok Tab u Hnd Hloc) as [Hd Hlen].
  destruct (chosen_order_valid u Hu) as [_ Hlo].
  unfold loadCSV. rewrite Hd. cbn [bind].
  rewrite check_and_rename_ok by (rewrite Hlen; exact Hu). cbn [bind]. rewrite Hlen, Hsplit.
  assert (Hlt : List.length pre < List.length (chosen_order u)).
  { rewrite Hlo, <- Hlen, Hsplit, length_app. simpl. lia. }
  rewrite (split_at_nth (chosen_order u) (List.length pre) "") at 1 by exact Hlt.
  rewrite map_app. cbn [map snd].
  rewrite combine_app by (rewrite length_firstn, length_map; lia). cbn [combine].
  unfold normalize, items_update. cbn [cols].
  rewrite (map_columns_res_err _ _ _ _ _ (TypeError_Operand (nth (List.length pre) (chosen_order u) ""))); [reflexivity| |].
  - intros k' s' Hin. apply in_combine_r, in_map_iff in Hin as (c' & <- & Hc).
    rewrite forallb_forall in Hpre. specialize (Hpre c' Hc). apply negb_true_iff in Hpre.
    unfold normalize_column. rewrite Hpre. eexists. reflexivity.
  - unfold normalize_column. rewrite Htext. reflexivity.
Qed.

(** C6: When a useful column holds a text cell, [loadCSV]
    raises the TypeError of the subtraction (line 81 or 83) for the
    first such column, named after the schema (marker included). *)
Theorem loadCSV_text_error (Tab : frame raw_cell) (u : nat)
    (pre post : list (string * list raw_cell)) (c : string) (s : list raw_cell) :
  NoDup (columns Tab) -> get_loc "URL" Tab = Some u ->
  u = List.length order_short \/ u = List.length order_long ->
  firstn u (cols Tab) = (pre ++ (c, s) :: post)%list ->
  forallb (fun c => negb (existsb is_text (snd c))) pre = true ->
  existsb is_text s = true ->
  loadCSV Tab = Err (TypeError_Operand (nth (List.length pre) (chosen_order u) "")).
Proof. intros. eapply loadCSV_text_err; eassumption. Qed.

Lemma load_spec_columns order raws :
  List.length order = List.length raws ->
  map fst (load_spec order raws) = canonical_keys order.
Proof.
  intros H. unfold load_spec, canonical_keys.
  rewrite <- (reindex_load_spec order raws pairs 0 H), map_map. apply map_id.
Qed.

Lemma loadCSV_ok_columns (Tab : frame raw_cell) (u : nat) :
  NoDup (columns Tab) -> get_loc "URL" Tab = Some u ->
  u = List.length order_short \/ u = List.length order_long ->
  forallb (fun c => negb (existsb is_text (snd c))) (firstn u (cols Tab)) = true ->
  exists T, loadCSV Tab = Ok T /\ columns T = canonical_keys (chosen_order u)
            /\ nrows T = nrows Tab.
Proof.
  intros Hnd Hloc Hu Hok. eexists. split; [exact (loadCSV_ok Tab u Hnd Hloc Hu Hok)|].
  split; [|reflexivity]. apply load_spec_columns.
  destruct (chosen_order_valid u Hu) as [_ ->]. rewrite length_map.
  symmetry. apply (drop_after_url_ok Tab u Hnd Hloc).
Qed.

(** On a valid table, the columns of the result are the canonical
    keys of the matched schema, in the order of [pairs], whatever the
    order of the columns in the file. *)
Theorem loadCSV_columns (Tab : frame raw_cell) (u : nat) :
  NoDup (columns Tab) -> get_loc "URL" Tab = Some u ->
  u = List.length order_short \/ u = List.length order_long ->
  forallb (fun c => negb (existsb is_text (snd c))) (firstn u (cols Tab)) = true ->
  exists T, loadCSV Tab = Ok T /\ columns T = canonical_keys (chosen_order u)
            /\ nrows T = nrows Tab.
Proof. exact (loadCSV_ok_columns Tab u). Qed.

(** The outcome of [loadCSV] on a table with distinct labels, by cases:
    success on a valid table, or one of the three errors. *)
Lemma loadCSV_cases (Tab : frame raw_cell) :
  NoDup (columns Tab) ->
  (exists u, get_loc "URL" Tab = Some u /\
     (u = List.length order_short \/ u = List.length order_long) /\
     forallb (fun c => negb (existsb is_text (snd c))) (firstn u (cols Tab)) = true /\
     loadCSV Tab = Ok (mkFrame (nrows Tab) (load_spec (chosen_order u) (map snd (firstn u (cols Tab)))))) \/
  loadCSV Tab = Err ValueError_NoURL \/
  loadCSV Tab = Err (ValueError_Size (List.length order_short) (List.length order_long)) \/
  exists col, loadCSV Tab = Err (TypeError_Operand col).
Proof.
  intros Hnd. destruct (get_loc "URL" Tab) as [u|] eqn:Hloc.
  2: { right; left. unfold loadCSV, drop_after_url. rewrite Hloc. reflexivity. }
  destruct (drop_after_url_ok Tab u Hnd Hloc) as [Hd Hlen].
  assert (Hcase : (u = List.length order_short \/ u = List.length order_long) \/
                  (u <> List.length order_short /\ u <> List.length order_long)) by lia.
  destruct Hcase as [Hu|[Hs Hl]].
  - destruct (forallb (fun c => negb (existsb is_text (snd c))) (firstn u (cols Tab))) eqn:Hok.
    + left. exists u. split; [reflexivity|]. split; [exact Hu|]. split; [exact Hok|].
      apply loadCSV_ok; assumption.
    + right; right; right. destruct (forallb_split _ _ Hok) as (pre & [c s] & post & Hsplit & Hpre & Hc).
      eexists. apply (loadCSV_text_err Tab u pre post c s Hnd Hloc Hu Hsplit Hpre).
      cbn in Hc. apply negb_false_iff in Hc. exact Hc.
  - right; right; left. unfold loadCSV. rewrite Hd. cbn [bind].
    rewrite check_and_rename_bad by congruence. reflexivity.
Qed.

(** C8: On a table with distinct labels (as [read_csv] makes them),
    [loadCSV] succeeds or raises one of its three documented errors: the
    sort keys always exist, [reindex] never meets a duplicate label and
    the renaming always has the right length. *)
Theorem loadCSV_safe (Tab : frame raw_cell) :
  NoDup (columns Tab) ->
  (exists T, loadCSV Tab = Ok T) \/ loadCSV Tab = Err ValueError_NoURL \/
  loadCSV Tab = Err (ValueError_Size (List.length order_short) (List.length order_long)) \/
  exists col, loadCSV Tab = Err (TypeError_Operand col).
Proof.
  intros H. destruct (loadCSV_cases Tab H) as [(u & _ & _ & _ & E)|H']; [left; eauto|right; exact H'].
Qed.

Lemma lookup_col_flat_map_notin {A} (f : string -> option A) (h : A -> list cell) ps k :
  ~ In k ps ->
  lookup_col k (flat_map (fun k => match f k with Some p => [(k, h p)] | None => [] end) ps) = None.
Proof.
  induction ps as [|a ps IH]; cbn; [reflexivity|]. intros Hn.
  destruct (f a); cbn; [|apply IH; tauto].
  destruct (String.eqb_spec k a); [subst; tauto|]. apply IH. tauto.
Qed.

Lemma lookup_col_flat_map {A} (f : string -> option A) (h : A -> list cell) ps k :
  NoDup ps -> In k ps ->
  lookup_col k (flat_map (fun k => match f k with Some p => [(k, h p)] | None => [] end) ps) =
    option_map h (f k).
Proof.
  induction 1 as [|a ps Ha Hnd IH]; [contradiction|]. intros Hin. cbn [flat_map].
  destruct (String.eqb_spec a k) as [<-|Hne].
  - destruct (f a); cbn; [rewrite String.eqb_refl; reflexivity|].
    apply lookup_col_flat_map_notin. exact Ha.
  - destruct Hin as [->|Hin]; [congruence|]. destruct (f a); cbn; [|apply IH, Hin].
    destruct (String.eqb_spec k a); [congruence|]. apply IH, Hin.
Qed.

Lemma find_combine_strip order (raws : list (list raw_cell)) i k s :
  NoDup (map strip_marker order) -> List.length order = List.length raws ->
  nth_error order i = Some k -> nth_error raws i = Some s ->
  find (fun p : string * list raw_cell => String.eqb (strip_marker (fst p)) (strip_marker k)) (combine order raws) = Some (k, s).
Proof.
  revert raws i. induction order as [|o order IH]; intros [|r raws] [|i] Hnd Hlen Hk Hs;
    cbn in *; try discriminate.
  - injection Hk as <-. injection Hs as <-. rewrite String.eqb_refl. reflexivity.
  - inversion Hnd as [|? ? Ho Hnd']; subst.
    assert (Hne : strip_marker o <> strip_marker k)
      by (intros E; apply Ho; rewrite E; apply in_map, (nth_error_In _ _ Hk)).
    apply String.eqb_neq in Hne. rewrite Hne. apply (IH raws i); auto.
Qed.

Lemma decode_normalize k s :
  existsb is_text s = false -> map (decode_cell k) (map (normalize_cell k) s) = s.
Proof.
  induction s as [|[z| |t] s IH]; cbn; [reflexivity| |intros H; rewrite IH by exact H; reflexivity|discriminate].
  intros H. rewrite IH by exact H. unfold denormalize_value, normalize_value.
  destruct (is_reversed k); f_equal; f_equal; lia.
Qed.

(** C7: [loadCSV] loses no answer: on a table it loads, the raw column
    at every useful position [i], named [k] by the schema, is recovered
    by decoding, with the marker of [k], the loaded column named after
    the canonical key of [k]. *)
Theorem loadCSV_roundtrip (Tab : frame raw_cell) (T : frame cell) u i k s :
  NoDup (columns Tab) -> get_loc "URL" Tab = Some u -> loadCSV Tab = Ok T ->
  nth_error (chosen_order u) i = Some k -> nth_error (map snd (firstn u (cols Tab))) i = Some s ->
  exists c, lookup_col (strip_marker k) (cols T) = Some c /\ map (decode_cell k) c = s.
Proof.
  intros Hnd Hloc HT Hk Hs.
  destruct (loadCSV_cases Tab Hnd) as [(u' & Hloc' & Hu & Hok & E)|[E|[E|(col & E)]]];
    rewrite HT in E; try discriminate.
  rewrite Hloc in Hloc'. injection Hloc' as <-. injection E as ->. cbn [cols].
  destruct (chosen_order_valid u Hu) as [[Hnd' Hincl] Hlo]. destruct (drop_after_url_ok Tab u Hnd Hloc) as [_ Hlen].
  unfold load_spec. rewrite lookup_col_flat_map.
  - rewrite (find_combine_strip _ _ i k s Hnd') by (try rewrite length_map; congruence || assumption).
    eexists. split; [reflexivity|]. apply decode_normalize.
    apply nth_error_In, in_map_iff in Hs as (c & <- & Hc). rewrite forallb_forall in Hok.
    apply negb_true_iff, (Hok c Hc).
  - apply pairs_nodup.
  - apply Hincl, in_map, (nth_error_In _ _ Hk).
Qed.

End Properties.

(** ** Errors, invariant and bounds *)

Section Behaviour.
Context {S : Schema}.

(** C2: Without a "URL" column, [loadCSV] raises the ValueError of
    line 72. *)
Theorem loadCSV_no_url (Tab : frame raw_cell) :
  ~ In "URL" (columns Tab) -> loadCSV Tab = Err ValueError_NoURL.
Proof.
  intros H. unfold loadCSV, drop_after_url, get_loc. apply index_of_None in H. rewrite H. reflexivity.
Qed.

(** C4: When the number of columns before "URL" is neither schema size,
    [loadCSV] raises the ValueError of line 76, whose message carries the
    two expected sizes (not the number found). *)
Theorem loadCSV_bad_size (Tab : frame raw_cell) (u : nat) :
  NoDup (columns Tab) -> get_loc "URL" Tab = Some u ->
  u <> List.length order_short -> u <> List.length order_long ->
  loadCSV Tab = Err (ValueError_Size (List.length order_short) (List.length order_long)).
Proof.
  intros Hnd Hloc Hs Hl. destruct (drop_after_url_ok Tab u Hnd Hloc) as [Hd Hlen].
  unfold loadCSV. rewrite Hd. cbn [bind].
  rewrite check_and_rename_bad by congruence. reflexivity.
Qed.

Lemma normalize_column_length col s s' :
  normalize_column col s = Ok s' -> List.length s' = List.length s.
Proof.
  unfold normalize_column. destruct (existsb _ _); [discriminate|].
  intros [= <-]. apply length_map.
Qed.

Lemma normalize_value_bounds col x : (1 <= x <= 7)%Z -> (-3 <= normalize_value col x <= 3)%Z.
Proof. unfold normalize_value. destruct (is_reversed col); lia. Qed.

Lemma existsb_is_text_complement top s :
  existsb is_text (map (complement_raw top) s) = existsb is_text s.
Proof. induction s as [|[z| |t] s IH]; cbn; auto. Qed.

(** C11: A reversed column (label [k*]) is normalised as the plain column
    [k] holding the complementary answers [8 - x] (the scale is 1..7 and
    the neutral answer 4), text-free columns included; the complement
    [7 - x] never gives the same value. *)
Theorem normalize_column_reversed k s :
  is_reversed k = false -> existsb is_text s = false ->
  normalize_column (k ++ "*") s = normalize_column k (map (complement_raw 8) s) /\
  (forall x, normalize_value (k ++ "*") x <> normalize_value k (7 - x)).
Proof.
  intros Hk Hs. assert (Hr : is_reversed (k ++ "*") = true)
    by (apply str_contains_app_r; reflexivity).
  unfold normalize_column. rewrite existsb_is_text_complement, Hs, map_map. split.
  - f_equal. apply map_ext. intros [z| |t]; cbn [normalize_cell complement_raw]; [|reflexivity|reflexivity].
    unfold normalize_value. rewrite Hr, Hk. f_equal. lia.
  - intros x. unfold normalize_value. rewrite Hr, Hk. lia.
Qed.

Lemma loadCSV_in_bounds (Tab : frame raw_cell) (T : frame cell) :
  all_cells raw_in_scale Tab -> loadCSV Tab = Ok T -> all_cells normalized_in_bounds T.
Proof.
  unfold loadCSV. intros Hc H.
  destruct (drop_after_url Tab) as [T1|] eqn:E1; [|discriminate]. cbn [bind] in H.
  assert (C1 : all_cells raw_in_scale T1).
  { unfold drop_after_url in E1. destruct (get_loc _ _); [|discriminate].
    injection E1 as <-. apply drop_labels_cells, Hc. }
  destruct (check_and_rename T1) as [T2|] eqn:E2; [|discriminate]. cbn [bind] in H.
  assert (C2 : all_cells raw_in_scale T2).
  { unfold check_and_rename in E2. destruct (negb _); [discriminate|].
    exact (set_columns_cells _ _ _ _ C1 E2). }
  destruct (normalize T2) as [T3|] eqn:E3; [|discriminate]. cbn [bind] in H.
  assert (C3 : all_cells normalized_in_bounds T3).
  { refine (items_update_cells _ _ _ _ _ _ C2 E3). intros k s s' Hn Hs.
    unfold normalize_column in Hn. destruct (existsb _ _); [discriminate|].
    injection Hn as <-. rewrite Forall_forall in *. intros c Hc'.
    apply in_map_iff in Hc' as (r & <- & Hr). specialize (Hs r Hr).
    destruct r; cbn in *; [apply normalize_value_bounds, Hs|exact I|exact I]. }
  unfold reorder_columns in H.
  destruct (set_columns _ T3) as [T4|] eqn:E4; [|discriminate]. cbn [bind] in H.
  pose proof (set_columns_cells _ _ _ _ C3 E4) as C4.
  destruct (sort_columns _) as [keys|]; [|discriminate]. cbn [bind] in H.
  exact (reindex_cells _ _ _ _ I C4 H).
Qed.

(** C5: When every raw rating of the table lies in 1..7, every
    value of the table [loadCSV] returns lies in [-3, 3]. *)
Theorem loadCSV_bounds (Tab : frame raw_cell) (T : frame cell) :
  all_cells raw_in_scale Tab -> loadCSV Tab = Ok T -> all_cells normalized_in_bounds T.
Proof. intros. eapply loadCSV_in_bounds; eassumption. Qed.

End Behaviour.

(** ** The AttrakDiff schema *)

#[export] Instance attrakdiff_wf : SchemaWF attrakdiff_schema.
Proof.
  split.
  - apply dup_free_b_spec. vm_compute. reflexivity.
  - split; [apply dup_free_b_spec|apply incl_b_spec]; vm_compute; reflexivity.
  - split; [apply dup_free_b_spec|apply incl_b_spec]; vm_compute; reflexivity.
Qed.

Lemma attrakdiff_canonical_long : canonical_keys attrakdiff_long = attrakdiff_pairs.
Proof. vm_compute. reflexivity. Qed.

Lemma attrakdiff_canonical_short :
  canonical_keys attrakdiff_short =
    ["QP2"; "QP3"; "QP5"; "QP6"; "QHI3"; "QHI4"; "QHS2"; "QHS5"; "ATT2"; "ATT5"].
Proof. vm_compute. reflexivity. Qed.

(** C10: With the AttrakDiff tables, [loadCSV] turns
    any valid long export into the 28 canonical columns and any valid
    short export into the 10 columns of the abridged questionnaire, in
    the same relative order: the two results are not identically keyed. *)
Theorem loadCSV_short_long_columns (Ts Tl : frame raw_cell) :
  valid_table Ts (List.length attrakdiff_short) ->
  valid_table Tl (List.length attrakdiff_long) ->
  exists A B, loadCSV Ts = Ok A /\ loadCSV Tl = Ok B /\
    columns B = attrakdiff_pairs /\
    columns A = filter (fun k => existsb (String.eqb k) (columns A)) (columns B) /\
    List.length (columns A) = 10.
Proof.
  intros (Hs1 & Hs2 & Hs3) (Hl1 & Hl2 & Hl3).
  destruct (loadCSV_ok_columns Ts _ Hs1 Hs2 ltac:(left; reflexivity) Hs3) as (A & HA & CA & _).
  destruct (loadCSV_ok_columns Tl _ Hl1 Hl2 ltac:(right; reflexivity) Hl3) as (B & HB & CB & _).
  exists A, B. split; [exact HA|]. split; [exact HB|].
  replace (chosen_order (List.length attrakdiff_short)) with attrakdiff_short in CA by reflexivity.
  replace (chosen_order (List.length attrakdiff_long)) with attrakdiff_long in CB by reflexivity.
  rewrite CA, CB, attrakdiff_canonical_short, attrakdiff_canonical_long.
  split; [reflexivity|]. split; [vm_compute; reflexivity|reflexivity].
Qed.

Lemma loadCSV_short_long_columns_witness :
  exists A B, loadCSV (uniform_table attrakdiff_short 2 (RNum 3)) = Ok A /\
    loadCSV (uniform_table attrakdiff_long 2 (RNum 3)) = Ok B /\
    columns B = attrakdiff_pairs /\
    columns A = filter (fun k => existsb (String.eqb k) (columns A)) (columns B) /\
    List.length (columns A) = 10.
Proof.
  apply loadCSV_short_long_columns;
    (split; [apply dup_free_b_spec; vm_compute; reflexivity|split; vm_compute; reflexivity]).
Defined.

Lemma loadCSV_refines_witness :
  loadCSV (uniform_table attrakdiff_long 2 (RNum 5)) =
    Ok (mkFrame 2 (load_spec (chosen_order 28)
                    (map snd (firstn 28 (cols (uniform_table attrakdiff_long 2 (RNum 5))))))).
Proof.
  apply loadCSV_refines;
    [apply dup_free_b_spec; vm_compute; reflexivity|vm_compute; reflexivity
    |right; reflexivity|vm_compute; reflexivity].
Defined.

Lemma sort_columns_spec_witness :
  sort_columns (map strip_marker attrakdiff_long) =
    Ok (filter (fun k => existsb (String.eqb k) (map strip_marker attrakdiff_long)) pairs).
Proof.
  apply sort_columns_spec;
    [apply dup_free_b_spec; vm_compute; reflexivity|apply incl_b_spec; vm_compute; reflexivity].
Defined.

Lemma loadCSV_bad_size_witness :
  loadCSV (uniform_table ["QP1"; "QP2"] 1 (RNum 1)) = Err (ValueError_Size 10 28).
Proof.
  apply (@loadCSV_bad_size attrakdiff_schema _ 2);
    [apply dup_free_b_spec; vm_compute; reflexivity|reflexivity|discriminate|discriminate].
Defined.

Lemma loadCSV_no_url_witness : loadCSV (mkFrame 1 [("QP1", [RNum 1%Z])]) = Err ValueError_NoURL.
Proof. apply loadCSV_no_url. intros [H|[]]. discriminate. Defined.

Lemma loadCSV_text_error_witness :
  loadCSV text_table = Err (TypeError_Operand "QP3*").
Proof.
  apply (loadCSV_text_error (S:=attrakdiff_schema) text_table 10
           (map (fun k => (k, [RNum 4%Z])) ["a"; "b"])
           (map (fun k => (k, [RNum 4%Z])) ["d"; "e"; "f"; "g"; "h"; "i"; "j"])
           "c" [RText "n/a"]);
    [apply dup_free_b_spec; vm_compute; reflexivity|reflexivity|left; reflexivity
    |reflexivity|reflexivity|reflexivity].
Defined.

Lemma loadCSV_columns_witness :
  exists T, loadCSV (uniform_table attrakdiff_short 3 RNaN) = Ok T /\
    columns T = canonical_keys (chosen_order 10) /\ nrows T = 3.
Proof.
  apply loadCSV_columns;
    [apply dup_free_b_spec; vm_compute; reflexivity|reflexivity|left; reflexivity|reflexivity].
Defined.

Lemma loadCSV_bounds_witness :
  exists T, loadCSV (uniform_table attrakdiff_short 2 (RNum 7)) = Ok T /\
    all_cells normalized_in_bounds T.
Proof.
  eexists. split; [vm_compute; reflexivity|].
  apply (loadCSV_bounds (uniform_table attrakdiff_short 2 (RNum 7)));
    [repeat constructor; cbn; lia|vm_compute; reflexivity].
Defined.

Lemma normalize_column_reversed_witness :
  normalize_column "QP2*" [RNum 1; RNaN; RNum 7]%Z =
    normalize_column "QP2" (map (complement_raw 8) [RNum 1; RNaN; RNum 7]%Z) /\
  (forall x, normalize_value "QP2*" x <> normalize_value "QP2" (7 - x)).
Proof. apply (normalize_column_reversed "QP2"); reflexivity. Defined.

Lemma loadCSV_safe_witness :
  let Tab := mkFrame 1 [("QP1", [RNum 1%Z]); ("URL", [RNaN])] in
  ((exists T, loadCSV Tab = Ok T) \/ loadCSV Tab = Err ValueError_NoURL \/
   loadCSV Tab = Err (ValueError_Size 10 28) \/
   exists col, loadCSV Tab = Err (TypeError_Operand col)) /\
  loadCSV Tab = Err (ValueError_Size 10 28).
Proof.
  split; [refine (@loadCSV_safe attrakdiff_schema _ _ _); apply dup_free_b_spec; vm_compute; reflexivity|vm_compute; reflexivity].
Defined.

Lemma loadCSV_roundtrip_witness :
  exists c, lookup_col "QP1" (cols (mkFrame 2 (load_spec attrakdiff_long
              (map snd (firstn 28 (cols (uniform_table attrakdiff_long 2 (RNum 2)))))))) = Some c /\
    map (decode_cell "QP1*") c = [RNum 2%Z; RNum 2%Z].
Proof.
  apply (loadCSV_roundtrip (uniform_table attrakdiff_long 2 (RNum 2)) _ 28 0 "QP1*");
    [apply dup_free_b_spec; vm_compute; reflexivity|vm_compute; reflexivity
    |vm_compute; reflexivity|vm_compute; reflexivity|vm_compute; reflexivity].
Defined.
