(* ===== verification/ReadCSV.v ===== *)
(** * Reading the export: [read_csv(file, index_col=0, ...)] (attrakdiff.py, line 67)

    [loadCSV] starts with pandas' [read_csv] on the tab-separated export.
    This file models what [read_csv] (its default C parser) does with
    the tokenised file and on which [loadCSV] relies:
    - a file without a header line raises [EmptyDataError];
    - an empty header field [i] is named ["Unnamed: i"];
    - duplicate header names are mangled as the parser's header loop
      does it: the fields are visited named ones first, then the
      unnamed ones ([col_loop_order]); a name [old_col] already counted
      is tried with the suffixes [old_col.k] from its count [k] upwards,
      skipping a candidate present in the header ([col in this_header])
      and stopping on one never counted; the header is updated in place
      ([this_header[i] = col]);
    - a data row with more fields than the header raises the parser's
      error ("Expected n fields in line l, saw m"); a shorter row is
      completed with NaN;
    - [index_col=0]: the first field of the header and of every row is
      the index, not a column.
    The decoding (UTF-16, where a [UnicodeError] arises, tab separator,
    quoting) and the inference of the cells' types are not modelled: the
    input is the header and the typed cells of each row.  The implicit
    index pandas takes when every data row is one field longer than the
    header is not modelled either.

    The theorems: the [while] loop ends within its fuel (the candidates
    it skips are distinct names of the header, so there are fewer of
    them than header fields); the mangled header has distinct names;
    [read_csv] returns a well-formed table with distinct column labels,
    or [EmptyDataError], or the parser's error; composed with [loadCSV],
    the whole function raises nothing but these and the four errors of
    lines 68-88, for every tokenised file. *)

From S2P Require Import Prelude Naming Frame LoadCSV.
From Stdlib Require Import String Ascii ZArith List Lia Arith Permutation DecimalString DecimalNat.
From Stdlib Require Lists.Finite.
Import ListNotations.
Local Open Scope string_scope.

(** Python's [str(n)] for a natural number. *)
Definition str_nat (n : nat) : string := NilEmpty.string_of_uint (Nat.to_uint n).

(** The parser's [counts] dict, read with [counts.get(col, 0)]. *)
Definition counter : Type := string -> nat.

Definition cset (c : counter) (k : string) (v : nat) : counter :=
  fun x => if String.eqb x k then v else c x.

(** [this_header[i] = col], with [i] in range. *)
Fixpoint list_set (l : list string) (i : nat) (x : string) : list string :=
  match l, i with
  | [], _ => []
  | _ :: l', O => x :: l'
  | y :: l', S i' => y :: list_set l' i' x
  end.

(** [f"{old_col}.{cur_count}"]. *)
Definition suffixed (old : string) (k : nat) : string := old ++ "." ++ str_nat k.

(** The parser's [while cur_count > 0] loop, with fuel, entered with
    [cur_count > 0]:
    [counts[old_col] = cur_count + 1; col = f"{old_col}.{cur_count}";
     if col in this_header: cur_count += 1
     else: cur_count = counts.get(col, 0)].
    It returns the counts and the last [col]; [cur_count] is then 0. *)
Fixpoint mangle_loop (fuel : nat) (header : list string) (counts : counter) (old : string) (cur : nat)
    : option (counter * string) :=
  match fuel with
  | O => None
  | S f =>
      let counts := cset counts old (S cur) in
      let col := suffixed old cur in
      let cur := if existsb (String.eqb col) header then S cur else counts col in
      if Nat.eqb cur 0 then Some (counts, col) else mangle_loop f header counts old cur
  end.

(** The [for i in col_loop_order] loop: [col = this_header[i];
    old_col = col; cur_count = counts.get(col, 0)]; the inner loop when
    [cur_count > 0]; then [this_header[i] = col; counts[col] = cur_count + 1]. *)
Fixpoint mangle_at (fuel : nat) (counts : counter) (header : list string) (order : list nat)
    : option (list string) :=
  match order with
  | [] => Some header
  | i :: order' =>
      let col := nth i header "" in
      let cur := counts col in
      if Nat.eqb cur 0 then mangle_at fuel (cset counts col 1) header order'
      else match mangle_loop fuel header counts col cur with
           | None => None
           | Some (counts', col') => mangle_at fuel (cset counts' col' 1) (list_set header i col') order'
           end
  end.

(** The header with its empty fields named ["Unnamed: i"]. *)
Definition unnamed (header : list string) : list string :=
  map (fun p => if String.eqb (snd p) "" then "Unnamed: " ++ str_nat (fst p) else snd p)
      (combine (seq 0 (List.length header)) header).

(** [col_loop_order]: the indices of the named fields, then those of
    the empty ones ([unnamed_col_indices]). *)
Definition col_loop_order (fields : list string) : list nat :=
  (filter (fun i => negb (String.eqb (nth i fields "") "")) (seq 0 (List.length fields)) ++
   filter (fun i => String.eqb (nth i fields "") "") (seq 0 (List.length fields)))%list.

(** The header [read_csv] gives the table: the empty fields named, the
    duplicates mangled, with a fuel of one more than the number of
    fields (enough: [mangle_header_ok] below). *)
Definition mangle_header (fields : list string) : option (list string) :=
  mangle_at (S (List.length fields)) (fun _ => 0) (unnamed fields) (col_loop_order fields).

(** The tokenised export: the header fields and the typed fields of
    every data row (the index field first). *)
Record csv_text : Type := mkCsv {
  csv_header : list string;
  csv_rows : list (list raw_cell)
}.

(** The tokenizer's check: the first data row (file line [line]) with
    more than [n] fields raises. *)
Fixpoint check_rows (n line : nat) (rows : list (list raw_cell)) : result unit :=
  match rows with
  | [] => Ok tt
  | r :: rs =>
      if Nat.ltb n (List.length r) then raise (ParserError_Fields n line (List.length r))
      else check_rows n (S line) rs
  end.

(** [read_csv(file, index_col=0)]: no header line raises; otherwise
    the header named and mangled (the fallback is never taken: the
    mangling ends within its fuel), the rows checked, each column
    [j >= 1] read from every row ([NaN] past a short row's end). *)
Definition read_csv (t : csv_text) : result (frame raw_cell) :=
  match csv_header t with
  | [] => raise EmptyDataError_NoColumns
  | _ =>
      let names := match mangle_header (csv_header t) with
                   | Some ns => ns
                   | None => unnamed (csv_header t)
                   end in
      _ <- check_rows (List.length names) 2 (csv_rows t) ;;
      Ok (mkFrame (List.length (csv_rows t))
                  (map (fun j => (nth j names "", map (fun row => nth j row RNaN) (csv_rows t)))
                       (seq 1 (List.length names - 1))))
  end.

(** Lines 62-88: [loadCSV] on the export, [read_csv] then the rest. *)
Definition loadCSV_file {S : Schema} (t : csv_text) : result (frame cell) :=
  Tab <- read_csv t ;;
  loadCSV Tab.

(** ** The header mangling *)

(** The state invariant of the header loop: a count is positive exactly
    for the names at the positions already visited. *)
Definition counts_of (counts : counter) (emitted : list string) : Prop :=
  forall k, 0 < counts k <-> In k emitted.

(** The names at the positions [P] of the header. *)
Definition names_at (header : list string) (P : list nat) : list string :=
  map (fun i => nth i header "") P.

Lemma counts_of_cset_pos counts emitted col v :
  counts_of counts emitted -> 0 < counts col -> 0 < v -> counts_of (cset counts col v) emitted.
Proof.
  intros H Hc Hv k. unfold cset. destruct (String.eqb_spec k col) as [->|_]; [|apply H].
  split; [intros _; apply H, Hc|intros _; exact Hv].
Qed.

Lemma counts_of_emit counts emitted col :
  counts_of counts emitted -> counts col = 0 -> counts_of (cset counts col 1) (emitted ++ [col]).
Proof.
  intros H H0 k. unfold cset. rewrite in_app_iff. cbn.
  destruct (String.eqb_spec k col) as [->|Hne]; [split; [auto|lia]|].
  rewrite (H k). intuition congruence.
Qed.

Lemma counts_of_zero : counts_of (fun _ => 0) [].
Proof. intros k. split; [lia|intros []]. Qed.

Lemma counts_of_fresh counts emitted col :
  counts_of counts emitted -> ~ In col emitted -> counts col = 0.
Proof. intros H Hn. destruct (counts col) eqn:E; [reflexivity|exfalso; apply Hn, H; lia]. Qed.

Lemma NoDup_snoc {A} (l : list A) x : NoDup l -> ~ In x l -> NoDup (l ++ [x]).
Proof. intros Hnd Hn. exact (Permutation_NoDup (Permutation_cons_append l x) (NoDup_cons _ Hn Hnd)). Qed.

Lemma list_set_length l i x : List.length (list_set l i x) = List.length l.
Proof. revert i. induction l as [|y l IH]; intros [|i]; cbn; auto. Qed.

Lemma nth_list_set_eq l i x : i < List.length l -> nth i (list_set l i x) "" = x.
Proof. revert i. induction l as [|y l IH]; intros [|i] Hi; cbn in *; auto with arith; lia. Qed.

Lemma nth_list_set_ne l i j x : j <> i -> nth j (list_set l i x) "" = nth j l "".
Proof. revert i j. induction l as [|y l IH]; intros [|i] [|j] Hij; cbn; auto; lia. Qed.

Lemma names_at_list_set header P i x :
  ~ In i P -> names_at (list_set header i x) P = names_at header P.
Proof.
  intros Hi. apply map_ext_in. intros j Hj. apply nth_list_set_ne. intros ->. contradiction.
Qed.

Lemma names_at_incl header P :
  Forall (fun i => i < List.length header) P -> incl (names_at header P) header.
Proof.
  intros HP x Hx. apply in_map_iff in Hx as (i & <- & Hi).
  apply nth_In. exact (proj1 (Forall_forall _ _) HP i Hi).
Qed.

Lemma append_cancel_l (s t1 t2 : string) : s ++ t1 = s ++ t2 -> t1 = t2.
Proof. induction s as [|c s IH]; cbn; [auto|]. intros H. injection H. exact IH. Qed.

Lemma str_nat_inj a b : str_nat a = str_nat b -> a = b.
Proof.
  unfold str_nat. intros H. apply Unsigned.to_uint_inj.
  assert (E : Some (Nat.to_uint a) = Some (Nat.to_uint b))
    by (rewrite <- (NilEmpty.usu (Nat.to_uint a)), <- (NilEmpty.usu (Nat.to_uint b)), H; reflexivity).
  injection E. auto.
Qed.

Lemma suffixed_inj old a b : suffixed old a = suffixed old b -> a = b.
Proof. unfold suffixed. intros H. apply str_nat_inj, (append_cancel_l "."), (append_cancel_l old), H. Qed.

(** The pigeonhole bound of the inner loop: [n] consecutive suffixed
    names of one header are distinct, so there are at most as many as
    header fields. *)
Lemma suffixed_bound old header c0 n :
  (forall k, c0 <= k < c0 + n -> In (suffixed old k) header) -> n <= List.length header.
Proof.
  intros H. replace n with (List.length (map (suffixed old) (seq c0 n))) by (rewrite length_map, length_seq; reflexivity).
  apply NoDup_incl_length.
  - apply Finite.Injective_map_NoDup; [intros a b; apply suffixed_inj|apply seq_NoDup].
  - intros x Hx. apply in_map_iff in Hx as (k & <- & Hk). apply in_seq in Hk. apply H. lia.
Qed.

(** The inner loop, entered on a counted name, ends within any fuel
    above the number of header fields not yet skipped, on a name absent
    from the header and never counted, and keeps the invariant. *)
Lemma mangle_loop_ok f header counts N old c0 cur :
  counts_of counts N -> incl N header -> In old N -> c0 <= cur ->
  (forall k, c0 <= k < cur -> In (suffixed old k) header) ->
  List.length header < f + (cur - c0) ->
  exists counts' col, mangle_loop f header counts old cur = Some (counts', col) /\
    counts_of counts' N /\ counts' col = 0 /\ ~ In col header.
Proof.
  revert counts cur. induction f as [|f IH]; intros counts cur Hc Hincl Hold Hle Hvis Hf.
  - pose proof (suffixed_bound old header c0 (cur - c0)) as Hb.
    assert (cur - c0 <= List.length header) by (apply Hb; intros k Hk; apply Hvis; lia). lia.
  - cbn [mangle_loop].
    assert (Hc1 : counts_of (cset counts old (S cur)) N)
      by (apply counts_of_cset_pos; [exact Hc|apply Hc, Hold|lia]).
    destruct (existsb (String.eqb (suffixed old cur)) header) eqn:Ein.
    + cbn [Nat.eqb]. apply IH; [exact Hc1|exact Hincl|exact Hold|lia| |lia].
      intros k Hk. destruct (Nat.eq_dec k cur) as [->|Hne]; [apply existsb_eqb_In, Ein|apply Hvis; lia].
    + apply existsb_eqb_notIn in Ein.
      rewrite (counts_of_fresh _ N _ Hc1 (fun H => Ein (Hincl _ H))). cbn [Nat.eqb].
      exists (cset counts old (S cur)), (suffixed old cur).
      split; [reflexivity|]. split; [exact Hc1|]. split; [|exact Ein].
      exact (counts_of_fresh _ N _ Hc1 (fun H => Ein (Hincl _ H))).
Qed.

Lemma names_at_snoc header P i :
  names_at header (P ++ [i]) = (names_at header P ++ [nth i header ""])%list.
Proof. apply map_app. Qed.

(** A visit of the outer loop at a fresh index [i] of the header: the
    names at the visited positions grow by the name left at [i]. *)
Lemma mangle_step_names header P i col :
  ~ In i P -> i < List.length header ->
  names_at (list_set header i col) (P ++ [i]) = (names_at header P ++ [col])%list.
Proof.
  intros HiP Hi. rewrite names_at_snoc, names_at_list_set by exact HiP.
  rewrite nth_list_set_eq by exact Hi. reflexivity.
Qed.

(** The outer loop over fresh indices of the header, with a fuel above
    the number of fields: it returns a header of the same length whose
    names at the visited positions are distinct. *)
Lemma mangle_at_ok fuel counts header P order :
  counts_of counts (names_at header P) -> NoDup (names_at header P) -> NoDup (P ++ order) ->
  Forall (fun i => i < List.length header) (P ++ order) -> List.length header < fuel ->
  exists out, mangle_at fuel counts header order = Some out /\
    List.length out = List.length header /\ NoDup (names_at out (P ++ order)).
Proof.
  revert counts header P. induction order as [|i order IH]; intros counts header P Hc Hnd HP Hb Hf.
  { exists header. rewrite app_nil_r. auto. }
  assert (HiP : ~ In i P) by (intros H; apply (NoDup_remove_2 _ _ _ HP), in_app_iff; auto).
  assert (Hi : i < List.length header) by (apply (proj1 (Forall_forall _ _) Hb), in_app_iff; cbn; auto).
  assert (HbP : Forall (fun i => i < List.length header) P) by (apply Forall_app in Hb; apply Hb).
  assert (HP' : NoDup ((P ++ [i]) ++ order)) by (rewrite <- app_assoc; exact HP).
  assert (Hb' : Forall (fun i => i < List.length header) ((P ++ [i]) ++ order)) by (rewrite <- app_assoc; exact Hb).
  cbn [mangle_at].
  destruct (Nat.eqb_spec (counts (nth i header "")) 0) as [E0|E0].
  - destruct (IH (cset counts (nth i header "") 1) header (P ++ [i])%list) as (out & Eo & Hl & Hnd');
      [rewrite names_at_snoc; apply counts_of_emit; assumption
      |rewrite names_at_snoc; apply NoDup_snoc; [exact Hnd|intros H; apply Hc in H; lia]
      |exact HP'|exact Hb'|exact Hf|exists out; rewrite <- app_assoc in Hnd'; auto].
  - destruct (mangle_loop_ok fuel header counts (names_at header P) (nth i header "")
                (counts (nth i header "")) (counts (nth i header "")))
      as (counts' & col & El & Hc' & H0 & Hout);
      [exact Hc|apply names_at_incl, HbP|apply Hc; lia|lia|lia|lia|].
    rewrite El.
    assert (Hl0 := list_set_length header i col).
    destruct (IH (cset counts' col 1) (list_set header i col) (P ++ [i])%list) as (out & Eo & Hl & Hnd');
      [rewrite mangle_step_names by assumption; apply counts_of_emit; assumption
      |rewrite mangle_step_names by assumption; apply NoDup_snoc; [exact Hnd|]
      |exact HP'|rewrite Hl0; exact Hb'|lia|exists out; rewrite <- app_assoc in Hnd'; split; [exact Eo|split; [lia|exact Hnd']]].
    intros H. exact (Hout (names_at_incl header P HbP _ H)).
Qed.

Lemma filter_split_perm {A} (f : A -> bool) (l : list A) :
  Permutation (filter (fun x => negb (f x)) l ++ filter f l) l.
Proof.
  induction l as [|a l IH]; cbn; [constructor|].
  destruct (f a); cbn; [|constructor; exact IH].
  symmetry. eapply perm_trans; [apply perm_skip; symmetry; exact IH|apply Permutation_middle].
Qed.

Lemma col_loop_order_perm fields : Permutation (col_loop_order fields) (seq 0 (List.length fields)).
Proof. apply (filter_split_perm (fun i => String.eqb (nth i fields "") "")). Qed.

Lemma unnamed_length header : List.length (unnamed header) = List.length header.
Proof. unfold unnamed. rewrite length_map, length_combine, length_seq. lia. Qed.

(** The mangling ends within the fuel [mangle_header] gives it and
    returns one name per field, the names pairwise distinct. *)
Lemma mangle_header_ok fields :
  exists out, mangle_header fields = Some out /\ List.length out = List.length fields /\ NoDup out.
Proof.
  pose proof (col_loop_order_perm fields) as Hp.
  destruct (mangle_at_ok (S (List.length fields)) (fun _ => 0) (unnamed fields) [] (col_loop_order fields))
    as (out & E & Hl & Hnd); [exact counts_of_zero|constructor
    |exact (Permutation_NoDup (Permutation_sym Hp) (seq_NoDup _ _))
    |apply Forall_forall; intros i Hi; apply (Permutation_in _ Hp), in_seq in Hi; rewrite unnamed_length; lia
    |rewrite unnamed_length; lia|].
  rewrite unnamed_length in Hl. exists out. split; [exact E|split; [exact Hl|]].
  rewrite <- (map_nth_seq out ""). rewrite Hl.
  exact (Permutation_NoDup (Permutation_map _ Hp) Hnd).
Qed.

(** The parser's header loop on a header [a, a, a.1]: the second [a]
    skips [a.1], which the header holds, and becomes [a.2]. *)
Example mangle_header_skips :
  mangle_header ["ID"; "a"; "a"; "a.1"; ""] = Some ["ID"; "a"; "a.2"; "a.1"; "Unnamed: 4"].
Proof. vm_compute. reflexivity. Qed.

(** ** The table [read_csv] returns *)

Lemma map_nth_seq_tl {A} (l : list A) d :
  map (fun j => nth j l d) (seq 1 (List.length l - 1)) = tl l.
Proof.
  destruct l as [|a l]; [reflexivity|]. cbn [List.length tl]. replace (S (List.length l) - 1) with (List.length l) by lia.
  rewrite <- seq_shift, map_map. cbn [nth]. apply map_nth_seq.
Qed.

(** On a file with a header line, [read_csv] checks the rows against
    the mangled header and reads the columns but the index. *)
Lemma read_csv_header t :
  csv_header t <> [] ->
  exists names, List.length names = List.length (csv_header t) /\ NoDup names /\
    read_csv t = (_ <- check_rows (List.length names) 2 (csv_rows t) ;;
                  Ok (mkFrame (List.length (csv_rows t))
                        (map (fun j => (nth j names "", map (fun row => nth j row RNaN) (csv_rows t)))
                             (seq 1 (List.length names - 1))))).
Proof.
  intros Hne. destruct (mangle_header_ok (csv_header t)) as (names & E & Hl & Hnd).
  exists names. split; [exact Hl|split; [exact Hnd|]].
  unfold read_csv. destruct (csv_header t); [contradiction|]. rewrite E. reflexivity.
Qed.

Lemma check_rows_Err n line rows e :
  check_rows n line rows = Err e ->
  exists i r, nth_error rows i = Some r /\ n < List.length r /\ e = ParserError_Fields n (line + i) (List.length r).
Proof.
  revert line. induction rows as [|r rs IH]; intros line; cbn [check_rows]; [discriminate|].
  destruct (Nat.ltb n (List.length r)) eqn:Hlt.
  - intros H. injection H as H. subst e. apply Nat.ltb_lt in Hlt.
    exists 0, r. rewrite Nat.add_0_r. auto.
  - intros H. destruct (IH (S line) H) as (i & r' & Hi & Hlt' & ->).
    exists (S i), r'. rewrite Nat.add_succ_r. auto.
Qed.

Lemma read_csv_Ok t T :
  read_csv t = Ok T ->
  wf_frame T /\ NoDup (columns T) /\ nrows T = List.length (csv_rows t) /\
  List.length (columns T) = List.length (csv_header t) - 1.
Proof.
  destruct (csv_header t) eqn:Eh; [unfold read_csv; rewrite Eh; discriminate|].
  destruct (read_csv_header t) as (names & Hl & Hnd & ->); [rewrite Eh; discriminate|].
  rewrite <- Eh. destruct (check_rows _ _ _); cbn [bind]; [|discriminate]. intros [= <-].
  assert (Hc : columns (mkFrame (List.length (csv_rows t))
                 (map (fun j => (nth j names "", map (fun row => nth j row RNaN) (csv_rows t)))
                      (seq 1 (List.length names - 1)))) = tl names)
    by (unfold columns; cbn [cols]; rewrite map_map; apply map_nth_seq_tl).
  rewrite Hc. split; [|split; [destruct names; [constructor|inversion Hnd; assumption]|]].
  - unfold wf_frame. cbn [cols nrows]. apply Forall_map, Forall_forall. intros j _. apply length_map.
  - split; [reflexivity|]. rewrite length_tl, Hl. reflexivity.
Qed.

(** A field past the end of a short row is read as [NaN]. *)
Lemma read_csv_pads t T i r k :
  read_csv t = Ok T -> nth_error (csv_rows t) i = Some r -> List.length r <= S k ->
  k < List.length (cols T) ->
  exists name s, nth_error (cols T) k = Some (name, s) /\ nth_error s i = Some RNaN.
Proof.
  unfold read_csv. destruct (csv_header t); [discriminate|].
  destruct (check_rows _ _ _); cbn [bind]; [|discriminate]. intros [= <-] Hi Hr Hk.
  cbn [cols] in Hk |- *. rewrite length_map, length_seq in Hk.
  rewrite nth_error_map, nth_error_seq. apply Nat.ltb_lt in Hk. rewrite Hk. cbn [option_map].
  do 2 eexists. split; [reflexivity|]. rewrite nth_error_map, Hi. cbn [option_map].
  rewrite nth_overflow by lia. reflexivity.
Qed.

(** The errors of [read_csv]: [EmptyDataError] without a header line,
    else the parser's, on the first row longer than the header. *)
Lemma read_csv_Err t e :
  read_csv t = Err e ->
  (csv_header t = [] /\ e = EmptyDataError_NoColumns) \/
  exists i r, nth_error (csv_rows t) i = Some r /\ List.length (csv_header t) < List.length r /\
    e = ParserError_Fields (List.length (csv_header t)) (2 + i) (List.length r).
Proof.
  destruct (csv_header t) eqn:Eh.
  - unfold read_csv. rewrite Eh. intros [= <-]. auto.
  - destruct (read_csv_header t) as (names & Hl & _ & ->); [rewrite Eh; discriminate|].
    rewrite <- Eh, <- Hl. destruct (check_rows _ _ _) as [[]|e'] eqn:Ec; cbn [bind]; [discriminate|].
    intros [= <-]. right. exact (check_rows_Err _ _ _ _ Ec).
Qed.

(** ** Theorems *)

(** C12: [read_csv] returns a well-formed table, one row per data row,
    with distinct column labels (the mangled header), one per header
    field but the index; a row shorter than the header is completed
    with NaN, silently; its errors are [EmptyDataError] on a file
    without a header line and the parser's error on the first data row
    with more fields than the header. *)
Theorem read_csv_table t :
  (forall T, read_csv t = Ok T ->
     wf_frame T /\ NoDup (columns T) /\ nrows T = List.length (csv_rows t) /\
     List.length (columns T) = List.length (csv_header t) - 1) /\
  (forall T i r k, read_csv t = Ok T -> nth_error (csv_rows t) i = Some r ->
     List.length r <= S k -> k < List.length (cols T) ->
     exists name s, nth_error (cols T) k = Some (name, s) /\ nth_error s i = Some RNaN) /\
  (forall e, read_csv t = Err e ->
     (csv_header t = [] /\ e = EmptyDataError_NoColumns) \/
     exists i r, nth_error (csv_rows t) i = Some r /\ List.length (csv_header t) < List.length r /\
       e = ParserError_Fields (List.length (csv_header t)) (2 + i) (List.length r)).
Proof.
  split; [apply read_csv_Ok|]. split; [intros; eapply read_csv_pads; eassumption|]. apply read_csv_Err.
Qed.

(** C9: [loadCSV] on the tokenised export, [read_csv] included, raises
    nothing but [read_csv]'s two errors ([EmptyDataError], the parser's
    error) and the three errors of lines 68-88, for every header and
    rows: the distinct labels [loadCSV] needs are guaranteed by the
    header mangling.  (The decoding before tokenising, where a
    [UnicodeError] arises, is not modelled.) *)
Theorem loadCSV_file_safe {S : Schema} {WF : SchemaWF S} t :
  (exists T, loadCSV_file t = Ok T) \/ loadCSV_file t = Err ValueError_NoURL \/
  loadCSV_file t = Err (ValueError_Size (List.length order_short) (List.length order_long)) \/
  (exists col, loadCSV_file t = Err (TypeError_Operand col)) \/
  (exists n l m, loadCSV_file t = Err (ParserError_Fields n l m)) \/
  loadCSV_file t = Err EmptyDataError_NoColumns.
Proof.
  unfold loadCSV_file. destruct (read_csv t) as [Tab|e] eqn:Er; cbn [bind].
  - destruct (read_csv_Ok t Tab Er) as (_ & Hnd & _).
    destruct (loadCSV_cases Tab Hnd) as [(u & _ & _ & _ & E)|[E|[E|(col & E)]]]; rewrite E; eauto 7.
  - destruct (read_csv_Err t e Er) as [(_ & ->)|(i & r & _ & _ & ->)]; eauto 10.
Qed.

Lemma read_csv_table_witness :
  read_csv (mkCsv ["ID"; "QP1*"; "QP1*"] [[RNum 1%Z; RNum 5%Z]; [RNum 2%Z; RNum 6%Z; RNum 3%Z; RNaN]])
    = Err (ParserError_Fields 3 3 4) /\
  ((["ID"; "QP1*"; "QP1*"] = [] /\ ParserError_Fields 3 3 4 = EmptyDataError_NoColumns) \/
   exists i r, nth_error [[RNum 1%Z; RNum 5%Z]; [RNum 2%Z; RNum 6%Z; RNum 3%Z; RNaN]] i = Some r /\
    3 < List.length r /\ ParserError_Fields 3 3 4 = ParserError_Fields 3 (2 + i) (List.length r)).
Proof.
  assert (E : read_csv (mkCsv ["ID"; "QP1*"; "QP1*"] [[RNum 1%Z; RNum 5%Z]; [RNum 2%Z; RNum 6%Z; RNum 3%Z; RNaN]])
                = Err (ParserError_Fields 3 3 4)) by (vm_compute; reflexivity).
  split; [exact E|]. exact (proj2 (proj2 (read_csv_table _)) _ E).
Defined.

Lemma loadCSV_file_safe_witness :
  let t := mkCsv ["ID"; "QP1"; "URL"] [[RNum 1%Z; RNum 5%Z; RText "u"]] in
  ((exists T, loadCSV_file t = Ok T) \/ loadCSV_file t = Err ValueError_NoURL \/
   loadCSV_file t = Err (ValueError_Size 10 28) \/
   (exists col, loadCSV_file t = Err (TypeError_Operand col)) \/
   (exists n l m, loadCSV_file t = Err (ParserError_Fields n l m)) \/
   loadCSV_file t = Err EmptyDataError_NoColumns) /\
  loadCSV_file t = Err (ValueError_Size 10 28).
Proof.
  split; [exact (@loadCSV_file_safe attrakdiff_schema attrakdiff_wf _)|vm_compute; reflexivity].
Defined.
