(* ===== verification/Categories.v ===== *)
(** * The categorizer: [cat2dict] (attrakdiff.py, lines 91-95)

    [cat2dict(data)] groups the columns of a normalised table by
    category: for each name of [categories], in order, the columns whose
    label contains that name as a substring, in column order.  The
    aggregators of Plots.v call it on the first dataset.

    The theorems: the number of times a column occurs in the groups is
    its number of occurrences times the number of category names it
    contains; hence, when every column contains exactly one category
    name, the groups partition the columns (their concatenation is a
    permutation of the columns); with the AttrakDiff vocabulary every
    canonical key contains exactly one name, so [cat2dict] partitions
    the columns of every normalised table. *)

From S2P Require Import Prelude Naming Frame LoadCSV.
From Stdlib Require Import String List Lia Permutation.
Import ListNotations.
Local Open Scope string_scope.

Section Cat.
Context {S : Schema}.

(** Lines 91-95. *)
Definition cat2dict (data : frame cell) : list (string * list string) :=
  map (fun name => (name, filter (fun col => str_contains name col) (columns data)))
      categories.

(** The number of category names a column label contains. *)
Definition category_count (col : string) : nat :=
  List.length (filter (fun name => str_contains name col) categories).

(** A table with the given columns and no row. *)
Definition header_frame (keys : list string) : frame cell :=
  mkFrame 0 (map (fun k => (k, [])) keys).

End Cat.

Lemma count_occ_filter (f : string -> bool) (l : list string) x :
  count_occ string_dec (filter f l) x = if f x then count_occ string_dec l x else 0.
Proof.
  induction l as [|y l IH]; simpl; [destruct (f x); reflexivity|].
  destruct (f y) eqn:Ey; simpl; destruct (string_dec y x) as [->|Hne];
    rewrite ?IH, ?Ey; reflexivity.
Qed.

Section CatFacts.
Context {S : Schema}.

(** A column occurs in the groups once per occurrence and per category
    name it contains. *)
Lemma cat2dict_count (data : frame cell) col :
  count_occ string_dec (concat (map snd (cat2dict data))) col
  = count_occ string_dec (columns data) col * category_count col.
Proof.
  unfold cat2dict, category_count. rewrite map_map. cbn [snd].
  induction categories as [|name cats IH]; simpl; [lia|].
  rewrite count_occ_app, IH, count_occ_filter.
  destruct (str_contains name col); simpl; lia.
Qed.

Lemma cat2dict_perm (data : frame cell) :
  Forall (fun col => category_count col = 1) (columns data) ->
  Permutation (concat (map snd (cat2dict data))) (columns data).
Proof.
  intros H. apply (Permutation_count_occ string_dec). intros col.
  rewrite cat2dict_count.
  destruct (in_dec string_dec col (columns data)) as [Hin|Hout].
  - rewrite Forall_forall in H. rewrite (H col Hin). lia.
  - apply (count_occ_not_In string_dec) in Hout. rewrite Hout. reflexivity.
Qed.

(** C13: When every column of the table contains exactly one
    category name, the groups of [cat2dict] together hold every column
    exactly as often as the table does: their concatenation is a
    permutation of the columns. *)
Theorem cat2dict_partition (data : frame cell) :
  Forall (fun col => category_count col = 1) (columns data) ->
  Permutation (concat (map snd (cat2dict data))) (columns data).
Proof. intros. eapply cat2dict_perm; eassumption. Qed.

End CatFacts.

(** Every AttrakDiff key contains exactly one category name. *)
Lemma attrakdiff_category_count :
  Forall (fun col => category_count col = 1) attrakdiff_pairs.
Proof. repeat constructor. Qed.

Lemma attrakdiff_cat2dict_perm (data : frame cell) :
  incl (columns data) attrakdiff_pairs ->
  Permutation (concat (map snd (cat2dict data))) (columns data).
Proof.
  intros H. apply cat2dict_perm. rewrite Forall_forall. intros col Hc.
  pose proof attrakdiff_category_count as Hall. rewrite Forall_forall in Hall.
  exact (Hall col (H col Hc)).
Qed.

(** With the AttrakDiff schema, [cat2dict] partitions the columns
    of every table whose columns are canonical keys, in particular of
    every table [loadCSV] returns. *)
Theorem attrakdiff_cat2dict_partition (data : frame cell) :
  incl (columns data) attrakdiff_pairs ->
  Permutation (concat (map snd (cat2dict data))) (columns data).
Proof. intros. eapply attrakdiff_cat2dict_perm; eassumption. Qed.

Lemma attrakdiff_cat2dict_partition_witness :
  Permutation (concat (map snd (cat2dict (header_frame attrakdiff_pairs))))
              (columns (header_frame attrakdiff_pairs)).
Proof.
  apply attrakdiff_cat2dict_partition. apply incl_b_spec. vm_compute. reflexivity.
Defined.

Lemma cat2dict_partition_witness :
  Permutation (concat (map snd (cat2dict (S:=attrakdiff_schema) (header_frame ["QP1"; "ATT2"; "QHS3"]))))
              (columns (header_frame ["QP1"; "ATT2"; "QHS3"])).
Proof. apply cat2dict_partition. repeat constructor. Defined.

