(* ===== verification/Interval.v ===== *)
(** * The interval estimator: [interval] (attrakdiff.py, lines 49-56)

    [interval(data, alpha)] returns the mean of the sample and
    [stats.t.interval(alpha, len(data)-1, loc=mean, scale=stats.sem(data))].
    scipy's [t.interval(confidence, df, loc, scale)] raises a ValueError
    when [confidence] is outside [0, 1], and otherwise returns the two
    quantiles [ppf((1-confidence)/2)] and [ppf((1+confidence)/2)] of the
    t distribution with [df] degrees of freedom, shifted by [loc] and
    scaled by [scale]; [ppf] is [NaN] unless [df > 0], [scale > 0] and
    [loc] is a number, is [-inf] at 0, [+inf] at 1, and
    [loc + scale * t_ppf(q, df)] in between.

    The standard quantile [t_ppf] is not computable here: it is the
    interface [StudentT], whose laws are the ones the proofs use (zero at
    1/2, symmetry, monotonicity).  [linear_quantile] is an instance
    satisfying them (not the t quantile), so that the laws are
    consistent and the witnesses have something to run on.

    The sample mean and the squared standard error are computed exactly
    in Q; the endpoints, which need a square root, are reals, and numpy's
    float results are [xreal]s: a finite real, [-inf], [+inf] or [NaN].
    [stats.sem] is [sqrt(ss/(n-1))/sqrt(n)]; the model keeps its square
    [ss/((n-1) n)] in Q, decides [scale > 0] on it, and takes the square
    root at the end ([sem_formula] relates the two forms). *)

From S2P Require Import Prelude.
From Stdlib Require Import ZArith QArith Qreals Reals Psatz Lia List.
Import ListNotations.

(** A numpy float. *)
Inductive xreal : Type :=
| XFin (r : R)
| XNegInf
| XPosInf
| XNaN.

(** The standard Student t quantile function (scipy's [t._ppf(q, df)],
    for [0 < q < 1] and [df > 0]). *)
Class StudentT : Type := {
  t_ppf : R -> R -> R;
  t_ppf_half : forall df, (0 < df)%R -> t_ppf (1/2) df = 0%R;
  t_ppf_sym : forall q df, (0 < q < 1)%R -> (0 < df)%R -> t_ppf (1 - q) df = (- t_ppf q df)%R;
  t_ppf_mono : forall q1 q2 df, (0 < q1)%R -> (q1 <= q2)%R -> (q2 < 1)%R -> (0 < df)%R ->
                 (t_ppf q1 df <= t_ppf q2 df)%R
}.

Open Scope Q_scope.

(** [q < r] as a boolean. *)
Definition Qltb (q r : Q) : bool := negb (Qle_bool r q).

(** The sum of squared deviations from [m]. *)
Definition sum_sq_dev (data : list Z) (m : Q) : Q :=
  qsum (map (fun x => (inject_Z x - m) * (inject_Z x - m)) data).

(** [stats.sem(data)] squared: [ss / ((n-1) n)]; [NaN] ([None]) below two
    values (numpy's [ddof=1] variance divides by zero). *)
Definition sem2 (data : list Z) : option Q :=
  match zmean data with
  | Some m =>
      if Nat.leb 2 (List.length data)
      then Some (sum_sq_dev data m /
                 (inject_Z (Z.of_nat (List.length data) - 1) * inject_Z (Z.of_nat (List.length data))))
      else None
  | None => None
  end.

Section Estimator.
Context {T : StudentT}.

(** [stats.t.ppf(q, df, loc=loc, scale=sqrt(scale2))]. *)
Definition ppf (q : Q) (df : Z) (loc : option Q) (scale2 : option Q) : xreal :=
  match loc, scale2 with
  | Some m, Some v =>
      if Z.ltb 0 df && Qltb 0 v then
        if Qeq_bool q 0 then XNegInf
        else if Qeq_bool q 1 then XPosInf
        else if Qltb 0 q && Qltb q 1
             then XFin (Q2R m + sqrt (Q2R v) * t_ppf (Q2R q) (IZR df))%R
             else XNaN
      else XNaN
  | _, _ => XNaN
  end.

(** [stats.t.interval(alpha, df, loc, scale)] *)
Definition t_interval (alpha : Q) (df : Z) (loc : option Q) (scale2 : option Q)
    : result (xreal * xreal) :=
  if Qltb 1 alpha || Qltb alpha 0 then raise ValueError_Confidence
  else Ok (ppf ((1 - alpha) / 2) df loc scale2, ppf ((1 + alpha) / 2) df loc scale2).

(** Lines 49-56. *)
Definition interval (data : list Z) (alpha : Q) : result (option Q * (xreal * xreal)) :=
  let mean := zmean data in
  i <- t_interval alpha (Z.of_nat (List.length data) - 1) mean (sem2 data) ;;
  Ok (mean, i).

End Estimator.

(** A quantile function satisfying the laws of [StudentT]. *)
#[export] Program Instance linear_quantile : StudentT := {| t_ppf q df := (q - 1/2)%R |}.
Next Obligation. lra. Qed.
Next Obligation. lra. Qed.
Next Obligation. lra. Qed.

(** A sample whose values are not all equal. *)
Definition varied (data : list Z) : Prop :=
  exists x y, In x data /\ In y data /\ x <> y.

(** A sample for the witnesses. *)
Definition sample_123 : list Z := [1; 2; 3]%Z.

(** ** Lemmas on the exact statistics *)

Ltac qlra := unfold Qdiv in *; change (/ 2) with (1#2) in *; lra.

Lemma Qltb_iff q r : Qltb q r = true <-> q < r.
Proof.
  unfold Qltb. rewrite negb_true_iff. split.
  - intros E. destruct (Qlt_le_dec q r) as [H|H]; [exact H|].
    apply Qle_bool_iff in H. congruence.
  - intros H. destruct (Qle_bool r q) eqn:E; [|reflexivity].
    apply Qle_bool_iff in E. lra.
Qed.

Lemma Qltb_false q r : r <= q -> Qltb q r = false.
Proof.
  intros H. destruct (Qltb q r) eqn:E; [|reflexivity].
  apply Qltb_iff in E. lra.
Qed.

Lemma Qeq_bool_false q r : ~ q == r -> Qeq_bool q r = false.
Proof.
  intros H. destruct (Qeq_bool q r) eqn:E; [|reflexivity]. apply Qeq_bool_iff in E. contradiction.
Qed.

Lemma qsum_nonneg (g : Z -> Q) l : (forall x, 0 <= g x) -> 0 <= qsum (map g l).
Proof.
  intros H. induction l as [|x l IH]; simpl; [lra|]. specialize (H x). lra.
Qed.

Lemma qsum_ge_elem (g : Z -> Q) l x :
  (forall y, 0 <= g y) -> In x l -> g x <= qsum (map g l).
Proof.
  intros H. induction l as [|y l IH]; simpl; [tauto|].
  intros [<-|Hx].
  - pose proof (qsum_nonneg g l H). lra.
  - specialize (IH Hx). specialize (H y). lra.
Qed.

Lemma Qsquare_pos d : ~ d == 0 -> 0 < d * d.
Proof. intros Hd. destruct (Q_dec d 0) as [[H|H]|H]; [nra|nra|contradiction]. Qed.

Lemma zmean_Some (data : list Z) : data <> [] -> exists m, zmean data = Some m.
Proof. destruct data; [congruence|]. intros _. eexists. reflexivity. Qed.

(** A varied sample has at least two values and a positive squared
    standard error. *)
Lemma sem2_varied data :
  varied data ->
  (2 <= List.length data)%nat /\
  exists m v, zmean data = Some m /\ sem2 data = Some v /\ 0 < v.
Proof.
  intros (x & y & Hx & Hy & Hxy).
  assert (Hlen : (2 <= List.length data)%nat).
  { destruct data as [|a [|b l]]; simpl in *; [tauto|destruct Hx, Hy; subst; [congruence|tauto..]|lia]. }
  split; [exact Hlen|].
  destruct (zmean_Some data) as [m Hm]; [intros ->; contradiction|].
  exists m. eexists. split; [exact Hm|]. unfold sem2. rewrite Hm.
  apply Nat.leb_le in Hlen. rewrite Hlen. split; [reflexivity|].
  apply Nat.leb_le in Hlen.
  assert (Hsq : forall z : Z, 0 <= (inject_Z z - m) * (inject_Z z - m))
    by (intros z; generalize (inject_Z z - m); intros a; nra).
  assert (Hpos : 0 < sum_sq_dev data m).
  { unfold sum_sq_dev.
    assert (Hterm : forall z, ~ inject_Z z == m -> 0 < (inject_Z z - m) * (inject_Z z - m)).
    { intros z Hz. apply Qsquare_pos. intros H. apply Hz. lra. }
    destruct (Qeq_dec (inject_Z x) m) as [Ex|Ex].
    - assert (Ey : ~ inject_Z y == m).
      { intros Ey. apply Hxy, inject_Z_injective. rewrite Ex, Ey. reflexivity. }
      pose proof (qsum_ge_elem _ data y Hsq Hy). pose proof (Hterm y Ey). cbv beta in *. lra.
    - pose proof (qsum_ge_elem _ data x Hsq Hx). pose proof (Hterm x Ex). cbv beta in *. lra. }
  unfold Qdiv. apply Qmult_lt_0_compat; [exact Hpos|]. apply Qinv_lt_0_compat.
  rewrite <- inject_Z_mult. change 0 with (inject_Z 0). rewrite <- Zlt_Qlt. nia.
Qed.

(** A constant sample of two values or more has a zero squared standard
    error. *)
Lemma sem2_constant c n :
  (2 <= n)%nat ->
  exists m v, zmean (repeat c n) = Some m /\ m == inject_Z c /\ sem2 (repeat c n) = Some v /\ v == 0.
Proof.
  intros Hn. destruct n as [|n']; [lia|].
  assert (Hm : zmean (repeat c (S n')) = Some (qsum (map inject_Z (repeat c (S n'))) /
              inject_Z (Z.of_nat (S n')))).
  { rewrite zmean_eq by discriminate. rewrite repeat_length. reflexivity. }
  assert (Hsum : forall k, qsum (map inject_Z (repeat c k)) == inject_Z (Z.of_nat k) * inject_Z c).
  { induction k as [|k IH]; cbn [repeat map qsum fold_right].
    - unfold Qeq. simpl. lia.
    - unfold qsum in IH. rewrite IH, <- !inject_Z_mult, <- inject_Z_plus.
      apply inject_Z_injective. lia. }
  set (m := qsum (map inject_Z (repeat c (S n'))) / inject_Z (Z.of_nat (S n'))) in Hm.
  assert (Hmc : m == inject_Z c).
  { unfold m. rewrite Hsum. field. intros H. unfold Qeq in H. cbn in H. lia. }
  exists m, (sum_sq_dev (repeat c (S n')) m /
          (inject_Z (Z.of_nat (List.length (repeat c (S n'))) - 1) *
           inject_Z (Z.of_nat (List.length (repeat c (S n')))))).
  split; [exact Hm|]. split; [exact Hmc|]. split.
  - unfold sem2. rewrite Hm. rewrite repeat_length. apply Nat.leb_le in Hn. rewrite Hn. reflexivity.
  - assert (Hss : forall k, sum_sq_dev (repeat c k) m == 0).
    { intros k. unfold sum_sq_dev. induction k as [|k IH]; simpl; [reflexivity|].
      rewrite IH, Hmc. ring. }
    rewrite Hss. unfold Qdiv. ring.
Qed.

(** [sem2] is the square of scipy's [stats.sem]: [std(ddof=1)/sqrt(n)]. *)
Lemma sem_formula data m v :
  zmean data = Some m -> sem2 data = Some v ->
  sqrt (Q2R v) = (sqrt (Q2R (sum_sq_dev data m / inject_Z (Z.of_nat (List.length data) - 1)))
                  / sqrt (INR (List.length data)))%R.
Proof.
  intros Hm Hv. unfold sem2 in Hv. rewrite Hm in Hv.
  destruct (Nat.leb_spec 2 (List.length data)) as [Hn|]; [|discriminate]. injection Hv as <-.
  set (n := List.length data) in *.
  rewrite <- sqrt_div_alt by (apply lt_0_INR; lia). f_equal.
  assert (HnR : INR n = Q2R (inject_Z (Z.of_nat n))).
  { unfold Q2R. simpl. rewrite INR_IZR_INZ. field. }
  rewrite HnR, <- Q2R_div by (unfold Qeq; simpl; lia).
  apply Qeq_eqR. field. split; unfold Qeq; simpl; lia.
Qed.

(** ** The interval *)

Lemma Q2R_two : Q2R 2 = 2%R.
Proof. unfold Q2R. simpl. lra. Qed.

Lemma Q2R_half_minus a : Q2R ((1 - a) / 2) = ((1 - Q2R a) / 2)%R.
Proof.
  rewrite Q2R_div by (unfold Qeq; simpl; discriminate).
  rewrite Q2R_minus, RMicromega.Q2R_1, Q2R_two. reflexivity.
Qed.

Lemma Q2R_half_plus a : Q2R ((1 + a) / 2) = ((1 + Q2R a) / 2)%R.
Proof.
  rewrite Q2R_div by (unfold Qeq; simpl; discriminate).
  rewrite Q2R_plus, RMicromega.Q2R_1, Q2R_two. reflexivity.
Qed.

Lemma alpha_R a : 0 <= a -> a < 1 -> (0 <= Q2R a < 1)%R.
Proof.
  intros H0 H1. apply Qle_Rle in H0. apply Qlt_Rlt in H1.
  rewrite RMicromega.Q2R_0 in H0. rewrite RMicromega.Q2R_1 in H1. lra.
Qed.

Section IntervalFacts.
Context {T : StudentT}.

Lemma ppf_finite q df m v :
  0 < q -> q < 1 -> (0 < df)%Z -> 0 < v ->
  ppf q df (Some m) (Some v) = XFin (Q2R m + sqrt (Q2R v) * t_ppf (Q2R q) (IZR df))%R.
Proof.
  intros Hq0 Hq1 Hdf Hv. unfold ppf.
  rewrite (proj2 (Z.ltb_lt _ _) Hdf), (proj2 (Qltb_iff _ _) Hv). cbn [andb].
  rewrite !Qeq_bool_false by (intros E; lra).
  rewrite (proj2 (Qltb_iff _ _) Hq0), (proj2 (Qltb_iff _ _) Hq1). reflexivity.
Qed.

Lemma ppf_nan_scale q df m v : ~ 0 < v -> ppf q df (Some m) (Some v) = XNaN.
Proof.
  intros Hv. unfold ppf. destruct (Qltb 0 v) eqn:E; [apply Qltb_iff in E; contradiction|].
  rewrite andb_false_r. reflexivity.
Qed.

Lemma t_interval_ok alpha df loc v :
  0 <= alpha -> alpha <= 1 ->
  t_interval alpha df loc v = Ok (ppf ((1 - alpha) / 2) df loc v, ppf ((1 + alpha) / 2) df loc v).
Proof.
  intros H0 H1. unfold t_interval. rewrite !Qltb_false by assumption. reflexivity.
Qed.

(** [interval] raises only on the confidence level. *)
Lemma interval_eq data alpha :
  0 <= alpha <= 1 ->
  interval data alpha =
    Ok (zmean data, (ppf ((1 - alpha) / 2) (Z.of_nat (List.length data) - 1) (zmean data) (sem2 data),
                     ppf ((1 + alpha) / 2) (Z.of_nat (List.length data) - 1) (zmean data) (sem2 data))).
Proof. intros [H0 H1]. unfold interval. rewrite t_interval_ok by assumption. reflexivity. Qed.

Lemma interval_varied_ok data alpha :
  varied data -> 0 <= alpha -> alpha < 1 ->
  exists m v, zmean data = Some m /\ sem2 data = Some v /\ 0 < v /\
    let h := (sqrt (Q2R v) * t_ppf ((1 + Q2R alpha) / 2) (IZR (Z.of_nat (List.length data) - 1)))%R in
    interval data alpha = Ok (Some m, (XFin (Q2R m - h), XFin (Q2R m + h))) /\ (0 <= h)%R.
Proof.
  intros Hv Ha0 Ha1.
  destruct (sem2_varied data Hv) as [Hlen (m & v & Hm & Hs & Hpos)].
  exists m, v. do 3 (split; [assumption|]). intros h.
  assert (Hdf : (0 < Z.of_nat (List.length data) - 1)%Z) by lia.
  assert (Rdf : (0 < IZR (Z.of_nat (List.length data) - 1))%R) by (apply IZR_lt; exact Hdf).
  destruct (alpha_R alpha Ha0 Ha1) as [Ra0 Ra1].
  unfold interval. rewrite Hm, Hs, t_interval_ok by lra. cbn [bind].
  rewrite !ppf_finite by (try qlra; exact Hdf).
  rewrite Q2R_half_minus, Q2R_half_plus.
  replace ((1 - Q2R alpha) / 2)%R with (1 - (1 + Q2R alpha) / 2)%R by lra.
  rewrite t_ppf_sym by lra. split.
  - replace (Q2R m + sqrt (Q2R v) * - t_ppf ((1 + Q2R alpha) / 2) _)%R with (Q2R m - h)%R
      by (unfold h; ring). reflexivity.
  - unfold h. apply Rmult_le_pos; [apply sqrt_pos|].
    rewrite <- (t_ppf_half _ Rdf). apply t_ppf_mono; lra.
Qed.

(** C14: For a sample whose values are not all equal and a
    confidence level [alpha] in [0, 1), [interval] returns the sample
    mean and a finite interval centred on it, of half-width
    [sem * t_ppf((1+alpha)/2, n-1) >= 0]. *)
Theorem interval_varied data alpha :
  varied data -> 0 <= alpha -> alpha < 1 ->
  exists m v, zmean data = Some m /\ sem2 data = Some v /\ 0 < v /\
    let h := (sqrt (Q2R v) * t_ppf ((1 + Q2R alpha) / 2) (IZR (Z.of_nat (List.length data) - 1)))%R in
    interval data alpha = Ok (Some m, (XFin (Q2R m - h), XFin (Q2R m + h))) /\ (0 <= h)%R.
Proof. intros. eapply interval_varied_ok; eassumption. Qed.

Lemma interval_varied_endpoints data alpha m l u :
  varied data -> 0 <= alpha -> alpha < 1 ->
  interval data alpha = Ok (Some m, (XFin l, XFin u)) ->
  exists v, sem2 data = Some v /\
    l = (Q2R m - sqrt (Q2R v) * t_ppf ((1 + Q2R alpha) / 2) (IZR (Z.of_nat (List.length data) - 1)))%R /\
    u = (Q2R m + sqrt (Q2R v) * t_ppf ((1 + Q2R alpha) / 2) (IZR (Z.of_nat (List.length data) - 1)))%R.
Proof.
  intros Hv Ha0 Ha1 Hi.
  destruct (interval_varied_ok data alpha Hv Ha0 Ha1) as (m' & v & _ & Hs & _ & H). cbv zeta in H.
  destruct H as [Hi' _]. rewrite Hi' in Hi. injection Hi as -> <- <-. eauto.
Qed.

(** With confidence 0 the interval of a varied sample is the
    single point of the mean. *)
Theorem interval_zero_confidence data :
  varied data ->
  exists m, zmean data = Some m /\ interval data 0 = Ok (Some m, (XFin (Q2R m), XFin (Q2R m))).
Proof.
  intros Hv. destruct (sem2_varied data Hv) as [Hlen _].
  destruct (interval_varied_ok data 0 Hv) as (m & v & Hm & _ & _ & H); [lra|lra|]. cbv zeta in H.
  destruct H as [Hi _]. exists m. split; [exact Hm|]. rewrite Hi.
  rewrite RMicromega.Q2R_0. replace ((1 + 0) / 2)%R with (1 / 2)%R by lra.
  rewrite t_ppf_half by (apply IZR_lt; lia). rewrite Rmult_0_r, Rminus_0_r, Rplus_0_r. reflexivity.
Qed.

(** C15: For a varied sample the intervals are nested: a higher
    confidence level gives a wider interval, and every interval contains
    the mean. *)
Theorem interval_nested data a1 a2 m1 m2 l1 u1 l2 u2 :
  varied data -> 0 <= a1 -> a1 <= a2 -> a2 < 1 ->
  interval data a1 = Ok (Some m1, (XFin l1, XFin u1)) ->
  interval data a2 = Ok (Some m2, (XFin l2, XFin u2)) ->
  m1 = m2 /\ (l2 <= l1 <= Q2R m1)%R /\ (Q2R m1 <= u1 <= u2)%R.
Proof.
  intros Hv H0 H12 H2 E1 E2.
  destruct (sem2_varied data Hv) as [Hlen _].
  assert (Hm : m1 = m2).
  { unfold interval in E1, E2. destruct (t_interval _ _ _ _); [|discriminate].
    destruct (t_interval a2 _ _ _); [|discriminate]. cbn in E1, E2. congruence. }
  subst m2. split; [reflexivity|].
  destruct (interval_varied_endpoints data a1 m1 l1 u1 Hv H0 ltac:(lra) E1) as (v & Hs & -> & ->).
  destruct (interval_varied_endpoints data a2 m1 l2 u2 Hv ltac:(lra) H2 E2) as (v' & Hs' & -> & ->).
  rewrite Hs in Hs'. injection Hs' as <-.
  destruct (alpha_R a1 H0 ltac:(lra)). destruct (alpha_R a2 ltac:(lra) H2).
  assert (Rdf : (0 < IZR (Z.of_nat (List.length data) - 1))%R) by (apply IZR_lt; lia).
  apply Qle_Rle in H12.
  assert (Ht1 : (0 <= t_ppf ((1 + Q2R a1) / 2) (IZR (Z.of_nat (List.length data) - 1)))%R).
  { rewrite <- (t_ppf_half _ Rdf). apply t_ppf_mono; lra. }
  assert (Ht : (t_ppf ((1 + Q2R a1) / 2) (IZR (Z.of_nat (List.length data) - 1)) <=
                t_ppf ((1 + Q2R a2) / 2) (IZR (Z.of_nat (List.length data) - 1)))%R)
    by (apply t_ppf_mono; lra).
  pose proof (sqrt_pos (Q2R v)). nra.
Qed.

(** C16: For a constant sample of two values
    or more, the standard error is 0, scipy's [ppf] requires [scale > 0],
    and both endpoints are [NaN], not a zero-width interval at the mean. *)
Theorem interval_constant c n alpha :
  (2 <= n)%nat -> 0 <= alpha -> alpha <= 1 ->
  exists m, m == inject_Z c /\ interval (repeat c n) alpha = Ok (Some m, (XNaN, XNaN)).
Proof.
  intros Hn H0 H1. destruct (sem2_constant c n Hn) as (m & v & Hm & Hmc & Hs & Hv0).
  exists m. split; [exact Hmc|]. unfold interval. rewrite Hm, Hs, t_interval_ok by assumption.
  cbn [bind]. rewrite !ppf_nan_scale by lra. reflexivity.
Qed.

(** C17: Below two values there are no
    degrees of freedom and no standard error: [interval] raises nothing
    and returns [NaN] endpoints (and a [NaN] mean for an empty sample). *)
Theorem interval_small_sample data alpha :
  (List.length data < 2)%nat -> 0 <= alpha -> alpha <= 1 ->
  interval data alpha = Ok (zmean data, (XNaN, XNaN)).
Proof.
  intros Hn H0 H1. unfold interval. rewrite t_interval_ok by assumption. cbn [bind].
  unfold sem2. destruct (zmean data); [|reflexivity].
  replace (Nat.leb 2 (List.length data)) with false by (symmetry; apply Nat.leb_gt; exact Hn).
  reflexivity.
Qed.

(** C18: A confidence level outside [0, 1] makes scipy raise. *)
Theorem interval_bad_confidence data alpha :
  alpha < 0 \/ 1 < alpha -> interval data alpha = Err ValueError_Confidence.
Proof.
  intros H. unfold interval, t_interval.
  replace (Qltb 1 alpha || Qltb alpha 0) with true; [reflexivity|].
  symmetry. apply orb_true_iff. destruct H; [right|left]; apply Qltb_iff; exact H.
Qed.

(** With confidence 1 the interval of a varied sample is the whole
    line. *)
Theorem interval_full_confidence data :
  varied data ->
  exists m, zmean data = Some m /\ interval data 1 = Ok (Some m, (XNegInf, XPosInf)).
Proof.
  intros Hv. destruct (sem2_varied data Hv) as [Hlen (m & v & Hm & Hs & Hpos)].
  exists m. split; [exact Hm|]. unfold interval. rewrite Hm, Hs, t_interval_ok by lra.
  cbn [bind]. unfold ppf.
  rewrite (proj2 (Z.ltb_lt _ _)) by lia. rewrite (proj2 (Qltb_iff _ _) Hpos). reflexivity.
Qed.

(** A finite quantile comes from the branch of [0 < q < 1], a positive
    number of degrees of freedom and a positive scale. *)
Lemma ppf_finite_inv q df loc scale2 r :
  ppf q df loc scale2 = XFin r ->
  exists m v, loc = Some m /\ scale2 = Some v /\ 0 < v /\ 0 < q /\ q < 1 /\ (0 < df)%Z /\
    r = (Q2R m + sqrt (Q2R v) * t_ppf (Q2R q) (IZR df))%R.
Proof.
  unfold ppf. destruct loc as [m|], scale2 as [v|]; try discriminate.
  destruct (Z.ltb_spec 0 df), (Qltb 0 v) eqn:Ev; cbn [andb]; try discriminate.
  destruct (Qeq_bool q 0), (Qeq_bool q 1); try discriminate.
  destruct (Qltb 0 q) eqn:E0, (Qltb q 1) eqn:E1; cbn [andb]; try discriminate.
  intros [= <-]. apply Qltb_iff in Ev, E0, E1. exists m, v. repeat split; assumption.
Qed.

(** Whenever both endpoints of [interval] are finite they enclose the
    mean, whatever the confidence level. *)
Lemma interval_finite_contains data alpha m l u :
  interval data alpha = Ok (Some m, (XFin l, XFin u)) -> (l <= Q2R m <= u)%R.
Proof.
  unfold interval, t_interval.
  destruct (Qltb 1 alpha || Qltb alpha 0) eqn:Ea; [discriminate|]. cbn [bind].
  intros [= Hm Hl Hu]. apply orb_false_iff in Ea as [Ea1 Ea0].
  assert (Ha : 0 <= alpha <= 1).
  { split; apply Qnot_lt_le; intros H; apply Qltb_iff in H; congruence. }
  destruct (ppf_finite_inv _ _ _ _ _ Hl) as (m1 & v & E1 & Ev & Hv & Hq0 & _ & Hdf & ->).
  destruct (ppf_finite_inv _ _ _ _ _ Hu) as (m2 & v' & E2 & Ev' & _ & _ & Hq1 & _ & ->).
  rewrite Hm in E1, E2. injection E1 as <-. injection E2 as <-. rewrite Ev in Ev'. injection Ev' as <-.
  rewrite Q2R_half_minus, Q2R_half_plus in *.
  apply Qlt_Rlt in Hq0, Hq1. rewrite Q2R_half_minus, RMicromega.Q2R_0 in Hq0.
  rewrite Q2R_half_plus, RMicromega.Q2R_1 in Hq1.
  destruct Ha as [Ha0 _]. apply Qle_Rle in Ha0. rewrite RMicromega.Q2R_0 in Ha0.
  assert (Rdf : (0 < IZR (Z.of_nat (List.length data) - 1))%R) by (apply IZR_lt; exact Hdf).
  pose proof (t_ppf_half _ Rdf) as H0.
  pose proof (t_ppf_mono ((1 - Q2R alpha) / 2) (1/2) _ Hq0 ltac:(lra) ltac:(lra) Rdf) as Hlo.
  pose proof (t_ppf_mono (1/2) ((1 + Q2R alpha) / 2) _ ltac:(lra) ltac:(lra) Hq1 Rdf) as Hhi.
  pose proof (sqrt_pos (Q2R v)). split; nra.
Qed.

End IntervalFacts.

Lemma varied_123 : varied sample_123.
Proof. exists 1%Z, 2%Z. split; [left; reflexivity|split; [right; left; reflexivity|discriminate]]. Qed.

Lemma interval_varied_witness :
  exists m v, zmean sample_123 = Some m /\ sem2 sample_123 = Some v /\ 0 < v /\
    let h := (sqrt (Q2R v) * t_ppf ((1 + Q2R (1#2)) / 2) (IZR (Z.of_nat (List.length sample_123) - 1)))%R in
    interval sample_123 (1#2) = Ok (Some m, (XFin (Q2R m - h), XFin (Q2R m + h))) /\ (0 <= h)%R.
Proof. apply (interval_varied sample_123 (1#2) varied_123); lra. Defined.

Lemma interval_zero_confidence_witness :
  exists m, zmean sample_123 = Some m /\
    interval sample_123 0 = Ok (Some m, (XFin (Q2R m), XFin (Q2R m))).
Proof. apply interval_zero_confidence, varied_123. Defined.

Lemma interval_nested_witness :
  exists m1 m2 l1 u1 l2 u2,
  interval sample_123 (1#4) = Ok (Some m1, (XFin l1, XFin u1)) /\
  interval sample_123 (3#4) = Ok (Some m2, (XFin l2, XFin u2)) /\
  m1 = m2 /\ (l2 <= l1 <= Q2R m1)%R /\ (Q2R m1 <= u1 <= u2)%R.
Proof.
  do 6 eexists. split; [reflexivity|]. split; [reflexivity|].
  apply (interval_nested sample_123 (1#4) (3#4)); [exact varied_123|lra|lra|lra|reflexivity|reflexivity].
Defined.

Lemma interval_constant_witness :
  exists m, m == inject_Z 4 /\ interval (repeat 4%Z 10) (95#100) = Ok (Some m, (XNaN, XNaN)).
Proof. apply interval_constant; [lia|lra|lra]. Defined.

Lemma interval_small_sample_witness :
  interval [3%Z] (95#100) = Ok (zmean [3%Z], (XNaN, XNaN)).
Proof. apply interval_small_sample; [simpl; lia|lra|lra]. Defined.

Lemma interval_bad_confidence_witness : interval sample_123 (-1) = Err ValueError_Confidence.
Proof. apply interval_bad_confidence. left. lra. Defined.

Lemma interval_full_confidence_witness :
  exists m, zmean sample_123 = Some m /\ interval sample_123 1 = Ok (Some m, (XNegInf, XPosInf)).
Proof. apply interval_full_confidence, varied_123. Defined.

