(* ===== verification/Plots.v ===== *)
(** * The aggregators: [plotAverageValues] and [plotAttrakdiff]
    (attrakdiff.py, lines 98-107 and 151-185); [plotWordPair] is in
    WordPair.v

    Each aggregator takes the datasets, a Python dict from a name to a
    normalised table kept in insertion order (an association list with
    distinct names), computes a summary table and draws it.  Of the
    drawing, the geometry is modelled (the lines of the average chart,
    the portfolio's confidence regions), not the styling (labels,
    colours, markers).  All three
    read the columns of the first dataset ([datas[next(iter(datas))]]),
    which raises [StopIteration] on an empty dict.

    - [plotAverageValues]: for each dataset and each category of
      [cat2dict] of the first dataset, [dF[cols].mean().mean()], the mean
      of the column means, reindexed by the categories, and the chart
      [av_figure] that [data.plot] draws from it;
    - [plotAttrakdiff]: for each dataset, the [interval] of the stacked
      QP columns and of the stacked QHI and QHS columns; the returned
      table holds the two means, and when [alpha] is not 0 a rectangle
      spanning the two intervals is drawn.

    The theorems: the keys of the returned tables; each point of the
    average chart sits above the category it averages; when every dataset
    has the columns of the first, the aggregators succeed; on datasets
    whose answers all equal [k] every average is [k]; on datasets of
    neutral answers (the spec's end-to-end scenario) every portfolio
    point is (0, 0), with rectangles whose corners are NaN; the lemmas
    Datasets.v combines (the KeyError of a long
    export placed first, of an unknown language).  The drawing is not
    modelled, but the dict lookups by language it makes
    ([i18n_dim[lang]], [titles["QP"][lang]]) are, since they raise. *)

From S2P Require Import Prelude Naming Frame LoadCSV Categories Interval.
From Stdlib Require Import String ZArith QArith List Lia Psatz Permutation.
Import ListNotations.
Local Open Scope string_scope.

Section Aggregators.
Context {S : Schema} {T : StudentT}.

(** [datas[next(iter(datas))]] *)
Definition first_dataset (datas : list (string * frame cell)) : result (frame cell) :=
  match datas with
  | [] => raise StopIteration_Empty
  | (_, dF) :: _ => Ok dF
  end.

(** Line 102, inner comprehension: [{name: dF[cat].mean().mean() for
    name, cat in cat.items()}] for one dataset. *)
Definition category_means (cat : list (string * list string)) (dF : frame cell)
    : result (list (string * option Q)) :=
  map_res (fun nc => sub <- select (snd nc) dF ;; Ok (fst nc, mean_of_means sub)) cat.

(** [table[lang]] for one of the label tables of [naming]
    ([i18n_dim], [titles], [plt_mean], ...): a KeyError for a language
    they do not have. *)
Definition lang_lookup (lang : string) : result unit :=
  if existsb (String.eqb lang) locales then Ok tt else raise (KeyError_Key lang).

(** Line 103, [data.reindex(cat.keys())] on one column of [data] (one
    dataset): the value at each key, [NaN] for a key the column lacks. *)
Definition reindex_rows (keys : list string) (e : list (string * option Q)) : list (string * option Q) :=
  map (fun k => (k, match assoc k e with Some v => v | None => None end)) keys.

(** Line 104, [ylim=[-3, 3]]. *)
Definition average_ylim : Q * Q := (-3, 3)%Q.

(** What [data.plot(ax=ax, grid=True, marker='o', ..., ylim=[-3, 3])]
    draws (line 104): one line per column of [data] (per dataset), its
    i-th point at x = i for the i-th label of the index, the labels of
    the index as x tick labels, and the y limits. *)
Record av_figure : Type := mkAvFigure {
  av_lines : list (string * list (nat * option Q));
  av_xticks : list (nat * string);
  av_ylim : Q * Q
}.

Definition average_chart (keys : list string) (data : list (string * list (string * option Q))) : av_figure :=
  mkAvFigure (map (fun e => (fst e, combine (seq 0 (List.length keys)) (map snd (snd e)))) data)
             (combine (seq 0 (List.length keys)) keys) average_ylim.

(** Lines 98-107: the table (line 102), reindexed by the categories
    (line 103), and the chart (line 104), drawn once [i18n_dim[lang]] and
    [i18n_average[lang]] are read; [plt_mean[lang]] (line 106) is read
    from a table with the same languages. *)
Definition plotAverageValues (datas : list (string * frame cell)) (lang : string)
    : result (list (string * list (string * option Q)) * av_figure) :=
  first <- first_dataset datas ;;
  let cat := cat2dict first in
  data <- map_res (fun nd => r <- category_means cat (snd nd) ;; Ok (fst nd, r)) datas ;;
  let data := map (fun e => (fst e, reindex_rows (map fst cat) (snd e))) data in
  _ <- lang_lookup lang ;;
  Ok (data, average_chart (map fst cat) data).

(** [cat["QP"]]: a dict lookup, a KeyError when the key is absent. *)
Definition cat_get (cat : list (string * list string)) (k : string) : result (list string) :=
  of_option (lookup_col k cat) (KeyError_Columns [k]).

(** What the portfolio draws for one dataset when [alpha] is not 0:
    [Rectangle((ix[0], iy[0]), ix[1]-ix[0], iy[1]-iy[0])], kept as the
    two intervals it spans. *)
Definition rectangle : Type := (xreal * xreal) * (xreal * xreal).

(** Lines 168-180, one iteration of the loop. *)
Definition portfolio_point (alpha : Q) (cat : list (string * list string)) (data : frame cell)
    : result ((option Q * option Q) * option rectangle) :=
  qhi <- cat_get cat "QHI" ;;
  qhs <- cat_get cat "QHS" ;;
  QH <- select (qhi ++ qhs) data ;;
  qp <- cat_get cat "QP" ;;
  QP <- select qp data ;;
  rx <- interval (stack QP) alpha ;;
  ry <- interval (stack QH) alpha ;;
  Ok ((fst rx, fst ry),
      if Qeq_bool alpha 0 then None else Some (snd rx, snd ry)).

(** Lines 151-185: the returned table [{name: {"QP": x, "QH": y}}] and
    the rectangles drawn.  The axis titles [titles["QP"][lang]] (lines 162-164)
    are read before the first dataset is. *)
Definition plotAttrakdiff (datas : list (string * frame cell)) (alpha : Q) (lang : string)
    : result (list (string * (option Q * option Q)) * list (option rectangle)) :=
  _ <- lang_lookup lang ;;
  first <- first_dataset datas ;;
  let cat := cat2dict first in
  pts <- map_res (fun nd => p <- portfolio_point alpha cat (snd nd) ;; Ok (fst nd, p)) datas ;;
  Ok (map (fun np => (fst np, fst (snd np))) pts, map (fun np => snd (snd np)) pts).

End Aggregators.

(** A table of [n] respondents with the given columns, every answer
    neutral (raw 4, normalised 0). *)
Definition zero_frame (keys : list string) (n : nat) : frame cell :=
  mkFrame n (map (fun k => (k, repeat (Some 0%Z) n)) keys).

(** ** Shape of the summary tables *)

Section Shape.
Context {S : Schema} {T : StudentT}.

Lemma cat2dict_keys (d : frame cell) : map fst (cat2dict d) = categories.
Proof. unfold cat2dict. rewrite map_map. apply map_id. Qed.

Lemma reindex_rows_keys keys e : map fst (reindex_rows keys e) = keys.
Proof. unfold reindex_rows. rewrite map_map. apply map_id. Qed.

Lemma reindex_rows_Forall (P : option Q -> Prop) keys e :
  incl keys (map fst e) -> Forall (fun v => P (snd v)) e -> Forall (fun v => P (snd v)) (reindex_rows keys e).
Proof.
  intros Hk He. apply Forall_map, Forall_forall. intros k Hin. cbn [snd].
  destruct (assoc_In k e (Hk k Hin)) as (v & Ev). rewrite Ev.
  apply assoc_Some_In in Ev. rewrite Forall_forall in He. exact (He _ Ev).
Qed.

Lemma category_means_keys cat dF r :
  category_means cat dF = Ok r -> map fst r = map fst cat.
Proof.
  apply map_res_map. intros [name cols] y _ H. cbn in H.
  destruct (select cols dF); [|discriminate]. injection H as <-. reflexivity.
Qed.

(** C20: The table of average values has one entry per dataset, in the
    insertion order of the datasets, and each entry lists the categories
    in the order of [categories]. *)
Theorem plotAverageValues_keys datas lang r fig :
  plotAverageValues datas lang = Ok (r, fig) ->
  map fst r = map fst datas /\ Forall (fun e => map fst (snd e) = categories) r.
Proof.
  unfold plotAverageValues. destruct (first_dataset datas) as [first|]; [|discriminate].
  cbn [bind]. destruct (map_res _ datas) as [tbl|] eqn:H; [|discriminate]. cbn [bind].
  destruct (lang_lookup lang); [|discriminate]. intros [= <- _]. split.
  - rewrite map_map. revert H. apply map_res_map. intros [n d] y _ Hy. cbn in Hy.
    destruct (category_means _ d); [|discriminate]. injection Hy as <-. reflexivity.
  - apply Forall_map, Forall_forall. intros e _. cbn [snd]. rewrite reindex_rows_keys.
    apply cat2dict_keys.
Qed.

(** C21: The chart of line 104 draws, for every dataset of the returned
    table, the average of its j-th category at x = j, where the x tick
    label is that category: each point sits above the name of the
    category it averages. *)
Theorem plotAverageValues_chart_aligned datas lang r fig e j c v :
  plotAverageValues datas lang = Ok (r, fig) -> In e r -> nth_error (snd e) j = Some (c, v) ->
  nth_error categories j = Some c /\
  exists line, In (fst e, line) (av_lines fig) /\ nth_error line j = Some (j, v) /\
    nth_error (av_xticks fig) j = Some (j, c).
Proof.
  unfold plotAverageValues. destruct (first_dataset datas) as [first|]; [|discriminate].
  cbn [bind]. destruct (map_res _ datas) as [tbl|]; [|discriminate]. cbn [bind].
  destruct (lang_lookup lang); [|discriminate]. intros [= <- <-] Hin Hj.
  apply in_map_iff in Hin as (e0 & <- & Hin). cbn [fst snd] in Hj |- *.
  rewrite cat2dict_keys in Hj |- *.
  assert (Hc : nth_error categories j = Some c)
    by (rewrite <- (reindex_rows_keys categories (snd e0)), nth_error_map, Hj; reflexivity).
  assert (Hlt : (j < List.length categories)%nat) by (apply nth_error_Some; congruence).
  split; [exact Hc|]. eexists. split.
  { apply in_map_iff. exists (fst e0, reindex_rows categories (snd e0)). split; [reflexivity|].
    exact (in_map (fun e => (fst e, reindex_rows categories (snd e))) _ _ Hin). }
  unfold average_chart. cbn [fst snd av_xticks].
  rewrite !nth_error_combine, nth_error_seq, nth_error_map, Hj, Hc.
  apply Nat.ltb_lt in Hlt. rewrite Hlt. split; reflexivity.
Qed.

Lemma category_means_ok (first d : frame cell) :
  incl (columns first) (columns d) -> exists r, category_means (cat2dict first) d = Ok r.
Proof.
  intros Hincl.
  destruct (map_res_Forall2 (fun nc => sub <- select (snd nc) d ;; Ok (fst nc, mean_of_means sub))
              (fun nc => incl (snd nc) (columns d)) (fun _ _ => True) (cat2dict first))
    as (r & E & _); [| |exists r; exact E].
  - unfold cat2dict. apply Forall_map, Forall_forall. intros name _. cbn [snd].
    auto with usat.
  - intros nc Hsub. rewrite (select_present _ _ Hsub). eexists. split; [reflexivity|exact I].
Qed.

Lemma lang_lookup_ok lang : In lang locales -> lang_lookup lang = Ok tt.
Proof. intros H. unfold lang_lookup. rewrite (proj2 (existsb_eqb_In _ _) H). reflexivity. Qed.

Lemma lang_lookup_err lang : ~ In lang locales -> lang_lookup lang = Err (KeyError_Key lang).
Proof. intros H. unfold lang_lookup. rewrite (proj2 (existsb_eqb_notIn _ _) H). reflexivity. Qed.

Lemma average_table_ok datas (first : frame cell) :
  Forall (fun nd => incl (columns first) (columns (snd nd))) datas ->
  exists r, map_res (fun nd : string * frame cell => m <- category_means (cat2dict first) (snd nd) ;; Ok (fst nd, m))
                    datas = Ok r.
Proof.
  intros Hall. destruct (map_res_Forall2 (fun nd => r <- category_means (cat2dict first) (snd nd) ;; Ok (fst nd, r))
              _ (fun _ _ => True) datas Hall) as (r & E & _); [|exists r; exact E].
  intros [n d] Hincl. destruct (category_means_ok first d Hincl) as (r & Er).
  cbn [snd]. rewrite Er. eexists. split; [reflexivity|exact I].
Qed.

(** The aggregators succeed when every dataset has the columns of the
    first and the language is known. *)
Lemma plotAverageValues_ok datas first lang :
  first_dataset datas = Ok first -> Forall (fun nd => incl (columns first) (columns (snd nd))) datas ->
  In lang locales -> exists r, plotAverageValues datas lang = Ok r.
Proof.
  intros Hf Hall Hl. unfold plotAverageValues. rewrite Hf. cbn [bind].
  destruct (average_table_ok datas first Hall) as (r & E). rewrite E. cbn [bind].
  rewrite (lang_lookup_ok lang Hl). eexists. reflexivity.
Qed.

Lemma portfolio_point_ok alpha cat (d : frame cell) qhi qhs qp :
  cat_get cat "QHI" = Ok qhi -> cat_get cat "QHS" = Ok qhs -> cat_get cat "QP" = Ok qp ->
  incl (qhi ++ qhs) (columns d) -> incl qp (columns d) -> 0 <= alpha <= 1 ->
  exists p, portfolio_point alpha cat d = Ok p.
Proof.
  intros E1 E2 E3 H1 H2 Ha. unfold portfolio_point. rewrite E1, E2. cbn [bind].
  rewrite (select_present _ _ H1). cbn [bind]. rewrite E3. cbn [bind].
  rewrite (select_present _ _ H2). cbn [bind]. rewrite !interval_eq by exact Ha. cbn [bind].
  eexists. reflexivity.
Qed.

End Shape.

(** ** Samples of constant answers

    Every respondent gives the same answer [k] to every pair; the
    neutral sample answers 4 (normalised 0). *)

Section Neutral.
Context {T : StudentT}.

(** The summary of one dataset whose answers are all [k]: every
    category averages to [k]. *)
Lemma category_means_const {S : Schema} (first d : frame cell) k :
  Forall (fun name => Exists (fun c => str_contains name c = true) (columns first)) categories ->
  wf_frame d -> all_cells (fun c : cell => c = Some k) d -> (0 < nrows d)%nat -> incl (columns first) (columns d) ->
  exists r, category_means (cat2dict first) d = Ok r /\
            Forall (fun v => exists q, snd v = Some q /\ (q == inject_Z k)%Q) r.
Proof.
  intros Hcat Hwf Hz Hn Hincl.
  destruct (map_res_Forall2 (fun nc => sub <- select (snd nc) d ;; Ok (fst nc, mean_of_means sub))
              (fun nc => snd nc <> [] /\ incl (snd nc) (columns d))
              (fun _ v => exists q, snd v = Some q /\ (q == inject_Z k)%Q) (cat2dict first))
    as (r & E & HR).
  - unfold cat2dict. apply Forall_map. eapply Forall_impl; [|exact Hcat]. intros name Hname. cbn [snd].
    split; [exact (filter_nonempty _ _ Hname)|auto with usat].
  - intros nc [Hne Hsub]. destruct (select_group _ d Hwf Hz Hne Hsub) as (g & Eg & Hwg & Hzg & Hng & Hcg).
    destruct (mean_of_means_const g k Hwg ltac:(lia) Hzg Hcg) as (q & Eq & Hq).
    rewrite Eg. cbn [bind]. eexists. split; [reflexivity|]. exists q. cbn. rewrite Eq. split; [reflexivity|exact Hq].
  - exists r. split; [exact E|exact (Forall2_Forall_r _ _ _ HR)].
Qed.

(** C26: The table of average values reports means: on datasets whose
    answers are all the same value [k], every value of the table is [k]
    (not a sum or a count of the answers), provided every category has
    a column in the first dataset and every dataset has the columns of
    the first. *)
Theorem plotAverageValues_const {S : Schema} (datas : list (string * frame cell)) first lang k :
  first_dataset datas = Ok first -> In lang locales ->
  Forall (fun name => Exists (fun c => str_contains name c = true) (columns first)) categories ->
  Forall (fun nd => wf_frame (snd nd) /\ all_cells (fun c : cell => c = Some k) (snd nd) /\
                    (0 < nrows (snd nd))%nat /\ incl (columns first) (columns (snd nd))) datas ->
  exists r fig, plotAverageValues datas lang = Ok (r, fig) /\ map fst r = map fst datas /\
    Forall (fun e => Forall (fun v => exists q, snd v = Some q /\ (q == inject_Z k)%Q) (snd e)) r.
Proof.
  intros Hf Hl Hcat Hall. unfold plotAverageValues. rewrite Hf. cbn [bind].
  destruct (map_res_Forall2 (fun nd => r <- category_means (cat2dict first) (snd nd) ;; Ok (fst nd, r))
              _ (fun nd e => fst e = fst nd /\ map fst (snd e) = map fst (cat2dict first) /\
                   Forall (fun v => exists q, snd v = Some q /\ (q == inject_Z k)%Q) (snd e)) datas Hall)
    as (r & E & HR).
  - intros [n d] (Hwf & Hz & Hn & Hincl).
    destruct (category_means_const first d k Hcat Hwf Hz Hn Hincl) as (vs & Ev & Hv).
    cbn [snd]. rewrite Ev. eexists. split; [reflexivity|].
    split; [reflexivity|split; [exact (category_means_keys _ _ _ Ev)|exact Hv]].
  - do 2 eexists. split; [rewrite E; cbn [bind]; rewrite (lang_lookup_ok lang Hl); reflexivity|]. split.
    + rewrite map_map. apply Forall2_map_eq. eapply Forall2_impl; [|exact HR]. intros ? ? [H _]; exact H.
    + apply Forall_map, (Forall2_Forall_r _ datas). eapply Forall2_impl; [|exact HR].
      intros ? ? (_ & Hk & H). cbn [snd].
      apply (reindex_rows_Forall (fun o => exists q, o = Some q /\ (q == inject_Z k)%Q)); [rewrite Hk; apply incl_refl|exact H].
Qed.

(** The confidence interval of a group of columns of a neutral table
    with two rows or more: a zero mean and [NaN] endpoints. *)
Lemma interval_neutral_group (labels : list string) (d : frame cell) alpha :
  wf_frame d -> all_cells neutral_cell d -> (2 <= nrows d)%nat ->
  labels <> [] -> incl labels (columns d) -> 0 <= alpha <= 1 ->
  exists g m, select labels d = Ok g /\ interval (stack g) alpha = Ok (Some m, (XNaN, XNaN)) /\ m == 0.
Proof.
  intros Hwf Hz Hn Hne Hincl [H0 H1].
  destruct (select_group labels d Hwf Hz Hne Hincl) as (g & Eg & Hwg & Hzg & Hng & Hcg).
  exists g. rewrite (stack_neutral g Hwg Hzg).
  destruct (sem2_constant 0 (nrows g * List.length (cols g))) as (m & v & Hm & Hmc & Hs & Hv).
  { destruct (cols g); [congruence|]. cbn [List.length]. nia. }
  exists m. split; [exact Eg|]. split; [|exact Hmc].
  unfold interval. rewrite Hm, Hs, t_interval_ok by assumption. cbn [bind].
  rewrite !ppf_nan_scale by lra. reflexivity.
Qed.

(** One iteration of the portfolio loop on a neutral dataset. *)
Lemma portfolio_point_neutral (first d : frame cell) alpha :
  Exists (fun c => str_contains "QP" c = true) (columns first) ->
  Exists (fun c => (str_contains "QHI" c || str_contains "QHS" c)%bool = true) (columns first) ->
  wf_frame d -> all_cells neutral_cell d -> (2 <= nrows d)%nat -> incl (columns first) (columns d) ->
  0 < alpha <= 1 ->
  exists x y, portfolio_point alpha (cat2dict (S:=attrakdiff_schema) first) d
                = Ok ((Some x, Some y), Some ((XNaN, XNaN), (XNaN, XNaN))) /\ x == 0 /\ y == 0.
Proof.
  intros Hqp Hqh Hwf Hz Hn Hincl Ha.
  assert (Hinc : forall f, incl (filter f (columns first)) (columns d))
    by (intros f; auto with usat).
  set (fqhi := filter (fun col => str_contains "QHI" col) (columns first)).
  set (fqhs := filter (fun col => str_contains "QHS" col) (columns first)).
  set (fqp := filter (fun col => str_contains "QP" col) (columns first)).
  assert (Hqh' : (fqhi ++ fqhs)%list <> []).
  { apply Exists_exists in Hqh as (c & Hc & Hor). apply orb_true_iff in Hor. intros E.
    assert (In c ((fqhi ++ fqhs)%list)) as Hin
      by (apply in_app_iff; destruct Hor; [left|right]; apply filter_In; split; assumption).
    rewrite E in Hin. contradiction. }
  destruct (interval_neutral_group ((fqhi ++ fqhs)%list) d alpha Hwf Hz Hn Hqh'
              (incl_app (Hinc _) (Hinc _)) ltac:(lra)) as (gh & my & Eh & Ih & Hy).
  destruct (interval_neutral_group fqp d alpha Hwf Hz Hn (filter_nonempty _ _ Hqp)
              (Hinc _) ltac:(lra)) as (gp & mx & Ep & Ip & Hx).
  exists mx, my. split; [|split; assumption].
  unfold portfolio_point. change (cat_get (cat2dict first) "QHI") with (Ok fqhi (A:=list string)).
  change (cat_get (cat2dict first) "QHS") with (Ok fqhs (A:=list string)).
  change (cat_get (cat2dict first) "QP") with (Ok fqp (A:=list string)).
  cbn [bind]. rewrite Eh. cbn [bind]. rewrite Ep. cbn [bind]. rewrite Ip. cbn [bind]. rewrite Ih. cbn [bind].
  rewrite Qeq_bool_false by lra. reflexivity.
Qed.

(** C27: On datasets of neutral answers with two respondents or more,
    the portfolio places every dataset at (0, 0), but, for a confidence
    level in (0, 1], every confidence rectangle it draws has [NaN]
    corners: the sample is constant, its standard error is 0 and scipy
    returns [NaN], so no zero-width region is drawn. *)
Theorem plotAttrakdiff_neutral (datas : list (string * frame cell)) first alpha lang :
  first_dataset datas = Ok first -> In lang (locales (Schema:=attrakdiff_schema)) ->
  Exists (fun c => str_contains "QP" c = true) (columns first) ->
  Exists (fun c => (str_contains "QHI" c || str_contains "QHS" c)%bool = true) (columns first) ->
  Forall (fun nd => wf_frame (snd nd) /\ all_cells neutral_cell (snd nd) /\
                    (2 <= nrows (snd nd))%nat /\ incl (columns first) (columns (snd nd))) datas ->
  0 < alpha <= 1 ->
  exists pts, plotAttrakdiff (S:=attrakdiff_schema) datas alpha lang
                = Ok (pts, repeat (Some ((XNaN, XNaN), (XNaN, XNaN))) (List.length datas)) /\
    map fst pts = map fst datas /\
    Forall (fun p => exists x y, snd p = (Some x, Some y) /\ x == 0 /\ y == 0) pts.
Proof.
  intros Hf Hl Hqp Hqh Hall Ha. unfold plotAttrakdiff. rewrite (lang_lookup_ok lang Hl), Hf. cbn [bind].
  destruct (map_res_Forall2
              (fun nd => p <- portfolio_point alpha (cat2dict first) (snd nd) ;; Ok (fst nd, p)) _
              (fun nd np => fst np = fst nd /\ snd (snd np) = Some ((XNaN, XNaN), (XNaN, XNaN)) /\
                 exists x y, fst (snd np) = (Some x, Some y) /\ x == 0 /\ y == 0) datas Hall)
    as (pts & E & HR).
  - intros [n d] (Hwf & Hz & Hn & Hincl).
    destruct (portfolio_point_neutral first d alpha Hqp Hqh Hwf Hz Hn Hincl Ha) as (x & y & Ep & Hx & Hy).
    cbn [snd]. rewrite Ep. eexists. split; [reflexivity|]. cbn. split; [reflexivity|].
    split; [reflexivity|]. exists x, y. auto.
  - rewrite E. cbn [bind].
    assert (Hr : map (fun np => snd (snd np)) pts = repeat (Some ((XNaN, XNaN), (XNaN, XNaN))) (List.length datas)).
    { rewrite <- map_const. apply Forall2_map_eq. eapply Forall2_impl; [|exact HR]. intros ? ? (_ & H & _); exact H. }
    rewrite Hr. eexists. split; [reflexivity|]. split.
    + rewrite map_map. apply Forall2_map_eq. eapply Forall2_impl; [|exact HR]. intros ? ? (H & _); exact H.
    + apply Forall_map. apply (Forall2_Forall_r _ datas). eapply Forall2_impl; [|exact HR].
      intros ? ? (_ & _ & H); exact H.
Qed.

End Neutral.

(** ** The portfolio with the AttrakDiff categories *)

Section Portfolio.
Context {T : StudentT}.

Lemma cat_get_attrakdiff (first : frame cell) k :
  In k ["QP"; "QHI"; "QHS"] ->
  cat_get (cat2dict (S:=attrakdiff_schema) first) k = Ok (filter (fun col => str_contains k col) (columns first)).
Proof. intros [<-|[<-|[<-|[]]]]; reflexivity. Qed.

Lemma plotAttrakdiff_ok datas first alpha lang :
  first_dataset datas = Ok first -> Forall (fun nd => incl (columns first) (columns (snd nd))) datas ->
  In lang (locales (Schema:=attrakdiff_schema)) -> 0 <= alpha <= 1 ->
  exists r, plotAttrakdiff (S:=attrakdiff_schema) datas alpha lang = Ok r.
Proof.
  intros Hf Hall Hl Ha. unfold plotAttrakdiff. rewrite (lang_lookup_ok lang Hl), Hf. cbn [bind].
  destruct (map_res_Forall2 (fun nd => p <- portfolio_point alpha (cat2dict first) (snd nd) ;; Ok (fst nd, p))
              _ (fun _ _ => True) datas Hall) as (pts & E & _).
  - intros [n d] Hincl.
    destruct (portfolio_point_ok alpha (cat2dict first) d _ _ _
                (cat_get_attrakdiff first "QHI" ltac:(cbn; tauto))
                (cat_get_attrakdiff first "QHS" ltac:(cbn; tauto))
                (cat_get_attrakdiff first "QP" ltac:(cbn; tauto))
                ltac:(auto with usat) ltac:(auto with usat) Ha) as (p & Ep).
    cbn [snd]. rewrite Ep. eexists. split; [reflexivity|exact I].
  - rewrite E. eexists. reflexivity.
Qed.

Lemma plotAttrakdiff_long_first (Ts Tl : frame cell) (a b lang : string) alpha :
  columns Ts = canonical_keys attrakdiff_short -> columns Tl = attrakdiff_pairs ->
  In lang (locales (Schema:=attrakdiff_schema)) -> 0 <= alpha <= 1 ->
  plotAttrakdiff (S:=attrakdiff_schema) [(a, Tl); (b, Ts)] alpha lang =
    Err (KeyError_Columns ["QHI1"; "QHI2"; "QHI5"; "QHI6"; "QHI7"; "QHS1"; "QHS3"; "QHS4"; "QHS6"; "QHS7"]).
Proof.
  intros HTs HTl Hl Ha. unfold plotAttrakdiff. rewrite (lang_lookup_ok lang Hl).
  cbn [bind first_dataset map_res snd fst].
  destruct (portfolio_point_ok alpha (cat2dict Tl) Tl _ _ _
              (cat_get_attrakdiff Tl "QHI" ltac:(cbn; tauto))
              (cat_get_attrakdiff Tl "QHS" ltac:(cbn; tauto))
              (cat_get_attrakdiff Tl "QP" ltac:(cbn; tauto))
              ltac:(auto with usat) ltac:(auto with usat) Ha) as (p & Ep).
  rewrite Ep. cbn [bind]. unfold portfolio_point.
  rewrite (cat_get_attrakdiff Tl "QHI"), (cat_get_attrakdiff Tl "QHS") by (cbn; tauto). cbn [bind].
  rewrite (select_missing _ Ts "QHI1" ["QHI2"; "QHI5"; "QHI6"; "QHI7"; "QHS1"; "QHS3"; "QHS4"; "QHS6"; "QHS7"])
    by (rewrite HTl, HTs; vm_compute; reflexivity).
  reflexivity.
Qed.

End Portfolio.

Lemma plotAverageValues_keys_witness :
  exists r fig, plotAverageValues (S:=attrakdiff_schema)
              [("A", zero_frame attrakdiff_pairs 2); ("B", zero_frame attrakdiff_pairs 3)] "en" = Ok (r, fig) /\
    map fst r = ["A"; "B"] /\ Forall (fun e => map fst (snd e) = categories) r.
Proof.
  do 2 eexists. split; [reflexivity|].
  eapply (plotAverageValues_keys [("A", zero_frame attrakdiff_pairs 2); ("B", zero_frame attrakdiff_pairs 3)] "en").
  reflexivity.
Defined.

Lemma plotAverageValues_long_first (Ts Tl : frame cell) (a b lang : string) :
  columns Ts = canonical_keys attrakdiff_short -> columns Tl = attrakdiff_pairs ->
  plotAverageValues (S:=attrakdiff_schema) [(a, Tl); (b, Ts)] lang = Err (KeyError_Columns ["QP1"; "QP4"; "QP7"]).
Proof.
  intros HTs HTl.
  unfold plotAverageValues. cbn [first_dataset bind map_res snd fst].
  destruct (category_means_ok Tl Tl (incl_refl _)) as (r & Er). rewrite Er. cbn [bind].
  assert (Hc : exists rest, cat2dict Tl = ("QP", ["QP1"; "QP2"; "QP3"; "QP4"; "QP5"; "QP6"; "QP7"]) :: rest)
    by (exists (tl (cat2dict (header_frame attrakdiff_pairs))); unfold cat2dict; rewrite HTl;
        vm_compute; reflexivity).
  destruct Hc as [rest Hc]. unfold category_means at 1. rewrite Hc. cbn [map_res fst snd].
  rewrite (select_missing _ Ts "QP1" ["QP4"; "QP7"]) by (rewrite HTs; vm_compute; reflexivity).
  reflexivity.
Qed.

(** A table of [n] respondents with the given columns, every answer [k]. *)
Definition const_frame (keys : list string) (n : nat) (k : Z) : frame cell :=
  mkFrame n (map (fun key => (key, repeat (Some k) n)) keys).

Lemma const_frame_cells (keys : list string) (n : nat) k :
  wf_frame (const_frame keys n k) /\ all_cells (fun c : cell => c = Some k) (const_frame keys n k).
Proof.
  unfold wf_frame, all_cells, const_frame. cbn [nrows cols]. split; apply Forall_map; apply Forall_forall;
    intros key _; cbn [snd]; [apply repeat_length|apply Forall_forall; intros c Hc; exact (repeat_spec _ _ _ Hc)].
Qed.

Lemma zero_frame_neutral (keys : list string) (n : nat) :
  wf_frame (zero_frame keys n) /\ all_cells neutral_cell (zero_frame keys n).
Proof.
  unfold wf_frame, all_cells, zero_frame. cbn [nrows cols]. split; apply Forall_map; apply Forall_forall;
    intros k _; cbn [snd]; [apply repeat_length|apply Forall_forall; intros c Hc; exact (repeat_spec _ _ _ Hc)].
Qed.

Lemma plotAttrakdiff_neutral_witness :
  exists pts, plotAttrakdiff (S:=attrakdiff_schema) (T:=linear_quantile)
                [("A", zero_frame attrakdiff_pairs 2); ("B", zero_frame attrakdiff_pairs 3)] (1#2) "en"
                = Ok (pts, repeat (Some ((XNaN, XNaN), (XNaN, XNaN))) 2) /\
    map fst pts = ["A"; "B"] /\
    Forall (fun p => exists x y, snd p = (Some x, Some y) /\ x == 0 /\ y == 0) pts.
Proof.
  apply (plotAttrakdiff_neutral (T:=linear_quantile) [("A", zero_frame attrakdiff_pairs 2); ("B", zero_frame attrakdiff_pairs 3)]
           (zero_frame attrakdiff_pairs 2) (1#2) "en"); [reflexivity|left; reflexivity| | | |].
  - apply Exists_exists, existsb_exists. reflexivity.
  - apply Exists_exists, existsb_exists. reflexivity.
  - apply Forall_forall. intros nd [<-|[<-|[]]]; cbn [snd];
      (split; [apply zero_frame_neutral|split; [apply zero_frame_neutral|split; [cbn; lia|]]]);
      apply incl_b_spec; vm_compute; reflexivity.
  - split; [reflexivity|discriminate].
Defined.

Lemma plotAverageValues_chart_aligned_witness :
  let res := plotAverageValues (S:=attrakdiff_schema) [("A", zero_frame attrakdiff_pairs 2)] "en" in
  let r := match res with Ok p => fst p | Err _ => [] end in
  let fig := match res with Ok p => snd p | Err _ => average_chart [] [] end in
  let e := hd ("", []) r in
  let v := match nth_error (snd e) 2 with Some p => snd p | None => None end in
  res = Ok (r, fig) /\ In e r /\ nth_error (snd e) 2 = Some ("QHS", v) /\
  nth_error categories 2 = Some "QHS" /\
  exists line, In (fst e, line) (av_lines fig) /\ nth_error line 2 = Some (2%nat, v) /\
    nth_error (av_xticks fig) 2 = Some (2%nat, "QHS").
Proof.
  intros res r fig e v.
  assert (Hres : res = Ok (r, fig)) by (vm_compute; reflexivity).
  assert (Hin : In e r) by (vm_compute; left; reflexivity).
  assert (Hj : nth_error (snd e) 2 = Some ("QHS", v)) by (vm_compute; reflexivity).
  do 3 (split; [assumption|]).
  exact (plotAverageValues_chart_aligned _ _ r fig e 2 "QHS" v Hres Hin Hj).
Defined.

Lemma plotAverageValues_const_witness :
  exists r fig, plotAverageValues (S:=attrakdiff_schema)
              [("A", const_frame attrakdiff_pairs 2 2%Z); ("B", const_frame attrakdiff_pairs 3 2%Z)] "en" = Ok (r, fig) /\
    map fst r = ["A"; "B"] /\
    Forall (fun e => Forall (fun v => exists q, snd v = Some q /\ (q == inject_Z 2)%Q) (snd e)) r.
Proof.
  apply (plotAverageValues_const [("A", const_frame attrakdiff_pairs 2 2%Z); ("B", const_frame attrakdiff_pairs 3 2%Z)]
           (const_frame attrakdiff_pairs 2 2%Z) "en" 2%Z); [reflexivity|left; reflexivity| |].
  - repeat constructor; apply Exists_exists, existsb_exists; reflexivity.
  - apply Forall_forall. intros nd [<-|[<-|[]]]; cbn [snd];
      (split; [apply const_frame_cells|split; [apply const_frame_cells|split; [cbn; lia|]]]);
      apply incl_b_spec; vm_compute; reflexivity.
Defined.
