(* ===== verification/WordPair.v ===== *)
(** * The word-pair chart: [plotWordPair] (attrakdiff.py, lines 111-148)

    [plotWordPair(fig, ax, datas, lang)] returns the table [dd] of the
    column means of every dataset, restricted to the columns of the
    first dataset, and draws on [ax]:
    - a vertical axis line at x = 0 (line 115);
    - for each dataset, the polyline of its own column means
      [data.mean()], the i-th mean at height [len(val) - i]
      (lines 118-120);
    - one box per category, stacked from height 1: the loop of lines
      126-130 keeps the running height [y] and adds the size of each
      box to it; [zip] with the four colours stops after four
      categories;
    - the left and right tick labels: the words of each pair of the
      first dataset, in reverse order after an empty label, at heights
      0, 1, ... (lines 133-141), and the limits [len(columns)+0.5, 0.5]
      of the y axis and [-3, 3] of the x axis (line 142).

    The figure is kept as a record [wp_figure] of this geometry; colours
    and x positions are kept as the code writes them, the label words as
    the key [pairs[col][lang][side]] they are read from (their text is
    in the [naming] module).  The dict lookups raise KeyErrors, in the
    order the code makes them.

    The theorems: the keys of the table; the box loop computes the
    stacked layout; with the AttrakDiff categories the boxes cover the
    pairs exactly; when a dataset has the columns of the first, each of
    its points is drawn at the height of the tick that names its column;
    when it has more columns than the first, its first points are drawn
    above the axis limit and the others against the ticks of other
    pairs. *)

From S2P Require Import Prelude Naming Frame LoadCSV Categories Interval Plots.
From Stdlib Require Import String ZArith QArith List Lia Permutation.
Import ListNotations.
Local Open Scope string_scope.

(** A box drawn beside the word pairs: [FancyBboxPatch((x, y), width,
    height, color=colour)] and the category name written at
    [(x - 0.2, text_y)]. *)
Record box : Type := mkBox {
  box_x : Q;
  box_y : nat;
  box_width : Q;
  box_height : Z;
  box_colour : string;
  box_cat : string;
  box_text_y : Q
}.

(** A tick label: [pairs[col][lang][side]], or the empty label [""]. *)
Inductive tick_label : Type :=
| PairWord (col lang : string) (side : nat)
| EmptyLabel.

(** What the chart draws. *)
Record wp_figure : Type := mkFigure {
  fig_axis : list (Q * Q);
  fig_lines : list (string * list (option Q * nat));
  fig_boxes : list box;
  fig_left : list (nat * tick_label);
  fig_right : list (nat * tick_label);
  fig_ylim : Q * Q;
  fig_xlim : Q * Q
}.

Section WordPair.
Context {S : Schema}.

(** Line 117, inner comprehension: [{col: dF[col].mean().T for col in
    columns}] for one dataset; [dF[col]] raises a KeyError for an absent
    label. *)
Definition column_means (columns : list string) (dF : frame cell)
    : result (list (string * option Q)) :=
  map_res (fun col => s <- of_option (lookup_col col (cols dF)) (KeyError_Columns [col]) ;;
                      Ok (col, series_mean s)) columns.

(** Line 127: the size of the box of each category. *)
Definition category_sizes (columns : list string) : list nat :=
  map (fun cat => List.length (filter (fun x => str_contains cat x) columns)) categories.

(** Lines 118-120: [val = data.mean().T] and
    [plt.plot(val, range(len(val), 0, -1))]. *)
Definition pair_line (data : frame cell) : list (option Q * nat) :=
  let val := frame_mean data in
  combine (map snd val) (rev (seq 1 (List.length val))).

(** Lines 124-125: the literal dicts [xpos] and [length]. *)
Definition xpos_table : list (string * Q) := [("en", -53 # 10); ("fr", -58 # 10); ("de", -4)].
Definition length_table : list (string * Q) := [("en", 11); ("fr", 113 # 10); ("de", 8)].
Definition xpos_langs : list string := map fst xpos_table.

(** Line 126: the colours zipped with the categories. *)
Definition box_colours : list string := ["skyblue"; "orchid"; "pink"; "palegreen"].

(** Lines 127-130, one iteration of the loop: the box of category
    [fst cc] in colour [snd cc] at the running height [y], then
    [y += size]. *)
Definition box_step (x w : Q) (columns : list string) (st : nat * list box) (cc : string * string)
    : nat * list box :=
  let '(y, bs) := st in
  let size := List.length (filter (fun c => str_contains (fst cc) c) columns) in
  ((y + size)%nat,
   (bs ++ [mkBox x y w (Z.of_nat size - 1) (snd cc) (fst cc)
                 (inject_Z (Z.of_nat y) + inject_Z (Z.of_nat size) / 2 - (1 # 2))])%list).

(** Lines 123-130: [y = 1] and the loop over [zip(categories, colours)];
    [xpos[lang]] and [length[lang]] are read when the loop runs. *)
Definition category_boxes (lang : string) (columns : list string) : result (list box) :=
  match combine categories box_colours with
  | [] => Ok []
  | ccs => x <- of_option (assoc lang xpos_table) (KeyError_Key lang) ;;
           w <- of_option (assoc lang length_table) (KeyError_Key lang) ;;
           Ok (snd (fold_left (box_step x w columns) ccs (1%nat, [])))
  end.

(** Lines 133-134: [pairs[col][lang]] for every column of the first
    dataset. *)
Definition pair_label (lang col : string) : result unit :=
  if existsb (String.eqb col) pairs then lang_lookup lang else raise (KeyError_Key col).

(** Lines 133-136: [labels = [pairs[col][lang][side] ...] + [""]], then
    [labels.reverse()]. *)
Definition tick_labels (lang : string) (side : nat) (columns : list string) : list tick_label :=
  rev (map (fun col => PairWord col lang side) columns ++ [EmptyLabel])%list.

(** [ax.set_yticks(range(len(labels)), labels=labels)]. *)
Definition ticks (labels : list tick_label) : list (nat * tick_label) :=
  combine (seq 0 (List.length labels)) labels.

(** Lines 111-148: the returned table [dd] and the figure. *)
Definition plotWordPair (datas : list (string * frame cell)) (lang : string)
    : result (list (string * list (string * option Q)) * wp_figure) :=
  first <- first_dataset datas ;;
  let columns := Frame.columns first in
  let n := inject_Z (Z.of_nat (List.length columns)) in
  dd <- map_res (fun nd => r <- column_means columns (snd nd) ;; Ok (fst nd, r)) datas ;;
  let lines := map (fun nd => (fst nd, pair_line (snd nd))) datas in
  boxes <- category_boxes lang columns ;;
  _ <- map_res (pair_label lang) columns ;;
  _ <- lang_lookup lang ;;
  Ok (dd, mkFigure [(0, n + (1 # 2)); (0, 1 # 2)] lines boxes
                   (ticks (tick_labels lang 0 columns)) (ticks (tick_labels lang 1 columns))
                   (n + (1 # 2), 1 # 2) (-3, 3)).

End WordPair.

(** The stacked layout of boxes of the given sizes from height [y]:
    each box starts where the previous one ends. *)
Fixpoint stacked (y : nat) (sizes : list nat) : list (nat * nat) :=
  match sizes with
  | [] => []
  | s :: ss => (y, s) :: stacked (y + s) ss
  end.

(** ** The box loop *)

Lemma stacked_sizes y sizes : map snd (stacked y sizes) = sizes.
Proof. revert y. induction sizes as [|s ss IH]; intros y; cbn; [reflexivity|]. rewrite IH. reflexivity. Qed.

Section Boxes.
Context {S : Schema}.

(** The loop invariant: after the categories [ccs], the running height
    has grown by their sizes and the boxes drawn are the stacked layout
    of those sizes from the starting height. *)
Lemma box_fold x w columns ccs y bs :
  fst (fold_left (box_step x w columns) ccs (y, bs)) =
    (y + list_sum (map (fun cc => List.length (filter (fun c => str_contains (fst cc) c) columns)) ccs))%nat /\
  exists new, snd (fold_left (box_step x w columns) ccs (y, bs)) = (bs ++ new)%list /\
    map box_cat new = map fst ccs /\
    map (fun b => (box_y b, box_height b)) new =
      map (fun p => (fst p, Z.of_nat (snd p) - 1)%Z)
          (stacked y (map (fun cc => List.length (filter (fun c => str_contains (fst cc) c) columns)) ccs)).
Proof.
  revert y bs. induction ccs as [|cc ccs IH]; intros y bs; cbn [fold_left map list_sum stacked].
  - split; [cbn; lia|]. exists []. rewrite app_nil_r. auto.
  - cbn [box_step].
    match goal with |- context [fold_left _ ccs (?y', (bs ++ [?b])%list)] =>
      destruct (IH y' (bs ++ [b])%list) as [Hy (new & E & Hc & Hl)];
      split; [rewrite Hy; unfold list_sum; cbn [map fold_right]; lia|exists (b :: new)] end.
    rewrite E, <- app_assoc. split; [reflexivity|]. cbn [map]. rewrite Hc, Hl. split; reflexivity.
Qed.

Lemma category_boxes_layout lang columns bs :
  category_boxes lang columns = Ok bs ->
  map box_cat bs = firstn 4 categories /\
  map (fun b => (box_y b, box_height b)) bs =
    map (fun p => (fst p, Z.of_nat (snd p) - 1)%Z) (stacked 1 (firstn 4 (category_sizes columns))).
Proof.
  intros H. assert (Hf : firstn 4 categories = map fst (combine categories box_colours))
    by (rewrite map_fst_combine_firstn; reflexivity).
  unfold category_sizes. rewrite firstn_map, Hf, map_map.
  unfold category_boxes in H. destruct (combine categories box_colours) as [|cc ccs].
  - injection H as <-. split; reflexivity.
  - destruct (assoc lang xpos_table) as [x|]; [|discriminate].
    destruct (assoc lang length_table) as [w|]; [|discriminate].
    destruct (box_fold x w columns (cc :: ccs) 1 []) as [_ (new & E & Hc & Hl)].
    cbn [of_option bind] in H. rewrite E in H. injection H as <-. split; assumption.
Qed.

(** C22: The loop of lines 126-130 draws the stacked layout: one box per
    category (the first four, [zip] stops with the colours), the k-th
    starting at height 1 plus the sizes of the previous ones and of
    height its size minus one. *)
Theorem category_boxes_stacked lang columns bs :
  category_boxes lang columns = Ok bs ->
  map box_cat bs = firstn 4 categories /\
  map (fun b => (box_y b, box_height b)) bs =
    map (fun p => (fst p, Z.of_nat (snd p) - 1)%Z) (stacked 1 (firstn 4 (category_sizes columns))).
Proof. intros H. exact (category_boxes_layout lang columns bs H). Qed.

Lemma box_sizes lang columns bs :
  category_boxes lang columns = Ok bs ->
  map (fun b => Z.to_nat (box_height b + 1)) bs = firstn 4 (category_sizes columns).
Proof.
  intros H. destruct (category_boxes_layout lang columns bs H) as [_ Hl].
  apply (f_equal (map snd)) in Hl. rewrite !map_map in Hl. cbn [snd] in Hl.
  transitivity (map (fun h => Z.to_nat (h + 1)) (map (fun b => box_height b) bs)); [rewrite map_map; reflexivity|].
  rewrite Hl, map_map. transitivity (map snd (stacked 1 (firstn 4 (category_sizes columns))));
    [apply map_ext; intros p; lia|apply stacked_sizes].
Qed.

Lemma category_boxes_ok lang columns :
  In lang xpos_langs -> exists bs, category_boxes lang columns = Ok bs.
Proof.
  intros Hl. destruct (assoc_In lang xpos_table Hl) as (x & Ex).
  destruct (assoc_In lang length_table Hl) as (w & Ew).
  unfold category_boxes. destruct (combine categories box_colours); [eauto|].
  rewrite Ex, Ew. eexists. reflexivity.
Qed.

End Boxes.

(** C23: With the AttrakDiff categories, for every table of canonical
    keys, the four boxes are drawn for QP, QHI, QHS and ATT and their
    sizes add up to the number of pairs: stacked from height 1, they
    span exactly the heights of the pairs. *)
Theorem attrakdiff_boxes_cover (first : frame cell) lang :
  incl (columns first) attrakdiff_pairs -> In lang xpos_langs ->
  exists bs, category_boxes (S:=attrakdiff_schema) lang (columns first) = Ok bs /\
    map box_cat bs = ["QP"; "QHI"; "QHS"; "ATT"] /\
    list_sum (map (fun b => Z.to_nat (box_height b + 1)) bs) = List.length (columns first).
Proof.
  intros H Hl. destruct (category_boxes_ok lang (columns first) Hl) as (bs & E).
  exists bs. split; [exact E|]. split; [exact (proj1 (category_boxes_layout _ _ _ E))|].
  rewrite (box_sizes _ _ _ E). cbn [firstn categories attrakdiff_schema].
  rewrite <- (Permutation_length (attrakdiff_cat2dict_perm first H)).
  rewrite length_concat. unfold category_sizes, cat2dict. rewrite !map_map. reflexivity.
Qed.

(** ** The returned table and the figure *)

Section Table.
Context {S : Schema}.

Lemma column_means_keys columns dF r :
  column_means columns dF = Ok r -> map fst r = columns.
Proof.
  intros H. rewrite <- (map_id columns). revert H. apply map_res_map.
  intros col y _ H. destruct (lookup_col col (cols dF)); [|discriminate].
  injection H as <-. reflexivity.
Qed.

Lemma column_means_ok columns (d : frame cell) :
  incl columns (Frame.columns d) -> exists r, column_means columns d = Ok r.
Proof.
  intros Hincl. destruct (map_res_Forall2 (fun col => s <- of_option (lookup_col col (cols d)) (KeyError_Columns [col]) ;;
                      Ok (col, series_mean s)) (fun col => In col (Frame.columns d)) (fun _ _ => True) columns)
    as (r & E & _); [apply Forall_forall; exact Hincl| |exists r; exact E].
  intros col Hin. destruct (lookup_col col (cols d)) as [s|] eqn:Ec.
  - eexists. split; [reflexivity|exact I].
  - apply lookup_col_None in Ec. contradiction.
Qed.

Lemma word_table_ok datas (first : frame cell) :
  Forall (fun nd => incl (columns first) (columns (snd nd))) datas ->
  exists r, map_res (fun nd : string * frame cell => m <- column_means (columns first) (snd nd) ;; Ok (fst nd, m))
                    datas = Ok r.
Proof.
  intros Hall. destruct (map_res_Forall2 (fun nd => r <- column_means (columns first) (snd nd) ;; Ok (fst nd, r))
              _ (fun _ _ => True) datas Hall) as (r & E & _); [|exists r; exact E].
  intros [n d] Hincl. destruct (column_means_ok (columns first) d Hincl) as (r & Er).
  cbn [snd]. rewrite Er. eexists. split; [reflexivity|exact I].
Qed.

Lemma pair_labels_ok lang (cs : list string) :
  In lang locales -> incl cs pairs -> map_res (pair_label lang) cs = Ok (map (fun _ => tt) cs).
Proof.
  intros Hl Hc. apply map_res_ok. intros col Hin. unfold pair_label.
  rewrite (proj2 (existsb_eqb_In _ _) (Hc col Hin)). exact (lang_lookup_ok lang Hl).
Qed.

(** The word-pair table has one entry per dataset, in insertion
    order, each listing the columns of the first dataset in its order. *)
Theorem plotWordPair_keys datas lang first r fig :
  first_dataset datas = Ok first ->
  plotWordPair datas lang = Ok (r, fig) ->
  map fst r = map fst datas /\ Forall (fun e => map fst (snd e) = columns first) r.
Proof.
  intros Hf. unfold plotWordPair. rewrite Hf. cbn [bind].
  destruct (map_res _ datas) as [dd|] eqn:E; [|discriminate]. cbn [bind].
  destruct (category_boxes lang (columns first)); [|discriminate]. cbn [bind].
  destruct (map_res _ (columns first)); [|discriminate]. cbn [bind].
  destruct (lang_lookup lang); [|discriminate]. intros [= <- _]. split.
  - revert E. apply map_res_map. intros [n d] y _ Hy. cbn in Hy.
    destruct (column_means _ d); [|discriminate]. injection Hy as <-. reflexivity.
  - apply map_res_Ok_inv in E. clear Hf. induction E as [|[n d] y l ys Hxy _ IH]; [constructor|constructor; [|exact IH]].
    cbn in Hxy. destruct (column_means _ d) as [rs|] eqn:E'; [|discriminate].
    injection Hxy as <-. exact (column_means_keys _ _ _ E').
Qed.

Lemma plotWordPair_ok datas first lang :
  first_dataset datas = Ok first -> Forall (fun nd => incl (columns first) (columns (snd nd))) datas ->
  incl (columns first) pairs -> In lang locales -> In lang xpos_langs ->
  exists r, plotWordPair datas lang = Ok r.
Proof.
  intros Hf Hall Hp Hl Hx. unfold plotWordPair. rewrite Hf. cbn [bind].
  destruct (word_table_ok datas first Hall) as (r & E). rewrite E. cbn [bind].
  destruct (category_boxes_ok lang (columns first) Hx) as (bs & Eb). rewrite Eb. cbn [bind].
  rewrite (pair_labels_ok lang _ Hl Hp). cbn [bind]. rewrite (lang_lookup_ok lang Hl).
  eexists. reflexivity.
Qed.

(** What a successful call draws. *)
Lemma plotWordPair_fig datas lang first dd fig :
  first_dataset datas = Ok first -> plotWordPair datas lang = Ok (dd, fig) ->
  fig_lines fig = map (fun nd => (fst nd, pair_line (snd nd))) datas /\
  category_boxes lang (columns first) = Ok (fig_boxes fig) /\
  fig_left fig = ticks (tick_labels lang 0 (columns first)) /\
  fig_right fig = ticks (tick_labels lang 1 (columns first)) /\
  fig_ylim fig = (inject_Z (Z.of_nat (List.length (columns first))) + (1 # 2), 1 # 2).
Proof.
  intros Hf. unfold plotWordPair. rewrite Hf. cbn [bind].
  destruct (map_res _ datas); [|discriminate]. cbn [bind].
  destruct (category_boxes lang (columns first)) as [bs|] eqn:Eb; [|discriminate]. cbn [bind].
  destruct (map_res _ (columns first)); [|discriminate]. cbn [bind].
  destruct (lang_lookup lang); [|discriminate]. intros [= _ <-]. cbn. auto.
Qed.

End Table.

(** ** Points and tick labels *)

(** The i-th point of a dataset's polyline: the mean of its i-th column
    at height [len - i]. *)
Lemma line_at (d : frame cell) j :
  (j < List.length (cols d))%nat ->
  nth_error (pair_line d) j =
    option_map (fun c => (series_mean (snd c), (List.length (cols d) - j)%nat)) (nth_error (cols d) j).
Proof.
  intros Hj. unfold pair_line, frame_mean. rewrite length_map, nth_error_combine, nth_error_map, nth_error_map.
  rewrite (nth_error_rev_seq _ _ Hj). destruct (nth_error (cols d) j); reflexivity.
Qed.

(** The tick at height [len - i] carries the word of the i-th column. *)
Lemma tick_at lang side (columns : list string) j :
  (j < List.length columns)%nat ->
  nth_error (ticks (tick_labels lang side columns)) (List.length columns - j) =
    option_map (fun c => ((List.length columns - j)%nat, PairWord c lang side)) (nth_error columns j).
Proof.
  intros Hj. unfold ticks, tick_labels.
  rewrite nth_error_combine, length_rev, length_app, length_map, nth_error_seq, nth_error_rev,
    length_app, length_map.
  cbn [List.length]. replace (Nat.ltb (List.length columns - j) (List.length columns + 1)) with true
    by (symmetry; apply Nat.ltb_lt; lia).
  replace (List.length columns + 1 - S (List.length columns - j))%nat with j by lia.
  rewrite nth_error_app1 by (rewrite length_map; exact Hj). rewrite nth_error_map.
  destruct (nth_error columns j); reflexivity.
Qed.

Section Alignment.
Context {S : Schema}.

(** C24: When a dataset has the columns of the first, each of its points
    is drawn at the height of the tick that names its column: the mean of
    the j-th column [c] is drawn at height [n - j], where both the left
    and the right tick labels are the words of [c]. *)
Theorem plotWordPair_aligned datas lang first dd fig name d j :
  first_dataset datas = Ok first -> plotWordPair datas lang = Ok (dd, fig) ->
  In (name, d) datas -> columns d = columns first -> (j < List.length (columns first))%nat ->
  exists c v, nth_error (columns first) j = Some c /\ nth_error (frame_mean d) j = Some (c, v) /\
    In (name, pair_line d) (fig_lines fig) /\
    nth_error (pair_line d) j = Some (v, (List.length (columns first) - j)%nat) /\
    nth_error (fig_left fig) (List.length (columns first) - j) =
      Some ((List.length (columns first) - j)%nat, PairWord c lang 0) /\
    nth_error (fig_right fig) (List.length (columns first) - j) =
      Some ((List.length (columns first) - j)%nat, PairWord c lang 1).
Proof.
  intros Hf Hp Hin Hc Hj. destruct (plotWordPair_fig _ _ _ _ _ Hf Hp) as (Hl & _ & HL & HR & _).
  assert (Hlen : List.length (cols d) = List.length (columns first))
    by (rewrite <- Hc; unfold columns; rewrite length_map; reflexivity).
  destruct (nth_error (cols d) j) as [[c s]|] eqn:Ej;
    [|apply nth_error_None in Ej; lia].
  assert (Ec : nth_error (columns first) j = Some c)
    by (rewrite <- Hc; unfold columns; rewrite nth_error_map, Ej; reflexivity).
  exists c, (series_mean s). split; [exact Ec|]. split.
  - unfold frame_mean. rewrite nth_error_map, Ej. reflexivity.
  - split; [rewrite Hl; apply (in_map (fun nd => (fst nd, pair_line (snd nd))) _ _ Hin)|].
    rewrite line_at, Ej, Hlen by lia. split; [reflexivity|].
    rewrite HL, HR, !tick_at, Ec by exact Hj. split; reflexivity.
Qed.

(** C25: When a dataset has more columns than the first, [plotWordPair]
    still draws it against the tick labels of the first: the mean of its
    j-th column [c] is at height [m - j] ([m] its number of columns, [n]
    that of the first), so the points with [j < m - n] lie above the
    upper limit [n + 1/2] of the axis, and the others face the tick of
    the first dataset's column [j - (m - n)], not the word of [c]. *)
Theorem plotWordPair_misaligned datas lang first dd fig name d j :
  first_dataset datas = Ok first -> plotWordPair datas lang = Ok (dd, fig) ->
  In (name, d) datas -> (List.length (columns first) < List.length (columns d))%nat ->
  (j < List.length (columns d))%nat ->
  exists c v, nth_error (columns d) j = Some c /\ nth_error (frame_mean d) j = Some (c, v) /\
    In (name, pair_line d) (fig_lines fig) /\
    nth_error (pair_line d) j = Some (v, (List.length (columns d) - j)%nat) /\
    ((j < List.length (columns d) - List.length (columns first))%nat ->
       fst (fig_ylim fig) < inject_Z (Z.of_nat (List.length (columns d) - j))) /\
    ((List.length (columns d) - List.length (columns first) <= j)%nat ->
       exists c', nth_error (columns first) (j - (List.length (columns d) - List.length (columns first))) = Some c' /\
         nth_error (fig_left fig) (List.length (columns d) - j) =
           Some ((List.length (columns d) - j)%nat, PairWord c' lang 0)).
Proof.
  intros Hf Hp Hin Hlt Hj. destruct (plotWordPair_fig _ _ _ _ _ Hf Hp) as (Hl & _ & HL & _ & Hy).
  assert (Hlen : List.length (cols d) = List.length (columns d)) by (unfold columns; rewrite length_map; reflexivity).
  destruct (nth_error (cols d) j) as [[c s]|] eqn:Ej; [|apply nth_error_None in Ej; lia].
  exists c, (series_mean s). split; [unfold columns; rewrite nth_error_map, Ej; reflexivity|].
  split; [unfold frame_mean; rewrite nth_error_map, Ej; reflexivity|].
  split; [rewrite Hl; apply (in_map (fun nd => (fst nd, pair_line (snd nd))) _ _ Hin)|].
  rewrite line_at, Ej, Hlen by lia. split; [reflexivity|]. split.
  - intros Hj'. rewrite Hy. unfold Qlt, Qplus, inject_Z. cbn [fst Qnum Qden]. lia.
  - intros Hj'. rewrite HL.
    pose proof (tick_at lang 0 (columns first) (j - (List.length (columns d) - List.length (columns first)))) as Ht.
    replace (List.length (columns first) - (j - (List.length (columns d) - List.length (columns first))))%nat
      with (List.length (columns d) - j)%nat in Ht by lia.
    destruct (nth_error (columns first) _) as [c'|] eqn:Ec; [|apply nth_error_None in Ec; lia].
    exists c'. split; [reflexivity|]. apply Ht. lia.
Qed.

End Alignment.

Lemma category_boxes_stacked_witness :
  exists bs, category_boxes (S:=attrakdiff_schema) "fr" (canonical_keys attrakdiff_short) = Ok bs /\
  map box_cat bs = firstn 4 categories /\
  map (fun b => (box_y b, box_height b)) bs =
    map (fun p => (fst p, Z.of_nat (snd p) - 1)%Z)
        (stacked 1 (firstn 4 (category_sizes (S:=attrakdiff_schema) (canonical_keys attrakdiff_short)))).
Proof. eexists. split; [reflexivity|]. apply (category_boxes_stacked "fr"). reflexivity. Defined.

Lemma attrakdiff_boxes_cover_witness :
  exists bs, category_boxes (S:=attrakdiff_schema) "de" (columns (header_frame (canonical_keys attrakdiff_short))) = Ok bs /\
    map box_cat bs = ["QP"; "QHI"; "QHS"; "ATT"] /\
    list_sum (map (fun b => Z.to_nat (box_height b + 1)) bs) =
      List.length (columns (header_frame (canonical_keys attrakdiff_short))).
Proof.
  apply attrakdiff_boxes_cover; [apply incl_b_spec; vm_compute; reflexivity|right; right; left; reflexivity].
Defined.

Lemma plotWordPair_keys_witness :
  exists r fig, plotWordPair (S:=attrakdiff_schema)
              [("A", zero_frame attrakdiff_pairs 2); ("B", zero_frame attrakdiff_pairs 3)] "en" = Ok (r, fig) /\
    map fst r = ["A"; "B"] /\ Forall (fun e => map fst (snd e) = columns (zero_frame attrakdiff_pairs 2)) r.
Proof.
  do 2 eexists. split; [reflexivity|].
  eapply (plotWordPair_keys [("A", zero_frame attrakdiff_pairs 2); ("B", zero_frame attrakdiff_pairs 3)] "en");
    reflexivity.
Defined.

Lemma plotWordPair_aligned_witness :
  exists dd fig, plotWordPair (S:=attrakdiff_schema)
      [("A", zero_frame attrakdiff_pairs 2); ("B", zero_frame attrakdiff_pairs 3)] "en" = Ok (dd, fig) /\
  exists c v, nth_error (columns (zero_frame attrakdiff_pairs 2)) 5 = Some c /\
    nth_error (frame_mean (zero_frame attrakdiff_pairs 3)) 5 = Some (c, v) /\
    In ("B", pair_line (zero_frame attrakdiff_pairs 3)) (fig_lines fig) /\
    nth_error (pair_line (zero_frame attrakdiff_pairs 3)) 5 = Some (v, 23%nat) /\
    nth_error (fig_left fig) 23 = Some (23%nat, PairWord c "en" 0) /\
    nth_error (fig_right fig) 23 = Some (23%nat, PairWord c "en" 1).
Proof.
  do 2 eexists. split; [reflexivity|].
  eapply (plotWordPair_aligned [("A", zero_frame attrakdiff_pairs 2); ("B", zero_frame attrakdiff_pairs 3)] "en"
           (zero_frame attrakdiff_pairs 2) _ _ "B" (zero_frame attrakdiff_pairs 3) 5);
    [reflexivity|reflexivity|right; left; reflexivity|reflexivity|cbn; lia].
Defined.

Lemma plotWordPair_misaligned_witness :
  exists dd fig, plotWordPair (S:=attrakdiff_schema)
      [("S", zero_frame (canonical_keys attrakdiff_short) 1); ("L", zero_frame attrakdiff_pairs 1)] "en" = Ok (dd, fig) /\
  exists c v, nth_error (columns (zero_frame attrakdiff_pairs 1)) 0 = Some c /\
    nth_error (frame_mean (zero_frame attrakdiff_pairs 1)) 0 = Some (c, v) /\
    In ("L", pair_line (zero_frame attrakdiff_pairs 1)) (fig_lines fig) /\
    nth_error (pair_line (zero_frame attrakdiff_pairs 1)) 0 = Some (v, 28%nat) /\
    ((0 < 28 - 10)%nat -> fst (fig_ylim fig) < inject_Z (Z.of_nat 28)) /\
    ((28 - 10 <= 0)%nat -> exists c', nth_error (columns (zero_frame (canonical_keys attrakdiff_short) 1)) (0 - (28 - 10)) = Some c' /\
         nth_error (fig_left fig) 28 = Some (28%nat, PairWord c' "en" 0)).
Proof.
  do 2 eexists. split; [reflexivity|].
  exact (plotWordPair_misaligned [("S", zero_frame (canonical_keys attrakdiff_short) 1); ("L", zero_frame attrakdiff_pairs 1)] "en"
           (zero_frame (canonical_keys attrakdiff_short) 1) _ _ "L" (zero_frame attrakdiff_pairs 1) 0
           eq_refl eq_refl (or_intror (or_introl eq_refl)) ltac:(vm_compute; lia) ltac:(vm_compute; lia)).
Defined.
