(* ===== verification/Datasets.v ===== *)
(** * Several datasets: the aggregators together

    The three aggregators read the same dict [datas] and the same
    language.  This file gathers what holds of them together: an
    unknown language raises a KeyError in each of them, at different
    moments ([plotAttrakdiff] before anything else, the two others
    after their summary table, whose errors come first), and they all
    take their columns from the first dataset, so that a short export
    and a long one can be compared in one order only. *)

From S2P Require Import Prelude Naming Frame LoadCSV Categories Interval Plots WordPair.
From Stdlib Require Import String ZArith QArith List Lia.
Import ListNotations.
Local Open Scope string_scope.

Lemma plotWordPair_long_first (Ts Tl : frame cell) (a b lang : string) :
  columns Ts = canonical_keys attrakdiff_short -> columns Tl = attrakdiff_pairs ->
  plotWordPair (S:=attrakdiff_schema) [(a, Tl); (b, Ts)] lang = Err (KeyError_Columns ["QP1"]).
Proof.
  intros HTs HTl.
  unfold plotWordPair. cbn [first_dataset bind map_res snd fst].
  destruct (column_means_ok (columns Tl) Tl (incl_refl _)) as (r & Er). rewrite Er. cbn [bind].
  unfold column_means at 1. rewrite HTl.
  replace attrakdiff_pairs with ("QP1" :: tl attrakdiff_pairs) by reflexivity. cbn [map_res].
  replace (lookup_col "QP1" (cols Ts)) with (@None (list cell)); [reflexivity|].
  symmetry. apply lookup_col_None. change (~ In "QP1" (columns Ts)).
  rewrite HTs. apply existsb_eqb_notIn. vm_compute. reflexivity.
Qed.

Section Lang.
Context {S : Schema} {T : StudentT}.

(** C29: A language the label tables do not have makes every
    aggregator raise a KeyError, at different moments.
    [plotAttrakdiff] raises it first (lines 162-164), whatever [datas]
    holds, even an empty dict.  [plotAverageValues] raises it only after
    the whole summary table: it raises exactly the error a call with a
    known language [lang0] raises, and the KeyError where that call
    succeeds (lines 102-104).  [plotWordPair] raises it after the table
    of column means, at [xpos[lang]] (line 128): the errors of
    [next(iter(datas))] and of that table come first.  The spec's
    ConfigError does not exist. *)
Theorem aggregators_unknown_lang datas alpha lang lang0 :
  ~ In lang locales -> ~ In lang xpos_langs -> categories <> [] -> In lang0 locales ->
  plotAttrakdiff datas alpha lang = Err (KeyError_Key lang) /\
  plotAverageValues datas lang =
    match plotAverageValues datas lang0 with Ok _ => Err (KeyError_Key lang) | Err e => Err e end /\
  plotWordPair datas lang =
    match first_dataset datas with
    | Err e => Err e
    | Ok first =>
        match map_res (fun nd => r <- column_means (columns first) (snd nd) ;; Ok (fst nd, r)) datas with
        | Err e => Err e
        | Ok _ => Err (KeyError_Key lang)
        end
    end.
Proof.
  intros Hl Hx Hc Hl0. split; [unfold plotAttrakdiff; rewrite (lang_lookup_err lang Hl); reflexivity|].
  split.
  - unfold plotAverageValues. destruct (first_dataset datas); cbn [bind]; [|reflexivity].
    destruct (map_res _ datas); cbn [bind]; [|reflexivity].
    rewrite (lang_lookup_err lang Hl), (lang_lookup_ok lang0 Hl0). reflexivity.
  - unfold plotWordPair. destruct (first_dataset datas) as [first|]; cbn [bind]; [|reflexivity].
    destruct (map_res _ datas); cbn [bind]; [|reflexivity].
    unfold category_boxes. destruct categories as [|c cs]; [congruence|]. cbn [combine box_colours].
    rewrite (proj2 (assoc_None lang xpos_table) Hx). reflexivity.
Qed.

End Lang.

(** C28: The aggregators take their columns from the first dataset.
    With a table of a short export (10 canonical keys) and one of a long
    export (28 keys), the three aggregators succeed when the short table
    comes first, and raise a KeyError when the long table comes first:
    [dF[cat]] lacks QP1, QP4 and QP7, [dF[col]] lacks QP1, and the
    portfolio's [data[cat["QHI"]+cat["QHS"]]] lacks ten columns.
    Comparing datasets across the two schemas depends on their order. *)
Theorem aggregators_schema_order {T : StudentT} (Ts Tl : frame cell) (a b lang : string) alpha :
  columns Ts = canonical_keys attrakdiff_short -> columns Tl = attrakdiff_pairs ->
  In lang ["en"; "fr"; "de"] -> 0 <= alpha <= 1 ->
  (exists r, plotAverageValues (S:=attrakdiff_schema) [(a, Ts); (b, Tl)] lang = Ok r) /\
  (exists r, plotWordPair (S:=attrakdiff_schema) [(a, Ts); (b, Tl)] lang = Ok r) /\
  (exists r, plotAttrakdiff (S:=attrakdiff_schema) [(a, Ts); (b, Tl)] alpha lang = Ok r) /\
  plotAverageValues (S:=attrakdiff_schema) [(a, Tl); (b, Ts)] lang = Err (KeyError_Columns ["QP1"; "QP4"; "QP7"]) /\
  plotWordPair (S:=attrakdiff_schema) [(a, Tl); (b, Ts)] lang = Err (KeyError_Columns ["QP1"]) /\
  plotAttrakdiff (S:=attrakdiff_schema) [(a, Tl); (b, Ts)] alpha lang =
    Err (KeyError_Columns ["QHI1"; "QHI2"; "QHI5"; "QHI6"; "QHI7"; "QHS1"; "QHS3"; "QHS4"; "QHS6"; "QHS7"]).
Proof.
  intros HTs HTl Hl Ha.
  assert (Hsub : Forall (fun nd => incl (columns Ts) (columns (snd nd))) [(a, Ts); (b, Tl)]).
  { repeat constructor; cbn [snd]; [apply incl_refl|]. rewrite HTs, HTl. apply incl_b_spec. vm_compute. reflexivity. }
  split; [exact (plotAverageValues_ok [(a, Ts); (b, Tl)] Ts lang eq_refl Hsub Hl)|].
  split.
  - apply (plotWordPair_ok [(a, Ts); (b, Tl)] Ts lang eq_refl Hsub); [|exact Hl|exact Hl].
    rewrite HTs. apply incl_b_spec. vm_compute. reflexivity.
  - split; [exact (plotAttrakdiff_ok [(a, Ts); (b, Tl)] Ts alpha lang eq_refl Hsub Hl Ha)|].
    split; [exact (plotAverageValues_long_first Ts Tl a b lang HTs HTl)|].
    split; [exact (plotWordPair_long_first Ts Tl a b lang HTs HTl)|].
    exact (plotAttrakdiff_long_first Ts Tl a b lang alpha HTs HTl Hl Ha).
Qed.

Lemma aggregators_schema_order_witness :
  (exists r, plotAverageValues (S:=attrakdiff_schema)
               [("A", header_frame (canonical_keys attrakdiff_short)); ("B", header_frame attrakdiff_pairs)] "en" = Ok r) /\
  (exists r, plotWordPair (S:=attrakdiff_schema)
               [("A", header_frame (canonical_keys attrakdiff_short)); ("B", header_frame attrakdiff_pairs)] "en" = Ok r) /\
  (exists r, plotAttrakdiff (S:=attrakdiff_schema) (T:=linear_quantile)
               [("A", header_frame (canonical_keys attrakdiff_short)); ("B", header_frame attrakdiff_pairs)] (1#2) "en" = Ok r) /\
  plotAverageValues (S:=attrakdiff_schema)
    [("A", header_frame attrakdiff_pairs); ("B", header_frame (canonical_keys attrakdiff_short))] "en"
    = Err (KeyError_Columns ["QP1"; "QP4"; "QP7"]) /\
  plotWordPair (S:=attrakdiff_schema)
    [("A", header_frame attrakdiff_pairs); ("B", header_frame (canonical_keys attrakdiff_short))] "en"
    = Err (KeyError_Columns ["QP1"]) /\
  plotAttrakdiff (S:=attrakdiff_schema) (T:=linear_quantile)
    [("A", header_frame attrakdiff_pairs); ("B", header_frame (canonical_keys attrakdiff_short))] (1#2) "en"
    = Err (KeyError_Columns ["QHI1"; "QHI2"; "QHI5"; "QHI6"; "QHI7"; "QHS1"; "QHS3"; "QHS4"; "QHS6"; "QHS7"]).
Proof.
  apply aggregators_schema_order; [vm_compute; reflexivity|vm_compute; reflexivity|left; reflexivity|].
  split; [discriminate|discriminate].
Defined.

Lemma aggregators_unknown_lang_witness :
  plotAttrakdiff (S:=attrakdiff_schema) (T:=linear_quantile) [] (1#2) "it" = Err (KeyError_Key "it") /\
  plotAverageValues (S:=attrakdiff_schema) [] "it" = Err StopIteration_Empty /\
  plotWordPair (S:=attrakdiff_schema) [] "it" = Err StopIteration_Empty.
Proof.
  assert (Hl : ~ In "it" (locales (Schema:=attrakdiff_schema))) by (intros H; apply existsb_eqb_In in H; discriminate).
  assert (Hx : ~ In "it" xpos_langs) by (intros H; apply existsb_eqb_In in H; discriminate).
  destruct (aggregators_unknown_lang (S:=attrakdiff_schema) (T:=linear_quantile) [] (1#2) "it" "en" Hl Hx)
    as (H1 & H2 & H3); [discriminate|left; reflexivity|].
  split; [exact H1|]. split; [exact H2|exact H3].
Defined.
