(* ===== verification/Axes.v ===== *)
(** * The chart axes and the values drawn on them

    The average-values chart fixes its y axis to [-3, 3] (line 104,
    [ylim=[-3, 3]]) and the portfolio both of its axes (lines 153-154,
    [plt.xlim([-3, 3])], [plt.ylim([-3, 3])]).  This file shows that
    these limits never hide a value: on datasets whose values lie in
    [-3, 3], which is what [loadCSV] returns from exports answered on
    the 1..7 scale, every average and every portfolio point lies within
    the limits.  It also shows that each confidence rectangle the
    portfolio draws with finite corners contains the point it belongs
    to. *)

From S2P Require Import Prelude Naming Frame LoadCSV Categories Interval Plots.
From Stdlib Require Import String ZArith QArith Qreals Reals List Lia Lqa.
Import ListNotations.
Local Open Scope string_scope.

(** Lines 153-154: [plt.xlim([-3, 3])] and [plt.ylim([-3, 3])] of the
    portfolio. *)
Definition portfolio_xlim : Q * Q := (-3, 3)%Q.
Definition portfolio_ylim : Q * Q := (-3, 3)%Q.

(** A value drawn within the limits of an axis ([NaN] is not drawn). *)
Definition in_limits (lim : Q * Q) (v : option Q) : Prop :=
  match v with Some q => (fst lim <= q <= snd lim)%Q | None => True end.

(** Every point of every line of the average-values chart lies within
    the chart's y limits. *)
Definition chart_in_ylim (fig : av_figure) : Prop :=
  Forall (fun l => Forall (fun pt => in_limits (av_ylim fig) (snd pt)) (snd l)) (av_lines fig).

(** Every point of the portfolio lies within both axis limits. *)
Definition points_in_limits (pts : list (string * (option Q * option Q))) : Prop :=
  Forall (fun p => in_limits portfolio_xlim (fst (snd p)) /\ in_limits portfolio_ylim (snd (snd p))) pts.

(** A rectangle with finite corners contains the point [(x, y)]. *)
Definition rect_contains (p : option Q * option Q) (r : option rectangle) : Prop :=
  match p, r with
  | (Some x, Some y), Some ((XFin lx, XFin ux), (XFin ly, XFin uy)) =>
      (lx <= Q2R x <= ux)%R /\ (ly <= Q2R y <= uy)%R
  | _, _ => True
  end.

(** For the witnesses: two respondents answering 1 and 7 to every pair. *)
Definition spread_frame : frame cell :=
  mkFrame 2 (map (fun k => (k, [Some (-3)%Z; Some 3%Z])) attrakdiff_pairs).

(** ** Means of bounded samples *)

Section Bounds.
Context (lo hi : Q).

Lemma qsum_bounds (l : list Q) :
  Forall (fun q => lo <= q <= hi)%Q l ->
  (inject_Z (Z.of_nat (List.length l)) * lo <= qsum l <= inject_Z (Z.of_nat (List.length l)) * hi)%Q.
Proof.
  induction 1 as [|q l Hq _ IH]; [unfold qsum; cbn [fold_right List.length]; change (inject_Z (Z.of_nat 0)) with 0%Q; lra|].
  unfold qsum in *. cbn [fold_right List.length].
  rewrite Nat2Z.inj_succ, <- Z.add_1_r, inject_Z_plus. change (inject_Z 1) with 1%Q. nra.
Qed.

Lemma qmean_bounds (l : list Q) m :
  Forall (fun q => lo <= q <= hi)%Q l -> qmean l = Some m -> (lo <= m <= hi)%Q.
Proof.
  intros Hl Hm. destruct l as [|x l']; [discriminate|]. injection Hm as <-.
  pose proof (qsum_bounds _ Hl) as [H1 H2].
  assert (Hn : (0 < inject_Z (Z.of_nat (List.length (x :: l'))))%Q)
    by (change 0%Q with (inject_Z 0); rewrite <- Zlt_Qlt; cbn [List.length]; lia).
  split.
  - apply Qle_shift_div_l; [exact Hn|rewrite Qmult_comm; exact H1].
  - apply Qle_shift_div_r; [exact Hn|rewrite Qmult_comm; exact H2].
Qed.

End Bounds.

Lemma dropna_bounds s :
  Forall normalized_in_bounds s -> Forall (fun z => -3 <= z <= 3)%Z (dropna s).
Proof.
  induction 1 as [|c s Hc _ IH]; [constructor|].
  destruct c as [z|]; cbn; [constructor|]; assumption.
Qed.

Lemma zmean_bounds (l : list Z) m :
  Forall (fun z => -3 <= z <= 3)%Z l -> zmean l = Some m -> (-3 <= m <= 3)%Q.
Proof.
  intros Hl. apply qmean_bounds. apply Forall_map. eapply Forall_impl; [|exact Hl].
  intros z [H1 H2]. split; [change (-3)%Q with (inject_Z (-3)) | change 3%Q with (inject_Z 3)];
    rewrite <- Zle_Qle; assumption.
Qed.

Lemma mean_of_means_bounds (f : frame cell) m :
  all_cells normalized_in_bounds f -> mean_of_means f = Some m -> (-3 <= m <= 3)%Q.
Proof.
  intros Hf. apply qmean_bounds. apply Forall_flat_map, Forall_map.
  eapply Forall_impl; [|exact Hf]. intros [k s] Hs. cbn [snd].
  destruct (series_mean s) as [q|] eqn:E; [|constructor].
  constructor; [|constructor]. exact (zmean_bounds _ _ (dropna_bounds _ Hs) E).
Qed.

Lemma stack_bounds (f : frame cell) :
  all_cells normalized_in_bounds f -> Forall (fun z => -3 <= z <= 3)%Z (stack f).
Proof.
  intros Hf. apply Forall_flat_map, Forall_forall. intros r _. apply dropna_bounds.
  apply Forall_map. eapply Forall_impl; [|exact Hf]. intros [k s] Hs. cbn [snd].
  destruct (nth_in_or_default r s None) as [Hin|E]; [|rewrite E; exact I].
  rewrite Forall_forall in Hs. exact (Hs _ Hin).
Qed.

Lemma interval_mean {T : StudentT} data alpha r : interval data alpha = Ok r -> fst r = zmean data.
Proof. unfold interval. destruct (t_interval _ _ _ _); [|discriminate]. intros [= <-]. reflexivity. Qed.

(** ** The aggregators *)

Section Aggregators.
Context {S : Schema} {T : StudentT}.

Lemma category_means_bounds cat (d : frame cell) r :
  all_cells normalized_in_bounds d -> category_means cat d = Ok r ->
  Forall (fun v => in_limits average_ylim (snd v)) r.
Proof.
  intros Hd E. apply map_res_Ok_inv in E. apply (Forall2_Forall_r _ cat).
  eapply Forall2_impl; [|exact E]. intros nc v Hv. cbv beta in Hv.
  destruct (select (snd nc) d) as [g|] eqn:Es; cbn [bind] in Hv; [|discriminate]. injection Hv as <-.
  cbn [snd in_limits]. destruct (mean_of_means g) as [m|] eqn:Em; [|exact I].
  exact (mean_of_means_bounds g m (select_cells _ _ _ _ Hd Es) Em).
Qed.

Lemma portfolio_point_inv alpha cat (d : frame cell) p :
  portfolio_point alpha cat d = Ok p ->
  exists labels_h labels_p QH QP rx ry,
    select labels_h d = Ok QH /\ select labels_p d = Ok QP /\
    interval (stack QP) alpha = Ok rx /\ interval (stack QH) alpha = Ok ry /\
    p = ((fst rx, fst ry), if Qeq_bool alpha 0 then None else Some (snd rx, snd ry)).
Proof.
  unfold portfolio_point.
  destruct (cat_get cat "QHI") as [qhi|]; cbn [bind]; [|discriminate].
  destruct (cat_get cat "QHS") as [qhs|]; cbn [bind]; [|discriminate].
  destruct (select (qhi ++ qhs) d) as [QH|] eqn:EH; cbn [bind]; [|discriminate].
  destruct (cat_get cat "QP") as [qp|]; cbn [bind]; [|discriminate].
  destruct (select qp d) as [QP|] eqn:EP; cbn [bind]; [|discriminate].
  destruct (interval (stack QP) alpha) as [rx|] eqn:Ex; cbn [bind]; [|discriminate].
  destruct (interval (stack QH) alpha) as [ry|] eqn:Ey; cbn [bind]; [|discriminate].
  intros [= <-]. exists (qhi ++ qhs)%list, qp, QH, QP, rx, ry. auto.
Qed.

Lemma mean_in_limits (g : frame cell) lim :
  fst lim = (-3)%Q -> snd lim = 3%Q ->
  all_cells normalized_in_bounds g -> in_limits lim (zmean (stack g)).
Proof.
  intros H1 H2 Hg. destruct (zmean (stack g)) as [m|] eqn:E; [|exact I].
  cbn [in_limits]. rewrite H1, H2. exact (zmean_bounds _ _ (stack_bounds _ Hg) E).
Qed.

Lemma portfolio_point_bounds alpha cat (d : frame cell) p :
  all_cells normalized_in_bounds d -> portfolio_point alpha cat d = Ok p ->
  in_limits portfolio_xlim (fst (fst p)) /\ in_limits portfolio_ylim (snd (fst p)).
Proof.
  intros Hd H.
  destruct (portfolio_point_inv _ _ _ _ H) as (lh & lp & QH & QP & rx & ry & EH & EP & Ex & Ey & ->).
  cbn [fst]. rewrite (interval_mean _ _ _ Ex), (interval_mean _ _ _ Ey).
  split; apply mean_in_limits; try reflexivity; eapply select_cells; eassumption.
Qed.

Lemma portfolio_point_rect alpha cat (d : frame cell) p :
  portfolio_point alpha cat d = Ok p -> rect_contains (fst p) (snd p).
Proof.
  intros H.
  destruct (portfolio_point_inv _ _ _ _ H) as (lh & lp & QH & QP & [mx [lx ux]] & [my [ly uy]] & _ & _ & Ex & Ey & ->).
  cbn [fst snd]. destruct mx as [x|], my as [y|], (Qeq_bool alpha 0), lx, ux, ly, uy; cbn; trivial.
  split; eapply interval_finite_contains; eassumption.
Qed.

(** The lines of the average-values chart, on datasets of values in
    [-3, 3]. *)
Lemma average_values_bounded datas lang r fig :
  Forall (fun nd => all_cells normalized_in_bounds (snd nd)) datas ->
  plotAverageValues datas lang = Ok (r, fig) -> chart_in_ylim fig.
Proof.
  intros Hall. unfold plotAverageValues.
  destruct (first_dataset datas) as [first|]; cbn [bind]; [|discriminate].
  destruct (map_res _ datas) as [data|] eqn:E; cbn [bind]; [|discriminate].
  destruct (lang_lookup lang); cbn [bind]; [|discriminate]. intros [= _ <-].
  unfold chart_in_ylim, average_chart. cbn [av_lines av_ylim]. rewrite map_map.
  apply Forall_map. apply map_res_Ok_inv in E. apply (Forall2_Forall_r _ datas).
  apply (Forall_Forall2_l _ _ _ _ Hall) in E.
  eapply Forall2_impl; [|exact E]. intros [n d] e [Hd He]. cbn [snd] in Hd, He |- *.
  destruct (category_means _ d) as [m|] eqn:Em; cbn [bind] in He; [|discriminate]. injection He as <-.
  cbn [snd]. apply combine_Forall_snd, Forall_map.
  apply (reindex_rows_Forall (in_limits average_ylim));
    [rewrite (category_means_keys _ _ _ Em); apply incl_refl|exact (category_means_bounds _ _ _ Hd Em)].
Qed.

Lemma portfolio_table ds alpha lang pts rects :
  plotAttrakdiff ds alpha lang = Ok (pts, rects) ->
  exists first ps, first_dataset ds = Ok first /\
    map_res (fun nd => p <- portfolio_point alpha (cat2dict first) (snd nd) ;; Ok (fst nd, p)) ds = Ok ps /\
    pts = map (fun np => (fst np, fst (snd np))) ps /\ rects = map (fun np => snd (snd np)) ps.
Proof.
  unfold plotAttrakdiff. destruct (lang_lookup lang); cbn [bind]; [|discriminate].
  destruct (first_dataset ds) as [first|]; cbn [bind]; [|discriminate].
  destruct (map_res _ ds) as [ps|] eqn:E; cbn [bind]; [|discriminate].
  intros [= <- <-]. exists first, ps. auto.
Qed.

Lemma portfolio_points_bounded datas alpha lang pts rects :
  Forall (fun nd => all_cells normalized_in_bounds (snd nd)) datas ->
  plotAttrakdiff datas alpha lang = Ok (pts, rects) ->
  points_in_limits pts.
Proof.
  intros Hall H. unfold points_in_limits. destruct (portfolio_table _ _ _ _ _ H) as (first & ps & _ & E & -> & _).
  apply map_res_Ok_inv in E. apply Forall_map, (Forall2_Forall_r _ datas).
  apply (Forall_Forall2_l _ _ _ _ Hall) in E.
  eapply Forall2_impl; [|exact E]. intros [n d] np [Hd Hp]. cbn [snd] in Hd, Hp.
  destruct (portfolio_point _ _ d) as [p|] eqn:Ep; cbn [bind] in Hp; [|discriminate]. injection Hp as <-.
  exact (portfolio_point_bounds _ _ _ _ Hd Ep).
Qed.

Lemma portfolio_rects datas alpha lang pts rects :
  plotAttrakdiff datas alpha lang = Ok (pts, rects) ->
  Forall2 (fun p r => rect_contains (snd p) r) pts rects.
Proof.
  intros H. destruct (portfolio_table _ _ _ _ _ H) as (first & ps & _ & E & -> & ->).
  apply Forall_Forall2_map. apply map_res_Ok_inv in E. apply (Forall2_Forall_r _ datas).
  eapply Forall2_impl; [|exact E]. intros [n d] np Hp. cbn [snd] in Hp |- *.
  destruct (portfolio_point _ _ d) as [p|] eqn:Ep; cbn [bind] in Hp; [|discriminate].
  injection Hp as <-. exact (portfolio_point_rect _ _ _ _ Ep).
Qed.

Lemma loaded_bounded (datas : list (string * frame cell)) :
  Forall (fun nd => exists Tab, all_cells raw_in_scale Tab /\ loadCSV Tab = Ok (snd nd)) datas ->
  Forall (fun nd => all_cells normalized_in_bounds (snd nd)) datas.
Proof.
  intros H. eapply Forall_impl; [|exact H]. intros nd (Tab & Hs & Hl).
  exact (loadCSV_in_bounds Tab _ Hs Hl).
Qed.

End Aggregators.

(** ** Theorems *)

Section Theorems.
Context {S : Schema} {T : StudentT}.

(** C30: Composition of [loadCSV] with the aggregators: when every
    dataset is what [loadCSV] returned from an export answered on the
    1..7 scale, every average drawn by [plotAverageValues] and every
    point drawn by [plotAttrakdiff] lies within the axis limits. *)
Theorem loaded_datasets_in_axes datas lang alpha avg fig pts rects :
  Forall (fun nd => exists Tab, all_cells raw_in_scale Tab /\ loadCSV Tab = Ok (snd nd)) datas ->
  plotAverageValues datas lang = Ok (avg, fig) ->
  plotAttrakdiff datas alpha lang = Ok (pts, rects) ->
  chart_in_ylim fig /\ points_in_limits pts.
Proof.
  intros H Ha Hp. pose proof (loaded_bounded _ H) as Hb.
  exact (conj (average_values_bounded _ _ _ _ Hb Ha) (portfolio_points_bounded _ _ _ _ _ Hb Hp)).
Qed.

(** C31: Every confidence rectangle the portfolio draws with finite
    corners (line 178) contains the point drawn for its dataset (line
    174), whatever the confidence level. *)
Theorem plotAttrakdiff_rect_contains datas alpha lang pts rects :
  plotAttrakdiff datas alpha lang = Ok (pts, rects) ->
  Forall2 (fun p r => rect_contains (snd p) r) pts rects.
Proof. intros. eapply portfolio_rects; eassumption. Qed.

End Theorems.

(** ** Witnesses *)

Lemma loaded_datasets_in_axes_witness :
  exists A avg fig pts rects,
    loadCSV (uniform_table attrakdiff_long 2 (RNum 6%Z)) = Ok A /\
    plotAverageValues (S:=attrakdiff_schema) [("A", A)] "de" = Ok (avg, fig) /\
    plotAttrakdiff (S:=attrakdiff_schema) [("A", A)] (9 # 10) "de" = Ok (pts, rects) /\
    chart_in_ylim fig /\ points_in_limits pts.
Proof.
  set (A := match loadCSV (uniform_table attrakdiff_long 2 (RNum 6%Z)) with Ok t => t | Err _ => mkFrame 0 [] end).
  assert (HA : loadCSV (uniform_table attrakdiff_long 2 (RNum 6%Z)) = Ok A) by (vm_compute; reflexivity).
  exists A. do 4 eexists. split; [exact HA|]. split; [vm_compute; reflexivity|].
  split; [vm_compute; reflexivity|].
  eapply (loaded_datasets_in_axes [("A", A)] "de" (9 # 10)); [|vm_compute; reflexivity|vm_compute; reflexivity].
  constructor; [|constructor]. exists (uniform_table attrakdiff_long 2 (RNum 6%Z)).
  split; [repeat constructor; cbn; lia|exact HA].
Defined.

Lemma plotAttrakdiff_rect_contains_witness :
  exists pts rects, plotAttrakdiff (S:=attrakdiff_schema) [("A", spread_frame)] (1 # 2) "fr" = Ok (pts, rects) /\
    Forall2 (fun p r => rect_contains (snd p) r) pts rects.
Proof.
  do 2 eexists. split; [reflexivity|].
  eapply (plotAttrakdiff_rect_contains [("A", spread_frame)] (1 # 2) "fr"). reflexivity.
Defined.
