(* ===== verification/Packaging.v ===== *)
(** * Packaging: [setup.py] against the imports of attrakdiff.py

    [setup.py] (lines 45-65) declares the distribution: its name,
    version, the packages [pip] installs with it ([install_requires]),
    its console entry point.  [attrakdiff.py] (lines 36-46) imports
    modules of the standard library, of third-party packages and the
    project's own [naming] module.  The package is installable and
    importable only if every third-party top-level module the code
    imports is required.  The description strings, the classifiers and
    [readme()] (which reads README.md) have no bearing on that and are
    not modelled. *)

From S2P Require Import Prelude.
From Stdlib Require Import String Ascii List.
Import ListNotations.
Local Open Scope string_scope.

(** The arguments of [setup(...)] that decide what is installed. *)
Record package : Type := mkPackage {
  pkg_name : string;
  pkg_version : string;
  pkg_install_requires : list string;
  pkg_entry_points : list (string * string);
  pkg_include_package_data : bool;
  pkg_zip_safe : bool
}.

(** Lines 45-65. *)
Definition usat_package : package :=
  mkPackage "USAT" "0.1" ["matplotlib"; "pandas"; "streamlit"] [("USAT", "src.USAT")] true false.

(** An import statement: [from m import names] or [import m]. *)
Inductive import_stmt : Type :=
| ImportFrom (module : string) (names : list string)
| ImportModule (module : string).

(** Lines 36-46 of attrakdiff.py. *)
Definition attrakdiff_imports : list import_stmt :=
  [ImportFrom "typing" ["Dict"; "List"; "TypeVar"];
   ImportFrom "pandas" ["read_excel"; "DataFrame"; "read_csv"];
   ImportModule "matplotlib.pyplot";
   ImportFrom "matplotlib.patches" ["Rectangle"; "FancyBboxPatch"];
   ImportFrom "scipy" ["stats"];
   ImportFrom "math" ["sqrt"];
   ImportFrom "io" ["BytesIO"];
   ImportModule "pandas";
   ImportFrom "naming" ["categories"; "titles"; "order_long"; "order_short"; "pairs";
                        "i18n_dim"; "i18n_average"; "QPQH"; "plt_mean"; "plt_pair"; "plt_attr"]].

(** The top-level package of a dotted module name, the one [pip]
    installs: the prefix before the first dot. *)
Fixpoint top_module (m : string) : string :=
  match m with
  | EmptyString => EmptyString
  | String c rest => if Ascii.eqb c "."%char then EmptyString else String c (top_module rest)
  end.

Definition import_module (i : import_stmt) : string :=
  match i with ImportFrom m _ | ImportModule m => top_module m end.

(** The modules of Python's standard library the code imports, and the
    project's own modules: neither is installed from [install_requires]. *)
Definition stdlib_modules : list string := ["typing"; "math"; "io"].
Definition project_modules : list string := ["naming"].

(** The third-party modules the code imports that the package does not
    require. *)
Definition missing_requirements (p : package) (imports : list import_stmt) : list string :=
  nodup string_dec
    (filter (fun m => negb (existsb (String.eqb m) (stdlib_modules ++ project_modules ++ pkg_install_requires p)))
            (map import_module imports)).

(** The package installs matplotlib, pandas and streamlit, but
    attrakdiff.py also imports scipy (line 40, for [stats.t.interval]
    and [stats.sem]): scipy is the one third-party module it imports
    that [install_requires] does not list. *)
Theorem usat_missing_scipy :
  missing_requirements usat_package attrakdiff_imports = ["scipy"] /\
  In "scipy" (map import_module attrakdiff_imports) /\
  ~ In "scipy" (pkg_install_requires usat_package).
Proof.
  split; [vm_compute; reflexivity|]. split; [cbn; tauto|].
  cbn. intros [H|[H|[H|[]]]]; discriminate.
Qed.
