(* ===== verification/Main.v ===== *)
(** * The script entry point: the [__main__] block (attrakdiff.py, lines 194-200)

    Run as a script, the module loads "../test/test.csv" with [loadCSV]
    (line 195), opens a figure (line 198) and calls
    [plotWordPair(fig, ax, {'toto': X})] (line 199).  [plotWordPair]
    has four parameters without defaults (line 111: [fig], [ax],
    [datas], [lang]), so Python's binding of the three positional
    arguments to the parameters raises a TypeError before the body
    runs.  The file models that binding ([bind_args]), the call and the
    block.  [read_csv] is abstracted as in LoadCSV.v: the block takes
    the decoded table; the figure and axes are opaque values.

    The theorems: the block never draws, whatever the file holds: it
    raises loadCSV's error, or the TypeError naming [lang]; with the
    language passed, the same call draws the chart for every valid
    export and every language of the tables. *)

From S2P Require Import Prelude Naming Frame LoadCSV Categories Interval Plots WordPair.
From Stdlib Require Import String ZArith QArith List Lia.
Import ListNotations.
Local Open Scope string_scope.

(** The Python values the block passes around. *)
Inductive py_value : Type :=
| VFigure
| VAxes
| VDatas (d : list (string * frame cell))
| VStr (s : string).

(** Line 111: [def plotWordPair(fig, ax, datas, lang)]. *)
Definition plotWordPair_params : list string := ["fig"; "ax"; "datas"; "lang"].

(** Python's binding of positional arguments to parameters without
    defaults: too few arguments raise a TypeError naming the missing
    parameters, too many one giving both counts. *)
Definition bind_args (fn : string) (params : list string) (args : list py_value)
    : result (list (string * py_value)) :=
  if Nat.ltb (List.length args) (List.length params)
  then raise (TypeError_MissingArgs fn (skipn (List.length args) params))
  else if Nat.ltb (List.length params) (List.length args)
  then raise (TypeError_TooManyArgs fn (List.length params) (List.length args))
  else Ok (combine params args).

Section Entry.
Context {S : Schema}.

(** A call of [plotWordPair] on positional arguments: the binding,
    then the body on the bound [datas] and [lang] (the body indexes
    [datas] and [lang]; an argument of another type fails there). *)
Definition call_plotWordPair (args : list py_value)
    : result (list (string * list (string * option Q)) * wp_figure) :=
  env <- bind_args "plotWordPair" plotWordPair_params args ;;
  match assoc "datas" env, assoc "lang" env with
  | Some (VDatas d), Some (VStr lang) => plotWordPair d lang
  | Some (VDatas _), _ => raise (TypeError_Argument "lang")
  | _, _ => raise (TypeError_Argument "datas")
  end.

(** Lines 194-200, on the decoded table of "../test/test.csv" (the
    final [plt.show()] follows a call that always raises). *)
Definition main_block (csv : frame raw_cell) : result unit :=
  X <- loadCSV csv ;;
  _ <- call_plotWordPair [VFigure; VAxes; VDatas [("toto", X)]] ;;
  Ok tt.

End Entry.

Section Theorems.
Context {S : Schema}.

Lemma call_plotWordPair_four d lang :
  call_plotWordPair [VFigure; VAxes; VDatas d; VStr lang] = plotWordPair d lang.
Proof. reflexivity. Qed.

(** C32: Run as a script, the module never draws: whatever table the
    CSV file decodes to, the block raises the error of [loadCSV], or,
    once the table is loaded, the TypeError of the call of line 199,
    which lacks the argument [lang]. *)
Theorem main_block_raises (csv : frame raw_cell) :
  main_block csv =
    match loadCSV csv with
    | Ok _ => Err (TypeError_MissingArgs "plotWordPair" ["lang"])
    | Err e => Err e
    end.
Proof. unfold main_block. destruct (loadCSV csv); reflexivity. Qed.

(** C33: The call of line 199 with the language added draws the chart:
    for every valid short or long export and every language of the
    tables, [loadCSV] succeeds and
    [plotWordPair(fig, ax, {'toto': X}, lang)] returns. *)
Theorem main_call_with_lang (csv : frame raw_cell) u lang :
  SchemaWF S -> valid_table csv u ->
  u = List.length order_short \/ u = List.length order_long ->
  In lang locales -> In lang xpos_langs ->
  exists X r, loadCSV csv = Ok X /\
    call_plotWordPair [VFigure; VAxes; VDatas [("toto", X)]; VStr lang] = Ok r.
Proof.
  intros WF (Hnd & Hloc & Hok) Hu Hl Hx.
  destruct (loadCSV_ok_columns csv u Hnd Hloc Hu Hok) as (X & EX & HX & _).
  destruct (plotWordPair_ok [("toto", X)] X lang eq_refl) as (r & Er);
    [constructor; [apply incl_refl|constructor]|rewrite HX; unfold canonical_keys; auto with usat
    |exact Hl|exact Hx|].
  exists X, r. split; [exact EX|]. rewrite call_plotWordPair_four. exact Er.
Qed.

End Theorems.

Lemma main_call_with_lang_witness :
  exists X r, loadCSV (uniform_table attrakdiff_short 3 (RNum 5%Z)) = Ok X /\
    call_plotWordPair (S:=attrakdiff_schema) [VFigure; VAxes; VDatas [("toto", X)]; VStr "fr"] = Ok r.
Proof.
  apply (main_call_with_lang _ 10 "fr" attrakdiff_wf);
    [split; [apply dup_free_b_spec; vm_compute; reflexivity|split; vm_compute; reflexivity]
    |left; reflexivity|right; left; reflexivity|right; left; reflexivity].
Defined.
